(** * GeminiTldraw: the assistant orchestration core of [index.tsx]

    A shallow embedding of the tool-orchestration loop
    ([handleAssistantSubmit]), of the media-generation wrappers
    ([generateImages], [generateVideo], [falVeo3Video], [editImage],
    [runEditImage]) and of the deterministic overlay composition
    ([bakeOverlayBetweenShapes]).

    - JavaScript strings are lists of UTF-16 code units ([list N]); numbers
      are rationals, integers where the source only counts.  A coordinate
      of the page is a finite double, kept as the rational it is; where the
      source subtracts two of them the result is the double that IEEE 754
      gives, by [SpecFloat] of the Standard Library.
    - [async] functions are state-passing functions over the module state
      ([Sys]: the editor's document, the fallback flags, the log) or over
      the component state ([World]: [Sys] and the React state).  A run ends
      in a value, in a thrown exception, or out of fuel where the source
      loops on answers of the outside.  One flow runs at a time.
    - The outside (the Gemini, Veo and FAL endpoints, [fetch], the tldraw
      rasteriser, the browser's canvas, [utils.ts]) is a record [Env] of
      answers; the answer to a request may depend on the moment it is made,
      which is the number of events logged so far.
    - The document is a store of shapes and assets by id ([gmap]); a part
      of a model content is one of text, inline data, function call and
      function response; [fn.args] is read at the types the tool
      declarations give.
    - [genImageClick] and [generateNewVideo], the flows of the Create mode
      that two tools reuse, are taken as answers of [Env]: they work on the
      document and add events, and cannot reach the React state.
    - Around the core: the button list of [ContextualToolbarComponent], the
      transcript view [ChatHistoryUI], the flags the [Ui] component starts
      with, and [handleRun] of [Components/PromptBar.tsx], which calls
      [handleAssistantSubmit]. *)

From Stdlib Require Import QArith Qround Ascii.
From Stdlib Require SpecFloat.
From stdpp Require Import gmap list strings.

Local Open Scope Z_scope.
Local Open Scope list_scope.

(** ** JavaScript strings *)

Abbreviation jsstring := (list N).

Definition js (s : string) : jsstring :=
  (fun a => N_of_ascii a) <$> String.list_ascii_of_string s.

(** The code unit of the double quote. *)
Definition dquote : N := 34%N.

(** [WhiteSpace] and [LineTerminator] of ECMAScript: what [\s] matches and
    what [String.prototype.trim] removes. *)
Definition isLineTerminator (c : N) : bool :=
  ((c =? 10) || (c =? 13) || (c =? 8232) || (c =? 8233))%N.

Definition isWhiteSpace (c : N) : bool :=
  ((c =? 9) || (c =? 11) || (c =? 12) || (c =? 32) || (c =? 160)
   || (c =? 5760) || ((8192 <=? c) && (c <=? 8202)) || (c =? 8239)
   || (c =? 8287) || (c =? 12288) || (c =? 65279))%N.

Definition isSpace (c : N) : bool := isWhiteSpace c || isLineTerminator c.

Fixpoint trimStart (s : jsstring) : jsstring :=
  match s with
  | c :: t => if isSpace c then trimStart t else s
  | [] => []
  end.

Definition trimEnd (s : jsstring) : jsstring := rev (trimStart (rev s)).

Definition trim (s : jsstring) : jsstring := trimEnd (trimStart s).

(** Truthiness of a string: the empty string is falsy. *)
Definition truthyStr (s : jsstring) : bool :=
  match s with [] => false | _ => true end.

Fixpoint startsWith (p s : jsstring) : bool :=
  match p, s with
  | [], _ => true
  | a :: p', b :: s' => (a =? b)%N && startsWith p' s'
  | _ :: _, [] => false
  end.

(** ** The regular expressions of the source

    Patterns are sequences of literal code units and [\s*]; a regular
    expression is an alternation of patterns, with or without the [i]
    flag.  Without the [u] flag, [Canonicalize] maps a code unit to its
    upper case unless that would turn a non-ASCII unit into an ASCII one,
    so an ASCII pattern unit is matched by itself and by its other ASCII
    case only. *)

Inductive Atom :=
| Chr (c : N)
| SpaceStar.

Definition asciiUpper (c : N) : N :=
  if ((97 <=? c) && (c <=? 122))%N then (c - 32)%N else c.

Definition unitEq (ignoreCase : bool) (p c : N) : bool :=
  if ignoreCase then (asciiUpper p =? asciiUpper c)%N else (p =? c)%N.

Fixpoint matchHere (ignoreCase : bool) (p : list Atom) (s : jsstring) : bool :=
  match p with
  | [] => true
  | Chr c :: p' =>
      match s with
      | x :: s' => unitEq ignoreCase c x && matchHere ignoreCase p' s'
      | [] => false
      end
  | SpaceStar :: p' =>
      (fix star (s : jsstring) : bool :=
         match s with
         | x :: s' =>
             (isSpace x && star s') || matchHere ignoreCase p' s
         | [] => matchHere ignoreCase p' []
         end) s
  end.

Fixpoint searchPattern (ignoreCase : bool) (p : list Atom) (s : jsstring) : bool :=
  matchHere ignoreCase p s
  || match s with
     | _ :: s' => searchPattern ignoreCase p s'
     | [] => false
     end.

(** [RegExp.prototype.test] for an alternation without the [g] flag. *)
Definition regexTest (ignoreCase : bool) (alts : list (list Atom)) (s : jsstring) : bool :=
  existsb (fun p => searchPattern ignoreCase p s) alts.

Definition lit (s : jsstring) : list Atom := Chr <$> s.

(** [/INTERNAL|code":500|status":\s*500/i] *)
Definition transientRegex : list (list Atom) :=
  [ lit (js "INTERNAL");
    lit (js "code" ++ [dquote] ++ js ":500");
    lit (js "status" ++ [dquote] ++ js ":") ++ [SpaceStar] ++ lit (js "500") ].

Definition isTransient (msg : jsstring) : bool := regexTest true transientRegex msg.

(** [/did not return images/i] *)
Definition noImagesRegex : list (list Atom) := [ lit (js "did not return images") ].

Definition isNoImages (msg : jsstring) : bool := regexTest true noImagesRegex msg.

(** [s.match(re)] for the two data-URL expressions of the source: [data:],
    a greedy group of any units but line terminators, [;base64,] and, in the
    second expression, a second such group.  The match is the leftmost one,
    the longest one there.  [captureGreedy] gives the first group and what
    follows [;base64,]. *)
Fixpoint captureGreedy (s : jsstring) : option (jsstring * jsstring) :=
  match s with
  | [] => None
  | c :: t =>
      if isLineTerminator c then None
      else match captureGreedy t with
           | Some (p, r) => Some (c :: p, r)
           | None => if startsWith (js ";base64,") s then Some ([], drop 8 s) else None
           end
  end.

Fixpoint matchDataUrlHead (s : jsstring) : option (jsstring * jsstring) :=
  match s with
  | [] => None
  | _ :: t =>
      if startsWith (js "data:") s
      then match captureGreedy (drop 5 s) with
           | Some r => Some r
           | None => matchDataUrlHead t
           end
      else matchDataUrlHead t
  end.

Fixpoint lineOf (s : jsstring) : jsstring :=
  match s with
  | [] => []
  | c :: t => if isLineTerminator c then [] else c :: lineOf t
  end.

(** Group 1 of the expression with one group. *)
Definition matchDataUrlMime (s : jsstring) : option jsstring :=
  fst <$> matchDataUrlHead s.

(** Groups 1 and 2 of the expression with two groups. *)
Definition matchDataUrl (s : jsstring) : option (jsstring * jsstring) :=
  match matchDataUrlHead s with
  | Some (m, r) => Some (m, lineOf r)
  | None => None
  end.

(** [x?.[1] || dflt] *)
Definition orDefault (o : option jsstring) (dflt : jsstring) : jsstring :=
  match o with
  | Some s => if truthyStr s then s else dflt
  | None => dflt
  end.

(** ** Thrown values *)

(** What a [catch] clause receives: an [Error] object, or any other value
    (of which only [String(value)] is observed). *)
Inductive Thrown :=
| ErrorObj (name message : jsstring)
| NonError (str : jsstring).

Definition newError (msg : jsstring) : Thrown := ErrorObj (js "Error") msg.

Definition typeError (msg : jsstring) : Thrown := ErrorObj (js "TypeError") msg.

(** [(e as Error)?.message || String(e)] *)
Definition errorText (e : Thrown) : jsstring :=
  match e with
  | ErrorObj n m =>
      if truthyStr m then m
      else if truthyStr n then n else m
  | NonError s => s
  end.

(** [e.message] inside a template or as an argument of [new Error]. *)
Definition messageOf (e : Thrown) : option jsstring :=
  match e with
  | ErrorObj _ m => Some m
  | NonError _ => None
  end.

(** ** Outcomes and the state-passing monad *)

Inductive Outcome (A : Type) :=
| Ret (a : A)
| Throw (e : Thrown)
| OutOfFuel.

Arguments Ret {A} a.
Arguments Throw {A} e.
Arguments OutOfFuel {A}.

Definition Run (S A : Type) : Type := S -> Outcome A * S.

Definition ret {S A} (a : A) : Run S A := fun s => (Ret a, s).

Definition throw {S A} (e : Thrown) : Run S A := fun s => (Throw e, s).

Definition outOfFuel {S A} : Run S A := fun s => (OutOfFuel, s).

Definition bind {S A B} (m : Run S A) (k : A -> Run S B) : Run S B :=
  fun s =>
    match m s with
    | (Ret a, s') => k a s'
    | (Throw e, s') => (Throw e, s')
    | (OutOfFuel, s') => (OutOfFuel, s')
    end.

(** [try { m } catch (e) { h e }] *)
Definition tryCatch {S A} (m : Run S A) (h : Thrown -> Run S A) : Run S A :=
  fun s =>
    match m s with
    | (Ret a, s') => (Ret a, s')
    | (Throw e, s') => h e s'
    | (OutOfFuel, s') => (OutOfFuel, s')
    end.

Definition gets {S A} (f : S -> A) : Run S A := fun s => (Ret (f s), s).

Definition modify {S} (f : S -> S) : Run S unit := fun s => (Ret tt, f s).

Notation "'do' x <- m ; k" := (bind m (fun x => k))
  (at level 10, x pattern, m at level 99, k at level 200).

Notation "'exec' m ; k" := (bind m (fun _ => k))
  (at level 10, m at level 99, k at level 200).

Definition outcome {S A} (r : Outcome A * S) : Outcome A := fst r.

Definition final {S A} (r : Outcome A * S) : S := snd r.


(** ** Data of the Gemini, Veo and FAL interfaces *)

Record Blob := { blobBytes : list N }.

(** [fn.args], read at the types the tool declarations give its fields. *)
Record FnArgs := {
  arg_prompt : option jsstring;
  arg_numberOfImages : option Q;
  arg_aspectRatio : option jsstring;
  arg_variationStrength : option Q;
  arg_stylePreset : option jsstring;
  arg_negativePrompt : option jsstring;
  arg_seed : option Q;
  arg_baseShapeId : option jsstring;
  arg_overlayShapeId : option jsstring;
  arg_factor : option Q;
  arg_steps : option (list jsstring)
}.

Definition noArgs : FnArgs :=
  {| arg_prompt := None; arg_numberOfImages := None; arg_aspectRatio := None;
     arg_variationStrength := None; arg_stylePreset := None;
     arg_negativePrompt := None; arg_seed := None; arg_baseShapeId := None;
     arg_overlayShapeId := None; arg_factor := None; arg_steps := None |}.

Record FunctionCall := { fn_name : jsstring; fn_args : FnArgs }.

(** The [result] object sent back to the model. *)
Inductive ToolResult :=
| ResultError (error : jsstring)
| ResultOutput (output : jsstring).

Inductive Part :=
| TextPart (text : jsstring)
| InlineDataPart (mimeType data : jsstring)
| FunctionCallPart (functionCall : FunctionCall)
| FunctionResponsePart (name : jsstring) (response : ToolResult).

Record Content := { role : jsstring; parts : option (list Part) }.

Record Candidate := { content : option Content }.

Record Response := { candidates : option (list Candidate) }.

Inductive Modality := IMAGE | TEXT.

Record GenerateContentRequest := {
  gc_model : jsstring;
  gc_parts : list Part;
  gc_responseModalities : list Modality
}.

Record VideoImage := { imageBytes : jsstring; vi_mimeType : jsstring }.

Record VideoRequest := {
  vr_model : jsstring;
  vr_prompt : jsstring;
  vr_image : option VideoImage;
  vr_numberOfVideos : Z;
  vr_aspectRatio : jsstring
}.

Record GeneratedVideo := { videoUri : jsstring }.

Record VideosResponse := {
  raiMediaFilteredCount : option Z;
  raiMediaFilteredReasons : option (list jsstring);
  generatedVideos : option (list GeneratedVideo)
}.

Record Operation := {
  opName : jsstring;
  done : bool;
  response : option VideosResponse
}.

Record FalMedia := { url : option jsstring }.

(** The fields of a FAL result the source reads: [videos], [data.videos],
    [output.videos], [video], [data.video], [output.video]. *)
Record FalResult := {
  fr_videos : option (list (option FalMedia));
  fr_data_videos : option (list (option FalMedia));
  fr_output_videos : option (list (option FalMedia));
  fr_video : option FalMedia;
  fr_data_video : option FalMedia;
  fr_output_video : option FalMedia
}.

Record FalInput := {
  fi_prompt : jsstring;
  fi_aspect_ratio : jsstring;
  fi_image_url : option jsstring
}.

Record FalFallbackConfig := {
  text2img : bool;
  img2img : bool;
  inpaint : bool;
  video : bool
}.

(** ** Tool declarations and chats *)

Inductive SchemaType := STRING | NUMBER | ARRAY_OF_STRING.

(** A function declaration without its free-text descriptions. *)
Record FunctionDeclaration := {
  fd_name : jsstring;
  fd_properties : list (jsstring * SchemaType);
  fd_required : list jsstring
}.

Definition toolDeclarations : list FunctionDeclaration :=
  [ {| fd_name := js "generateImage";
       fd_properties :=
         [ (js "prompt", STRING); (js "numberOfImages", NUMBER);
           (js "aspectRatio", STRING); (js "variationStrength", NUMBER);
           (js "stylePreset", STRING); (js "negativePrompt", STRING);
           (js "seed", NUMBER) ];
       fd_required := [ js "prompt" ] |};
    {| fd_name := js "editImage";
       fd_properties := [ (js "prompt", STRING) ];
       fd_required := [ js "prompt" ] |};
    {| fd_name := js "removeBackground";
       fd_properties := [];
       fd_required := [] |};
    {| fd_name := js "applyOverlay";
       fd_properties :=
         [ (js "baseShapeId", STRING); (js "overlayShapeId", STRING) ];
       fd_required := [] |};
    {| fd_name := js "composeAI";
       fd_properties :=
         [ (js "prompt", STRING); (js "baseShapeId", STRING);
           (js "overlayShapeId", STRING) ];
       fd_required := [ js "prompt" ] |};
    {| fd_name := js "upscaleImage";
       fd_properties := [ (js "factor", NUMBER) ];
       fd_required := [] |};
    {| fd_name := js "generateVideo";
       fd_properties := [ (js "prompt", STRING); (js "aspectRatio", STRING) ];
       fd_required := [ js "prompt" ] |};
    {| fd_name := js "plan";
       fd_properties := [ (js "steps", ARRAY_OF_STRING) ];
       fd_required := [] |} ].

(** [const tools: Tool[] = [{functionDeclarations: toolDeclarations}]] *)
Definition tools : list (list FunctionDeclaration) := [ toolDeclarations ].

Definition GEMINI_MODEL_NAME : jsstring := js "gemini-2.5-pro".
Definition GEMINI_IMAGE_MODEL_NAME : jsstring := js "gemini-2.5-flash-image-preview".
Definition VEO_MODEL_NAME : jsstring := js "veo-3.0-generate-001".

(** What [ai.chats.create] is given. *)
Record Chat := {
  chatModel : jsstring;
  chatTools : list (list FunctionDeclaration);
  chatSystemInstruction : jsstring
}.

(** The image the user attached with Use in Chat. *)
Record ChatImage := { src : jsstring; shapeId : list N }.

Record Toast := {
  toastTitle : jsstring;
  toastDescription : option jsstring;
  toastSeverity : jsstring
}.

(** ** The canvas document *)

Record Box := { boxLeft : Q; boxTop : Q; boxWidth : Q; boxHeight : Q }.

Record Shape := {
  shapeType : jsstring;
  shapeAssetId : option jsstring;
  shapeText : option jsstring;
  shapeBounds : option Box
}.

Record Asset := {
  assetType : jsstring;
  assetSrc : jsstring;
  assetW : Q;
  assetH : Q;
  assetName : jsstring;
  assetIsAnimated : bool;
  assetMimeType : jsstring
}.

Record Canvas := {
  shapes : gmap (list N) Shape;
  assets : gmap (list N) Asset;
  selection : list (list N)
}.

(** Pixels are RGBA quadruples; a bitmap is its size and its pixels. *)
Definition Pixel : Type := N * N * N * N.

Definition transparentBlack : Pixel := (0, 0, 0, 0)%N.

Record Bitmap := { bmWidth : Z; bmHeight : Z; bmPixel : Z -> Z -> Pixel }.

(** ** Events: what a run does that the outside can see *)

Inductive Event :=
| EvGenerateContent (r : GenerateContentRequest)
| EvGenerateVideos (r : VideoRequest)
| EvGetVideosOperation (op : Operation)
| EvSleep (ms : N)
| EvFetch (u : jsstring)
| EvFalSubscribe (endpoint : jsstring) (input : FalInput)
| EvNotifyFallback (msg : jsstring)
| EvToast (t : Toast)
| EvChatCreate (c : Chat)
| EvSendMessage (c : Chat) (message : list Part).

(** An answer of the outside world to an awaited call. *)
Inductive Answer (A : Type) :=
| Resolves (a : A)
| Rejects (e : Thrown).

Arguments Resolves {A} a.
Arguments Rejects {A} e.

(** ** Module state and component state *)

(** The state the module-level functions of [index.tsx] can reach: the
    editor's document, the fallback flags and hook, and the log of events. *)
Record Sys := {
  canvas : Canvas;
  falFallbackConfig : FalFallbackConfig;
  notifyFallback : bool;
  shapeIds : nat;
  log : list Event
}.

Definition withLog (f : list Event -> list Event) (s : Sys) : Sys :=
  {| canvas := canvas s; falFallbackConfig := falFallbackConfig s;
     notifyFallback := notifyFallback s; shapeIds := shapeIds s;
     log := f (log s) |}.

Definition withCanvas (f : Canvas -> Canvas) (s : Sys) : Sys :=
  {| canvas := f (canvas s); falFallbackConfig := falFallbackConfig s;
     notifyFallback := notifyFallback s; shapeIds := shapeIds s;
     log := log s |}.

Definition withShapeIds (f : nat -> nat) (s : Sys) : Sys :=
  {| canvas := canvas s; falFallbackConfig := falFallbackConfig s;
     notifyFallback := notifyFallback s; shapeIds := f (shapeIds s);
     log := log s |}.

(** [setFalFallbackConfig(partial)] with every flag given, as its one call
    site does. *)
Definition setFalFallbackConfig (cfg : FalFallbackConfig) (s : Sys) : Sys :=
  {| canvas := canvas s; falFallbackConfig := cfg;
     notifyFallback := notifyFallback s; shapeIds := shapeIds s;
     log := log s |}.

Definition setNotifyFallback (registered : bool) (s : Sys) : Sys :=
  {| canvas := canvas s; falFallbackConfig := falFallbackConfig s;
     notifyFallback := registered; shapeIds := shapeIds s;
     log := log s |}.

(** What [setEditingImage] is given: the mask editor's input. *)
Record EditingImage := {
  ei_assetId : list N;
  ei_src : jsstring;
  ei_bounds : Box;
  ei_initialPrompt : option jsstring;
  ei_overlaySrc : option jsstring
}.

(** The React state of the [Ui] component, as the setters leave it. *)
Record ReactState := {
  chatHistory : list Content;
  storedChatSession : option Chat;
  storedLastAssistantImageInChat : option ChatImage;
  editingImage : option EditingImage
}.

(** The state values the closure of one render holds: [handleAssistantSubmit]
    reads these, whatever the setters did since. *)
Record Render := {
  chatSession : option Chat;
  lastAssistantImageInChat : option ChatImage
}.

Record World := { sys : Sys; react : ReactState }.

(** ** The outside world *)

Record Env := {
  (* process.env *)
  API_KEY : jsstring;
  FAL_KEY : option jsstring;
  (* utils.ts *)
  bloblToBase64 : Blob -> jsstring;
  getImageSize : jsstring -> Answer (Q * Q);
  addPlaceholder : jsstring -> Canvas -> list (list N) * Canvas;
  placeNewShape : list N -> Canvas -> Canvas;
  (* the JavaScript engine *)
  numberToString : Q -> jsstring;
  decodeURIComponent : jsstring -> Answer jsstring;
  (* @google/genai *)
  generateContent : nat -> GenerateContentRequest -> Answer Response;
  generateVideos : nat -> VideoRequest -> Answer Operation;
  getVideosOperation : nat -> Operation -> Answer Operation;
  sendMessage : nat -> Chat -> list Part -> Answer Response;
  primaryInstruction : jsstring;
  fallbackInstruction : jsstring;
  (* @fal-ai/client and fetch *)
  falSubscribe : nat -> jsstring -> FalInput -> Answer (option FalResult);
  fetchBlob : nat -> jsstring -> Answer Blob;
  (* tldraw and the browser's canvas *)
  createShapeId : nat -> list N;
  toImage : Canvas -> list (list N) -> bool -> Answer Blob;
  createImageBitmap : Blob -> Answer Bitmap;
  getContext2d : nat -> bool;
  sourceOver : Pixel -> Pixel -> Pixel;
  toBlob : Bitmap -> option Blob;
  (* the two flows of the Create mode the assistant reuses: their outcome,
     the document they leave and the events they add *)
  genImageClick : Q -> jsstring -> Sys -> Outcome unit * Canvas * list Event;
  generateNewVideo :
    option jsstring -> option jsstring -> jsstring ->
    Sys -> Outcome unit * Canvas * list Event
}.

Section Program.

Variable E : Env.

(** An awaited call to the outside: it is logged, and answered according to
    the moment it is made. *)
Definition call {A} (ev : Event) (answer : nat -> Answer A) : Run Sys A :=
  fun s =>
    let s' := withLog (fun l => l ++ [ev]) s in
    match answer (length (log s)) with
    | Resolves a => (Ret a, s')
    | Rejects e => (Throw e, s')
    end.

Definition emit (ev : Event) : Run Sys unit :=
  modify (withLog (fun l => l ++ [ev])).

(** A flow of the Create mode: it works on the document and adds events. *)
Definition flow (f : Sys -> Outcome unit * Canvas * list Event) : Run Sys unit :=
  fun s =>
    match f s with
    | (r, c, evs) => (r, withLog (fun l => l ++ evs) (withCanvas (fun _ => c) s))
    end.

(** A call that stays inside the page. *)
Definition await {S A} (a : Answer A) : Run S A :=
  match a with
  | Resolves x => ret x
  | Rejects e => throw e
  end.

Definition undefinedProperty (prop : string) : Thrown :=
  typeError (js "Cannot read properties of undefined (reading '" ++ js prop ++ js "')").

Definition nullProperty (prop : string) : Thrown :=
  typeError (js "Cannot set properties of null (setting '" ++ js prop ++ js "')").

(** *** generateImages *)

Fixpoint findInlinePart (ps : list Part) : option (jsstring * jsstring) :=
  match ps with
  | [] => None
  | InlineDataPart m d :: _ => Some (m, d)
  | _ :: ps' => findInlinePart ps'
  end.

(** [res.candidates?.[0]?.content?.parts?.find((p) => p.inlineData)?.inlineData] *)
Definition inlineDataOf (res : Response) : option (jsstring * jsstring) :=
  match candidates res with
  | Some (c :: _) =>
      match content c with
      | Some ct =>
          match parts ct with
          | Some ps => findInlinePart ps
          | None => None
          end
      | None => None
      end
  | _ => None
  end.

Definition dataUrl (mimeType data : jsstring) : jsstring :=
  js "data:" ++ mimeType ++ js ";base64," ++ data.

Definition imageRequest (imagePart : option Part) (textPart : Part)
  : GenerateContentRequest :=
  {| gc_model := GEMINI_IMAGE_MODEL_NAME;
     gc_parts := match imagePart with
                 | Some ip => [ip; textPart]
                 | None => [textPart]
                 end;
     gc_responseModalities := [IMAGE; TEXT] |}.

(** One [for] loop of [generateImages]: a request per iteration, its image
    pushed to [imageObjects] when it has one. *)
Fixpoint imageLoop (iterations : nat) (req : GenerateContentRequest)
  (imageObjects : list jsstring) : Run Sys (list jsstring) :=
  match iterations with
  | O => ret imageObjects
  | S k =>
      do res <- call (EvGenerateContent req) (fun t => generateContent E t req);
      imageLoop k req
        (match inlineDataOf res with
         | Some (m, d) => imageObjects ++ [dataUrl m d]
         | None => imageObjects
         end)
  end.

(** The iterations of [for (let i = 0; i < n; i++)]. *)
Definition iterationsOf (n : Q) : nat := Z.to_nat (Qceiling n).

Definition diversityHint : jsstring :=
  js "Change camera angle and lighting, vary background and composition; avoid reproducing the exact scene.".

Definition retryPromptOf (prompt : jsstring) : jsstring :=
  trim (prompt ++ [10%N] ++ diversityHint).

Definition imagePartOf (imageBlob : option Blob) : option Part :=
  match imageBlob with
  | Some b =>
      let baseImageBase64 := bloblToBase64 E b in
      let mimeType := orDefault (matchDataUrlMime baseImageBase64) (js "image/png") in
      if truthyStr baseImageBase64
      then Some (InlineDataPart mimeType baseImageBase64)
      else None
  | None => None
  end.

Definition noImagesError : Thrown := newError (js "Gemini did not return images").

Definition generateImages (prompt : jsstring) (imageBlob : option Blob)
  (numberOfImages : Q) (aspectRatio : jsstring) : Run Sys (list jsstring) :=
  let imagePart := imagePartOf imageBlob in
  let textPart := TextPart prompt in
  do imageObjects <-
    imageLoop (iterationsOf numberOfImages) (imageRequest imagePart textPart) [];
  match imageObjects with
  | [] =>
      let retryPrompt := retryPromptOf prompt in
      do imageObjects <-
        imageLoop (iterationsOf numberOfImages)
          (imageRequest imagePart (TextPart retryPrompt)) [];
      match imageObjects with
      | [] => throw noImagesError
      | _ => ret imageObjects
      end
  | _ => ret imageObjects
  end.

(** *** falVeo3Video *)

(** [a || b || c || []] over arrays: an array is truthy, even when empty. *)
Definition firstDefined {A} (os : list (option A)) : option A :=
  match filter (fun o => is_Some o) os with
  | o :: _ => o
  | [] => None
  end.

Definition urlOf (v : option FalMedia) : option jsstring :=
  match v with
  | Some m => url m
  | None => None
  end.

(** [.filter(Boolean)] over optional strings. *)
Fixpoint truthyUrls (us : list (option jsstring)) : list jsstring :=
  match us with
  | [] => []
  | Some u :: us' => if truthyStr u then u :: truthyUrls us' else truthyUrls us'
  | None :: us' => truthyUrls us'
  end.

Definition falVideosOf (result : option FalResult) : list (option FalMedia) :=
  match result with
  | Some r =>
      match firstDefined [fr_videos r; fr_data_videos r; fr_output_videos r] with
      | Some vs => vs
      | None => []
      end
  | None => []
  end.

Definition falSingleOf (result : option FalResult) : option jsstring :=
  match result with
  | Some r => urlOf (firstDefined [fr_video r; fr_data_video r; fr_output_video r])
  | None => None
  end.

Definition falVeo3Video (prompt aspectRatio : jsstring)
  (imageDataUrl : option jsstring) : Run Sys (list jsstring) :=
  tryCatch
    (let input := {| fi_prompt := prompt; fi_aspect_ratio := aspectRatio;
                     fi_image_url := imageDataUrl |} in
     do result <- call (EvFalSubscribe (js "fal-ai/veo3") input)
                       (fun t => falSubscribe E t (js "fal-ai/veo3") input);
     let videos := falVideosOf result in
     match videos with
     | _ :: _ => ret (truthyUrls (urlOf <$> videos))
     | [] =>
         match falSingleOf result with
         | Some single => if truthyStr single then ret [single] else ret []
         | None => ret []
         end
     end)
    (fun _ => ret []).

(** *** generateVideo *)

(** [while (!operation.done)]: ten seconds of sleep and one poll per
    iteration; [fuel] bounds the iterations. *)
Fixpoint pollLoop (fuel : nat) (operation : Operation) : Run Sys Operation :=
  if done operation then ret operation
  else
    match fuel with
    | O => outOfFuel
    | S fuel' =>
        exec emit (EvSleep 10000);
        do operation' <- call (EvGetVideosOperation operation)
                              (fun t => getVideosOperation E t operation);
        pollLoop fuel' operation'
    end.

(** One element of the [Promise.all] over [generatedVideos]. *)
Definition fetchGeneratedVideo (generatedVideo : GeneratedVideo) : Run Sys jsstring :=
  do u <- await (decodeURIComponent E (videoUri generatedVideo));
  let target := u ++ js "&key=" ++ API_KEY E in
  do blob <- call (EvFetch target) (fun t => fetchBlob E t target);
  ret (bloblToBase64 E blob).

(** [Promise.all(xs.map(async ...))]: every element is started, in order;
    the result is the list of the values, or a rejection when an element
    rejects. *)
Fixpoint promiseAll {A} (ms : list (Run Sys A)) : Run Sys (list A) :=
  match ms with
  | [] => ret []
  | m :: ms' =>
      fun s =>
        match m s with
        | (Ret a, s1) =>
            match promiseAll ms' s1 with
            | (Ret l, s2) => (Ret (a :: l), s2)
            | r => r
            end
        | (Throw e, s1) => (Throw e, final (promiseAll ms' s1))
        | (OutOfFuel, s1) => (OutOfFuel, s1)
        end
  end.

(** JavaScript truthiness of a number (integers here). *)
Definition truthyCount (n : option Z) : bool :=
  match n with
  | Some k => negb (k =? 0)
  | None => false
  end.

Definition videoRequest (imageBlob : option Blob) (prompt : jsstring)
  (numberOfVideos : Z) (aspectRatio : jsstring) : VideoRequest :=
  {| vr_model := VEO_MODEL_NAME;
     vr_prompt := prompt;
     vr_image :=
       match imageBlob with
       | Some b => Some {| imageBytes := bloblToBase64 E b;
                           vi_mimeType := js "image/png" |}
       | None => None
       end;
     vr_numberOfVideos := numberOfVideos;
     vr_aspectRatio := aspectRatio |}.

(** The [try] block of [generateVideo], first half: the request and the
    polling, up to the operation that reports [done]. *)
Definition veoOperation (fuel : nat) (imageBlob : option Blob) (prompt : jsstring)
  (numberOfVideos : Z) (aspectRatio : jsstring) : Run Sys Operation :=
  let req := videoRequest imageBlob prompt numberOfVideos aspectRatio in
  do operation <- call (EvGenerateVideos req) (fun t => generateVideos E t req);
  pollLoop fuel operation.

(** Second half: [Some videos] when the block returns, [None] when control
    leaves it without a [return]. *)
Definition veoVideos (operation : Operation) : Run Sys (option (list jsstring)) :=
  match response operation with
  | Some response =>
      exec (if truthyCount (raiMediaFilteredCount response)
            then match raiMediaFilteredReasons response with
                 | Some (reason :: _) => throw (newError reason)
                 | Some [] => ret tt
                 | None => throw (undefinedProperty "length")
                 end
            else ret tt);
      match generatedVideos response with
      | Some gvs =>
          do videos <- promiseAll (fetchGeneratedVideo <$> gvs);
          ret (Some videos)
      | None => ret None
      end
  | None => ret None
  end.

Definition veoAttempt (fuel : nat) (imageBlob : option Blob) (prompt : jsstring)
  (numberOfVideos : Z) (aspectRatio : jsstring) : Run Sys (option (list jsstring)) :=
  do operation <- veoOperation fuel imageBlob prompt numberOfVideos aspectRatio;
  veoVideos operation.

(** [for (const url of urls) { try { ... out.push(...) } catch {} }] *)
Fixpoint fetchFallbackVideos (urls : list jsstring) (out : list jsstring)
  : Run Sys (list jsstring) :=
  match urls with
  | [] => ret out
  | u :: urls' =>
      do out' <- tryCatch
                   (do blob <- call (EvFetch u) (fun t => fetchBlob E t u);
                    ret (out ++ [bloblToBase64 E blob]))
                   (fun _ => ret out);
      fetchFallbackVideos urls' out'
  end.

Definition truthyKey (k : option jsstring) : bool :=
  match k with
  | Some s => truthyStr s
  | None => false
  end.

(** [notifyFallback?.(msg)] *)
Definition notify (msg : jsstring) : Run Sys unit :=
  do registered <- gets notifyFallback;
  if registered then emit (EvNotifyFallback msg) else ret tt.

Definition generateVideo (fuel : nat) (imageBlob : option Blob) (prompt : jsstring)
  (numberOfVideos : Z) (aspectRatio : jsstring) : Run Sys (list jsstring) :=
  do attempt <-
    tryCatch (veoAttempt fuel imageBlob prompt numberOfVideos aspectRatio)
             (fun _ => ret None);
  match attempt with
  | Some videos => ret videos
  | None =>
      (* Fallback to FAL Veo3 *)
      do cfg <- gets falFallbackConfig;
      if negb (truthyKey (FAL_KEY E) && video cfg) then ret []
      else
        exec notify (js "Usando fallback FAL: video");
        let imageDataUrl :=
          match imageBlob with
          | Some b => Some (js "data:image/png;base64," ++ bloblToBase64 E b)
          | None => None
          end in
        do urls <- falVeo3Video prompt aspectRatio imageDataUrl;
        fetchFallbackVideos urls []
  end.

(** *** The editor *)

Definition getShape (id : list N) (c : Canvas) : option Shape := shapes c !! id.

Definition getAsset (assetId : option (list N)) (c : Canvas) : option Asset :=
  match assetId with
  | Some a => assets c !! a
  | None => None
  end.

Definition getShapePageBounds (id : list N) (c : Canvas) : option Box :=
  match shapes c !! id with
  | Some sh => shapeBounds sh
  | None => None
  end.

Definition deleteShapes (ids : list (list N)) (c : Canvas) : Canvas :=
  {| shapes := foldr delete (shapes c) ids;
     assets := assets c;
     selection := filter (fun i => i ∉ ids) (selection c) |}.

Definition select (ids : list (list N)) (c : Canvas) : Canvas :=
  {| shapes := shapes c; assets := assets c; selection := ids |}.

Definition createShape (id : list N) (sh : Shape) (c : Canvas) : Canvas :=
  {| shapes := <[id := sh]> (shapes c); assets := assets c;
     selection := selection c |}.

(** [editor.updateAssets([{id, type: 'image', props}])] on an asset that
    exists: the record is the old one with [type] and [props] replaced. *)
Definition updateAssets (id : list N) (a : Asset) (c : Canvas) : Canvas :=
  {| shapes := shapes c; assets := <[id := a]> (assets c);
     selection := selection c |}.

Definition imageAsset (newSrc : jsstring) (w h : Q) (name mimeType : jsstring) : Asset :=
  {| assetType := js "image"; assetSrc := newSrc; assetW := w; assetH := h;
     assetName := name; assetIsAnimated := false; assetMimeType := mimeType |}.

(** [Math.round] of a finite number: the nearest integer, a half going up. *)
Definition mathRound (q : Q) : Z := Qfloor (q + (1 # 2)).

(** *** Doubles

    The double nearest to a rational (ties to even), which is the rational
    itself when it is a double: the quotient of its numerator and its
    denominator, rounded once as binary64 division rounds. *)
Definition doubleOf (q : Q) : SpecFloat.spec_float :=
  match Qnum q with
  | Z0 => SpecFloat.S754_zero false
  | Zpos n =>
      SpecFloat.SFdiv 53 1024 (SpecFloat.S754_finite false n 0)
        (SpecFloat.S754_finite false (Qden q) 0)
  | Zneg n =>
      SpecFloat.SFdiv 53 1024 (SpecFloat.S754_finite true n 0)
        (SpecFloat.S754_finite false (Qden q) 0)
  end.

(** The value of a double that is finite. *)
Definition valueOf (x : SpecFloat.spec_float) : option Q :=
  match x with
  | SpecFloat.S754_zero _ => Some 0%Q
  | SpecFloat.S754_finite negative m e =>
      let n := if negative then Zneg m else Zpos m in
      Some (match e with
            | Zneg k => Qmake n (2 ^ k)%positive
            | _ => inject_Z (n * 2 ^ e)
            end)
  | _ => None
  end.

(** [a - b] on two coordinates: binary64 subtraction. *)
Definition numberSub (a b : Q) : SpecFloat.spec_float :=
  SpecFloat.SFsub 53 1024 (doubleOf a) (doubleOf b).

(** [Math.round(x)] as an argument of [drawImage]: an integer, or [None]
    when [x] is infinite, which [Math.round] returns as it is. *)
Definition roundNumber (x : SpecFloat.spec_float) : option Z :=
  mathRound <$> valueOf x.

(** *** The 2D canvas *)

Definition blankCanvas (w h : Z) : Bitmap :=
  {| bmWidth := w; bmHeight := h; bmPixel := fun _ _ => transparentBlack |}.

Definition covers (img : Bitmap) (dx dy x y : Z) : bool :=
  (dx <=? x) && (x <? dx + bmWidth img) && (dy <=? y) && (y <? dy + bmHeight img).

(** [ctx.drawImage(img, dx, dy)]: the image composited over the canvas where
    it lies, the rest of the canvas untouched. *)
Definition drawImage (img : Bitmap) (dx dy : Z) (cv : Bitmap) : Bitmap :=
  {| bmWidth := bmWidth cv;
     bmHeight := bmHeight cv;
     bmPixel := fun x y =>
       if covers img dx dy x y
       then sourceOver E (bmPixel img (x - dx) (y - dy)) (bmPixel cv x y)
       else bmPixel cv x y |}.

(** *** bakeOverlayBetweenShapes *)

(** The canvas of the bake: the base bitmap at the origin of a canvas of the
    rounded size of the base bounds. *)
Definition bakeBase (baseBounds : Box) (baseBitmap : Bitmap) : Bitmap :=
  drawImage baseBitmap 0 0
    (blankCanvas (Z.max 1 (mathRound (boxWidth baseBounds)))
                 (Z.max 1 (mathRound (boxHeight baseBounds)))).

(** [ctx.drawImage(img, dx, dy)] with the arguments the bake computes: the
    canvas draws nothing when one of them is infinite. *)
Definition drawImageAt (img : Bitmap) (dx dy : option Z) (cv : Bitmap) : Bitmap :=
  match dx, dy with
  | Some x, Some y => drawImage img x y cv
  | _, _ => cv
  end.

(** [Math.round(overlayBounds.left - baseBounds.left)] *)
Definition bakeOffsetX (baseBounds overlayBounds : Box) : option Z :=
  roundNumber (numberSub (boxLeft overlayBounds) (boxLeft baseBounds)).

(** [Math.round(overlayBounds.top - baseBounds.top)] *)
Definition bakeOffsetY (baseBounds overlayBounds : Box) : option Z :=
  roundNumber (numberSub (boxTop overlayBounds) (boxTop baseBounds)).

Definition bakeOverlayBetweenShapes (baseShapeId overlayShapeId : list N)
  : Run Sys unit :=
  do c <- gets canvas;
  match getShape baseShapeId c, getShape overlayShapeId c with
  | Some baseShape, Some overlayShape =>
      let baseBounds := getShapePageBounds baseShapeId c in
      let overlayBounds := getShapePageBounds overlayShapeId c in
      (* Export images *)
      do baseExport <- await (toImage E c [baseShapeId] true);
      do overlayExport <- await (toImage E c [overlayShapeId] false);
      (* Create bitmaps *)
      do baseBitmap <- await (createImageBitmap E baseExport);
      do overlayBitmap <- await (createImageBitmap E overlayExport);
      (* Draw onto canvas aligned to base bounds *)
      match baseBounds with
      | None => throw (undefinedProperty "width")
      | Some bb =>
          do moment <- gets (fun s => length (log s));
          if negb (getContext2d E moment)
          then throw (newError (js "Could not get 2D context."))
          else
            let drawn := bakeBase bb baseBitmap in
            match overlayBounds with
            | None => throw (undefinedProperty "left")
            | Some ob =>
                let baked :=
                  drawImageAt overlayBitmap (bakeOffsetX bb ob) (bakeOffsetY bb ob)
                    drawn in
                (* Convert to data URL *)
                match toBlob E baked with
                | None => throw (newError (js "Failed to bake overlay"))
                | Some blob =>
                    let newSrc := js "data:image/png;base64," ++ bloblToBase64 E blob in
                    (* Update asset *)
                    let assetId := shapeAssetId baseShape in
                    match getAsset assetId c, assetId with
                    | Some existingAsset, Some aid =>
                        if bool_decide (assetType existingAsset = js "image")
                        then
                          exec modify (withCanvas (updateAssets aid
                                 (imageAsset newSrc
                                    (inject_Z (mathRound (boxWidth bb)))
                                    (inject_Z (mathRound (boxHeight bb)))
                                    (assetName existingAsset) (js "image/png"))));
                          exec modify (withCanvas (deleteShapes [overlayShapeId]));
                          modify (withCanvas (select [baseShapeId]))
                        else throw (newError (js "Base asset not found or not an image."))
                    | _, _ => throw (newError (js "Base asset not found or not an image."))
                    end
                end
            end
      end
  | _, _ => throw (newError (js "Both shapes must be images."))
  end.

(** *** editImage (the mask-edit call) *)

Definition pngPart (b : Blob) : Part :=
  InlineDataPart (js "image/png") (bloblToBase64 E b).

Definition editImageRequest (imageBlob maskBlob : Blob) (prompt : jsstring)
  (overlayBlob : option Blob) : GenerateContentRequest :=
  {| gc_model := GEMINI_IMAGE_MODEL_NAME;
     gc_parts :=
       match overlayBlob with
       | Some ob => [TextPart prompt; pngPart imageBlob; pngPart maskBlob; pngPart ob]
       | None => [TextPart prompt; pngPart imageBlob; pngPart maskBlob]
       end;
     gc_responseModalities := [IMAGE; TEXT] |}.

Definition editImage (imageBlob maskBlob : Blob) (prompt : jsstring)
  (overlayBlob : option Blob) : Run Sys jsstring :=
  let req := editImageRequest imageBlob maskBlob prompt overlayBlob in
  do res <- call (EvGenerateContent req) (fun t => generateContent E t req);
  match inlineDataOf res with
  | Some (m, d) => ret (dataUrl m d)
  | None => throw (newError (js "Gemini did not return an image for editImage"))
  end.

(** *** runEditImage *)

(** [gcd(a, b)] of the source, on integers; [a % b] has the sign of [a].
    The second argument shrinks in absolute value, so [|b| + 1] steps reach
    [b === 0]. *)
Fixpoint gcdSteps (steps : nat) (a b : Z) : Z :=
  match steps with
  | O => a
  | S k => if b =? 0 then a else gcdSteps k b (Z.rem a b)
  end.

Definition gcd (a b : Z) : Z := gcdSteps (S (Z.abs_nat b)) a b.

(** The [ratio] string; a zero divisor gives [NaN]. *)
Definition ratioOf (bounds : Box) : jsstring :=
  let w := mathRound (boxWidth bounds) in
  let h := mathRound (boxHeight bounds) in
  let commonDivisor := gcd w h in
  let show (n : Z) : jsstring :=
    if commonDivisor =? 0 then js "NaN"
    else numberToString E (inject_Z n / inject_Z commonDivisor) in
  show w ++ js ":" ++ show h.

Definition truthyOpt (o : option jsstring) : bool :=
  match o with
  | Some s => truthyStr s
  | None => false
  end.

Definition headOr {A} (l : list A) (dflt : list A) : list A :=
  match l with
  | x :: _ => [x]
  | [] => dflt
  end.

Definition runEditImage (prompt : jsstring) (shapeId : list N) : Run Sys unit :=
  do c <- gets canvas;
  match getShape shapeId c with
  | None => throw (newError (js "Target shape is not a valid image."))
  | Some shape =>
      if negb (truthyOpt (shapeAssetId shape))
      then throw (newError (js "Target shape is not a valid image."))
      else
        let '(placeholderIds, c1) := addPlaceholder E (js "Editing image...") c in
        exec modify (withCanvas (fun _ => select (headOr placeholderIds []) c1));
        do c2 <- gets canvas;
        do shapeExport <- await (toImage E c2 [shapeId] true);
        match getShapePageBounds shapeId c2 with
        | None => throw (undefinedProperty "width")
        | Some bounds =>
            let ratio := ratioOf bounds in
            do imageObjects <- generateImages prompt (Some shapeExport) 1 ratio;
            match imageObjects with
            | [] =>
                exec modify (withCanvas (deleteShapes placeholderIds));
                throw (newError (js "Image editing failed to return an image."))
            | newSrc :: _ =>
                let assetId := shapeAssetId shape in
                do c3 <- gets canvas;
                match getAsset assetId c3, assetId with
                | Some existingAsset, Some aid =>
                    do size <- await (getImageSize E newSrc);
                    let mimeType := orDefault (matchDataUrlMime newSrc) (js "image/jpeg") in
                    if negb (bool_decide (assetType existingAsset = js "image"))
                    then
                      exec modify (withCanvas (deleteShapes placeholderIds));
                      throw (newError (js "The asset being updated is not an image."))
                    else
                      exec modify (withCanvas (updateAssets aid
                             (imageAsset newSrc (fst size) (snd size)
                                (assetName existingAsset) mimeType)));
                      exec modify (withCanvas (deleteShapes placeholderIds));
                      modify (withCanvas (select [shapeId]))
                | _, _ =>
                    exec modify (withCanvas (deleteShapes placeholderIds));
                    throw (newError (js "Could not find existing asset to update."))
                end
            end
        end
  end.

(** *** The component: setters, toasts *)

Definition liftSys {A} (m : Run Sys A) : Run World A :=
  fun w =>
    match m (sys w) with
    | (r, s') => (r, {| sys := s'; react := react w |})
    end.

Definition withReact (f : ReactState -> ReactState) : Run World unit :=
  modify (fun w => {| sys := sys w; react := f (react w) |}).

Definition setChatHistory (f : list Content -> list Content) : Run World unit :=
  withReact (fun r =>
    {| chatHistory := f (chatHistory r);
       storedChatSession := storedChatSession r;
       storedLastAssistantImageInChat := storedLastAssistantImageInChat r;
       editingImage := editingImage r |}).

Definition setChatSession (c : option Chat) : Run World unit :=
  withReact (fun r =>
    {| chatHistory := chatHistory r;
       storedChatSession := c;
       storedLastAssistantImageInChat := storedLastAssistantImageInChat r;
       editingImage := editingImage r |}).

Definition setLastAssistantImageInChat (i : option ChatImage) : Run World unit :=
  withReact (fun r =>
    {| chatHistory := chatHistory r;
       storedChatSession := storedChatSession r;
       storedLastAssistantImageInChat := i;
       editingImage := editingImage r |}).

Definition setEditingImage (e : option EditingImage) : Run World unit :=
  withReact (fun r =>
    {| chatHistory := chatHistory r;
       storedChatSession := storedChatSession r;
       storedLastAssistantImageInChat := storedLastAssistantImageInChat r;
       editingImage := e |}).

Definition addToast (t : Toast) : Run World unit := liftSys (emit (EvToast t)).

Definition handleSaveEditedImage (assetId : option (list N)) (newSrc : jsstring)
  : Run World unit :=
  tryCatch
    (do size <- await (getImageSize E newSrc);
     let mimeType := orDefault (matchDataUrlMime newSrc) (js "image/jpeg") in
     do c <- liftSys (gets canvas);
     match getAsset assetId c, assetId with
     | Some existingAsset, Some aid =>
         if negb (bool_decide (assetType existingAsset = js "image"))
         then
           exec setEditingImage None;
           throw (newError (js "Asset is not an image."))
         else
           exec liftSys (modify (withCanvas (updateAssets aid
                  (imageAsset newSrc (fst size) (snd size)
                     (assetName existingAsset) mimeType))));
           setEditingImage None
     | _, _ =>
         exec setEditingImage None;
         throw (newError (js "Could not find existing asset to update."))
     end)
    (fun _ =>
       addToast {| toastTitle := js "Failed to update image";
                   toastDescription := None;
                   toastSeverity := js "error" |}).

(** *** The texts of the tool results and toasts *)

Definition noImageSelected : jsstring :=
  js "No image selected for editing. The user must select an image and click "
  ++ [34%N]
  ++ js "Use in Chat"
  ++ [34%N]
  ++ js " first.".

Definition selectForBackground : jsstring :=
  js "Select an image and click "
  ++ [8220%N]
  ++ js "Use in Chat"
  ++ [8221%N]
  ++ js " or select base image.".

Definition noImagesToastDescription : jsstring :=
  js "Tente pedir mudan"
  ++ [231%N]
  ++ js "as de pose, "
  ++ [226%N]
  ++ js "ngulo de c"
  ++ [226%N]
  ++ js "mera, ilumina"
  ++ [231%N]
  ++ [227%N]
  ++ js "o e fundo. Evite reproduzir a cena exatamente.".

Definition noImagesResult : jsstring :=
  js "O modelo n"
  ++ [227%N]
  ++ js "o retornou imagem. Experimente detalhar "
  ++ [226%N]
  ++ js "ngulo/ilumina"
  ++ [231%N]
  ++ [227%N]
  ++ js "o/composi"
  ++ [231%N]
  ++ [227%N]
  ++ js "o e variar pose e fundo.".

Definition proUnavailable : jsstring :=
  js "Assistente (Pro) indispon"
  ++ [237%N]
  ++ js "vel".

Definition generatedTail : jsstring :=
  js " image(s). An image was in the chat context but 'generateImage' was used, so it was ignored. For editing, please rephrase your request to make it clear you want to modify the existing image.".

(** A value inside a template literal. *)
Definition showText (o : option jsstring) : jsstring :=
  match o with
  | Some t => t
  | None => js "undefined"
  end.

(** [Array.prototype.join] *)
Fixpoint joinWith (sep : jsstring) (l : list jsstring) : jsstring :=
  match l with
  | [] => []
  | [x] => x
  | x :: l' => x ++ sep ++ joinWith sep l'
  end.

(** [a || b] on optional strings. *)
Definition orElse (a b : option jsstring) : option jsstring :=
  if truthyOpt a then a else b.

(** [a ?? b] *)
Definition nullish {A} (a : option A) (b : A) : A :=
  match a with
  | Some x => x
  | None => b
  end.

(** *** The tools of the assistant *)

(** The constants every tool branch of one submission shares. *)
Record ToolContext := {
  chat : Chat;
  imageForToolContext : option jsstring;
  shapeIdForEditing : option (list N);
  lastImage : option ChatImage
}.

(** [overlaySrc] of the editImage branch: the chat image, when there is one
    and it is not the target. *)
Definition editOverlay (ctx : ToolContext) (target : list N) : option jsstring :=
  match lastImage ctx with
  | Some l => if bool_decide (shapeId l <> target) then Some (src l) else None
  | None => None
  end.

Definition toolEditImage (ctx : ToolContext) (args : FnArgs) : Run World ToolResult :=
  match shapeIdForEditing ctx with
  | Some sid =>
      if negb (truthyStr sid) then ret (ResultError noImageSelected)
      else
        (* Open mask editor with the assistant's prompt prefilled *)
        do c <- liftSys (gets canvas);
        match getShape sid c with
        | None => ret (ResultError (js "Selected shape is not an image."))
        | Some imgShape =>
            match getAsset (shapeAssetId imgShape) c, shapeAssetId imgShape,
                  getShapePageBounds sid c with
            | Some asset, Some aid, Some bounds =>
                (* If an assistant image is present and is different from the
                   target, pass as overlay *)
                exec setEditingImage (Some
                  {| ei_assetId := aid;
                     ei_src := assetSrc asset;
                     ei_bounds := bounds;
                     ei_initialPrompt := arg_prompt args;
                     ei_overlaySrc := editOverlay ctx sid |});
                ret (ResultOutput
                  (js "Opened mask editor. Paint the area to edit and click Generate."))
            | _, _, _ =>
                ret (ResultError (js "Could not locate image asset or bounds."))
            end
        end
  | None => ret (ResultError noImageSelected)
  end.

Definition promptExtras (args : FnArgs) : list jsstring :=
  (match arg_variationStrength args with
   | Some v => [js "Variation strength: " ++ numberToString E v ++ js "."]
   | None => []
   end)
  ++ (if truthyOpt (arg_stylePreset args)
      then [js "Style: " ++ showText (arg_stylePreset args) ++ js "."] else [])
  ++ (if truthyOpt (arg_negativePrompt args)
      then [js "Avoid: " ++ showText (arg_negativePrompt args) ++ js "."] else [])
  ++ (match arg_seed args with
      | Some v => [js "Seed: " ++ numberToString E v ++ js "."]
      | None => []
      end).

Definition toolGenerateImage (args : FnArgs) : Run World ToolResult :=
  (* Weave advanced options into prompt *)
  let extras := promptExtras args in
  let prompt :=
    match extras with
    | [] => arg_prompt args
    | _ => Some (showText (arg_prompt args) ++ [10%N] ++ joinWith (js " ") extras)
    end in
  do n <- liftSys (gets shapeIds);
  exec liftSys (modify (withShapeIds S));
  let textShapeId := createShapeId E n in
  exec liftSys (modify (withCanvas (createShape textShapeId
         {| shapeType := js "text"; shapeAssetId := None;
            shapeText := prompt; shapeBounds := None |})));
  exec liftSys (modify (withCanvas (placeNewShape E textShapeId)));
  exec liftSys (modify (withCanvas (select [textShapeId])));
  exec liftSys (flow (genImageClick E (nullish (arg_numberOfImages args) 1%Q)
                                    (nullish (arg_aspectRatio args) (js "16:9"))));
  exec liftSys (modify (withCanvas (deleteShapes [textShapeId])));
  ret (ResultOutput
         (js "Successfully generated "
          ++ numberToString E (nullish (arg_numberOfImages args) 1%Q)
          ++ generatedTail)).

Definition toolGenerateVideo (ctx : ToolContext) (args : FnArgs) : Run World ToolResult :=
  exec liftSys (flow (generateNewVideo E (arg_prompt args) (imageForToolContext ctx)
                                       (nullish (arg_aspectRatio args) (js "16:9"))));
  ret (ResultOutput (js "Successfully generated video.")).

Definition toolRemoveBackground (ctx : ToolContext) : Run World ToolResult :=
  match shapeIdForEditing ctx with
  | Some sid =>
      if negb (truthyStr sid) then ret (ResultError selectForBackground)
      else
        exec liftSys (runEditImage
          (js "Remove the background and make it transparent while preserving the main subject.")
          sid);
        ret (ResultOutput (js "Background removed."))
  | None => ret (ResultError selectForBackground)
  end.

Definition provideBaseOverlay : jsstring :=
  js "Provide base/overlay or select base and use an assistant image as overlay.".

(** [baseId] and [overlayId] of the applyOverlay branch. *)
Definition applyOverlayBaseId (ctx : ToolContext) (args : FnArgs) : option (list N) :=
  if negb (truthyOpt (arg_baseShapeId args)) then shapeIdForEditing ctx
  else arg_baseShapeId args.

Definition applyOverlayOverlayId (ctx : ToolContext) (args : FnArgs) : option (list N) :=
  match lastImage ctx with
  | Some l =>
      if negb (truthyOpt (arg_overlayShapeId args)) then Some (shapeId l)
      else arg_overlayShapeId args
  | None => arg_overlayShapeId args
  end.

Definition toolApplyOverlay (ctx : ToolContext) (args : FnArgs) : Run World ToolResult :=
  match applyOverlayBaseId ctx args, applyOverlayOverlayId ctx args with
  | Some b, Some o =>
      if negb (truthyStr b) || negb (truthyStr o)
      then ret (ResultError provideBaseOverlay)
      else
        exec liftSys (bakeOverlayBetweenShapes b o);
        ret (ResultOutput (js "Overlay applied (flattened)."))
  | _, _ => ret (ResultError provideBaseOverlay)
  end.

(** [baseId] and [overlayId] of the composeAI branch. *)
Definition composeBaseId (ctx : ToolContext) (args : FnArgs) : option (list N) :=
  orElse (arg_baseShapeId args) (shapeIdForEditing ctx).

Definition composeOverlayId (ctx : ToolContext) (args : FnArgs) : option (list N) :=
  orElse (arg_overlayShapeId args) (shapeId <$> lastImage ctx).

Definition white : Pixel := (255, 255, 255, 255)%N.

Definition toolComposeAI (ctx : ToolContext) (args : FnArgs) : Run World ToolResult :=
  match composeBaseId ctx args, composeOverlayId ctx args with
  | Some b, Some o =>
      if negb (truthyStr b) || negb (truthyStr o)
      then ret (ResultError provideBaseOverlay)
      else
        (* Export base & overlay, call editImage with full mask and overlay blob *)
        do c <- liftSys (gets canvas);
        match getShape b c, getShape o c with
        | Some baseShape, Some overlayShape =>
            do baseExport <- await (toImage E c [b] true);
            do overlayExport <- await (toImage E c [o] true);
            (* Make a full-white mask covering the whole base *)
            do forWidth <- await (createImageBitmap E baseExport);
            do forHeight <- await (createImageBitmap E baseExport);
            do moment <- liftSys (gets (fun s => length (log s)));
            if negb (getContext2d E moment)
            then throw (nullProperty "fillStyle")
            else
              let maskCanvas :=
                {| bmWidth := bmWidth forWidth; bmHeight := bmHeight forHeight;
                   bmPixel := fun _ _ => white |} in
              match toBlob E maskCanvas with
              | None => throw (newError (js "Could not create mask for composeAI"))
              | Some maskBlob =>
                  do newSrc <- liftSys (editImage baseExport maskBlob
                    (js "Integrate the overlay image into the base naturally. "
                     ++ showText (arg_prompt args))
                    (Some overlayExport));
                  exec handleSaveEditedImage (shapeAssetId baseShape) newSrc;
                  ret (ResultOutput (js "Overlay composed with AI."))
              end
        | _, _ => ret (ResultError (js "Either base or overlay is not an image."))
        end
  | _, _ => ret (ResultError provideBaseOverlay)
  end.

Definition toolUpscaleImage (ctx : ToolContext) (args : FnArgs) : Run World ToolResult :=
  match shapeIdForEditing ctx with
  | Some sid =>
      if negb (truthyStr sid) then ret (ResultError (js "Select an image to upscale."))
      else
        exec liftSys (runEditImage
          (js "Upscale by " ++ numberToString E (nullish (arg_factor args) 2%Q)
           ++ js "x while preserving details and sharpness.")
          sid);
        ret (ResultOutput (js "Image upscaled."))
  | None => ret (ResultError (js "Select an image to upscale."))
  end.

Definition toolPlan (args : FnArgs) : Run World ToolResult :=
  ret (ResultOutput
         (js "Plan acknowledged: "
          ++ joinWith (js " -> ") (nullish (arg_steps args) []))).

Definition isTool (fn : FunctionCall) (name : string) : bool :=
  bool_decide (fn_name fn = js name).

(** The [if / else if] chain inside the [try] of the loop. *)
Definition dispatchTool (ctx : ToolContext) (fn : FunctionCall) : Run World ToolResult :=
  if isTool fn "editImage" then toolEditImage ctx (fn_args fn)
  else if isTool fn "generateImage" then toolGenerateImage (fn_args fn)
  else if isTool fn "generateVideo" then toolGenerateVideo ctx (fn_args fn)
  else if isTool fn "removeBackground" then toolRemoveBackground ctx
  else if isTool fn "applyOverlay" then toolApplyOverlay ctx (fn_args fn)
  else if isTool fn "composeAI" then toolComposeAI ctx (fn_args fn)
  else if isTool fn "upscaleImage" then toolUpscaleImage ctx (fn_args fn)
  else if isTool fn "plan" then toolPlan (fn_args fn)
  else throw (newError (js "Unknown tool " ++ fn_name fn)).

(** The [try / catch] around the chain: an exception becomes an error
    result. *)
Definition executeTool (ctx : ToolContext) (fn : FunctionCall) : Run World ToolResult :=
  tryCatch (dispatchTool ctx fn)
    (fun e =>
       let msg := errorText e in
       if isNoImages msg
       then
         exec addToast {| toastTitle := js "Nenhuma imagem gerada";
                          toastDescription := Some noImagesToastDescription;
                          toastSeverity := js "info" |};
         ret (ResultError noImagesResult)
       else ret (ResultError msg)).

(** *** handleAssistantSubmit *)

(** [response.candidates[0].content.parts[0]], with the content it belongs
    to; a missing link of the chain is a [TypeError]. *)
Definition firstPart (response : Response) : Answer (Content * Part) :=
  match candidates response with
  | None => Rejects (undefinedProperty "0")
  | Some [] => Rejects (undefinedProperty "content")
  | Some (c :: _) =>
      match content c with
      | None => Rejects (undefinedProperty "parts")
      | Some ct =>
          match parts ct with
          | None => Rejects (undefinedProperty "0")
          | Some [] => Rejects (undefinedProperty "functionCall")
          | Some (p :: _) => Resolves (ct, p)
          end
      end
  end.

Definition send (c : Chat) (message : list Part) : Run World Response :=
  liftSys (call (EvSendMessage c message) (fun t => sendMessage E t c message)).

(** [ai.chats.create] *)
Definition createChat (c : Chat) : Run World Chat :=
  exec liftSys (emit (EvChatCreate c));
  ret c.

(** The [while] loop: as long as the first part of the response is a
    function call, run the tool and send its result to [chat]; [fuel] bounds
    the iterations.  The result is the response that ends the loop, with its
    content. *)
Fixpoint toolLoop (fuel : nat) (ctx : ToolContext) (response : Response)
  : Run World Content :=
  do first <- await (firstPart response);
  match first with
  | (_, FunctionCallPart fn) =>
      match fuel with
      | O => outOfFuel
      | S fuel' =>
          do result <- executeTool ctx fn;
          do response' <- send (chat ctx) [FunctionResponsePart (fn_name fn) result];
          toolLoop fuel' ctx response'
      end
  | (ct, _) => ret ct
  end.

Definition userPartsOf (prompt : jsstring) (image : option ChatImage) : list Part :=
  TextPart prompt ::
  match image with
  | Some i =>
      match matchDataUrl (src i) with
      | Some (mimeType, data) => [InlineDataPart mimeType data]
      | None => []
      end
  | None => []
  end.

Definition primaryChat : Chat :=
  {| chatModel := GEMINI_MODEL_NAME;
     chatTools := tools;
     chatSystemInstruction := primaryInstruction E |}.

Definition fallbackChat : Chat :=
  {| chatModel := js "gemini-2.5-flash";
     chatTools := tools;
     chatSystemInstruction := fallbackInstruction E |}.

Definition fallbackToast : Toast :=
  {| toastTitle := proUnavailable;
     toastDescription := Some (js "Alternando para modelo Flash para continuar.");
     toastSeverity := js "info" |}.

(** The first request of a submission, with its [catch]. *)
Definition firstResponse (chat : Chat) (userParts : list Part) : Run World Response :=
  tryCatch (send chat userParts)
    (fun err =>
       let msg := errorText err in
       if isTransient msg
       then
         exec addToast fallbackToast;
         do fb <- createChat fallbackChat;
         exec setChatSession (Some fb);
         send fb userParts
       else throw err).

Definition contextOf (rd : Render) (chat : Chat) (image : option ChatImage)
  : ToolContext :=
  {| chat := chat;
     imageForToolContext :=
       match image with
       | Some i => Some (src i)
       | None => src <$> lastAssistantImageInChat rd
       end;
     shapeIdForEditing :=
       match image with
       | Some i => Some (shapeId i)
       | None => shapeId <$> lastAssistantImageInChat rd
       end;
     lastImage := lastAssistantImageInChat rd |}.

Definition userTurn (userParts : list Part) : Content :=
  {| role := js "user"; parts := Some userParts |}.

Definition handleAssistantSubmit (rd : Render) (fuel : nat) (prompt : jsstring)
  (image : option ChatImage) : Run World unit :=
  exec (match image with
        | Some _ => setLastAssistantImageInChat image
        | None => ret tt
        end);
  do chat <- match chatSession rd with
             | Some c => ret c
             | None => createChat primaryChat
             end;
  exec (match chatSession rd with
        | Some _ => ret tt
        | None => setChatSession (Some chat)
        end);
  let userParts := userPartsOf prompt image in
  exec setChatHistory (fun prev => prev ++ [userTurn userParts]);
  do response <- firstResponse chat userParts;
  do final <- toolLoop fuel (contextOf rd chat image) response;
  setChatHistory (fun prev => prev ++ [final]).

End Program.

(** ** The contextual toolbar *)

Inductive Mode := create | assistant.

(** The [onClick] closures of the toolbar's buttons, by what they start. *)
Inductive Handler :=
| UseInChat
| EditSelected
| ComposeWithOverlay
| BakeSelected
| DescribeSelected
| GenerateVariants
| GenerateImage
| GenerateVideo.

Record Action := {
  label : jsstring;
  title : jsstring;
  icon : jsstring;
  onClick : Handler
}.

(** What the component returns: the empty fragment, nothing at all, or the
    toolbar with its buttons. *)
Inductive Rendered :=
| Fragment
| Nothing
| Toolbar (actions : list Action).

(** [editor.getSelectedShapes()] *)
Definition getSelectedShapes (c : Canvas) : list (list N * Shape) :=
  omap (fun id => (fun sh => (id, sh)) <$> shapes c !! id) (selection c).

(** [editor.isShapeOfType(shape, type)] *)
Definition isShapeOfType (shape : list N * Shape) (type : jsstring) : bool :=
  bool_decide (shapeType (snd shape) = type).

Definition useInChatAction : Action :=
  {| label := js "Use in Chat"; title := js "Use image in chat";
     icon := js "genai-use-in-chat"; onClick := UseInChat |}.

Definition editAction : Action :=
  {| label := js "Edit"; title := js "Edit selected image";
     icon := js "genai-edit-image"; onClick := EditSelected |}.

Definition composeAction : Action :=
  {| label := js "Compose (AI)"; title := js "Open mask editor with overlay";
     icon := js "genai-generate-image"; onClick := ComposeWithOverlay |}.

Definition bakeAction : Action :=
  {| label := js "Bake Overlay"; title := js "Flatten overlay into base image";
     icon := js "genai-edit-image"; onClick := BakeSelected |}.

Definition describeAction : Action :=
  {| label := js "Describe"; title := js "Describe image";
     icon := js "genai-describe-image"; onClick := DescribeSelected |}.

Definition variantsAction : Action :=
  {| label := js "Generate Variants"; title := js "Generate variants of image";
     icon := js "genai-generate-image"; onClick := GenerateVariants |}.

Definition imageFromTextAction : Action :=
  {| label := js "Generate image"; title := js "Generate image from text";
     icon := js "genai-generate-image"; onClick := GenerateImage |}.

Definition imageFromBothAction : Action :=
  {| label := js "Generate image"; title := js "Generate image from image and text";
     icon := js "genai-generate-image"; onClick := GenerateImage |}.

Definition videoAction : Action :=
  {| label := js "Generate video"; title := js "Generate video from text and/or image";
     icon := js "genai-generate-video"; onClick := GenerateVideo |}.

(** [showToolbar] is [editor.isIn('select.idle')]. *)
Definition ContextualToolbarComponent (mode : Mode) (showToolbar : bool) (c : Canvas)
  : Rendered :=
  if negb showToolbar then Fragment
  else
    let selected := getSelectedShapes c in
    let textShapes := List.filter (fun shape => isShapeOfType shape (js "text")) selected in
    let imageShapes := List.filter (fun shape => isShapeOfType shape (js "image")) selected in
    let otherShapes :=
      List.filter (fun shape => negb (isShapeOfType shape (js "image"))
                                && negb (isShapeOfType shape (js "text"))) selected in
    let hasImage := (0 <? length imageShapes)%nat in
    let hasText := (0 <? length textShapes)%nat in
    let hasOtherShapes := (0 <? length otherShapes)%nat in
    let singleImageSelected := (length imageShapes =? 1)%nat && negb hasText in
    if hasOtherShapes
       || ((length textShapes =? 0)%nat && (length imageShapes =? 0)%nat)
    then Nothing
    else
      let actions :=
        match mode with
        | assistant =>
            if singleImageSelected
            then [useInChatAction; editAction]
                 ++ (if (length imageShapes =? 2)%nat
                     then [composeAction; bakeAction] else [])
            else []
        | create =>
            (if singleImageSelected then [editAction] else [])
            ++ (if hasImage && negb hasText
                then [describeAction; variantsAction] else [])
            ++ (if hasText && negb hasImage then [imageFromTextAction] else [])
            ++ (if hasText && hasImage then [imageFromBothAction] else [])
            ++ (if hasText || hasImage then [videoAction] else [])
        end in
      Toolbar (if hasOtherShapes then [] else actions).

(** ** The transcript view *)

(** What a part of a message renders as: a [div] with the text or an [img]
    with a data URL; [None] is the [null] of the other parts. *)
Inductive Node :=
| TextNode (text : jsstring)
| ImageNode (url : jsstring).

Record MessageView := {
  className : jsstring;
  children : list (option Node)
}.

Definition renderPart (part : Part) : option Node :=
  match part with
  | TextPart text => if truthyStr text then Some (TextNode text) else None
  | InlineDataPart mimeType data =>
      Some (ImageNode (js "data:" ++ mimeType ++ js ";base64," ++ data))
  | _ => None
  end.

Definition renderItem (item : Content) : Answer MessageView :=
  match parts item with
  | Some ps =>
      Resolves {| className := js "chat-message " ++ role item;
                  children := renderPart <$> ps |}
  | None => Rejects (undefinedProperty "map")
  end.

Fixpoint renderItems (history : list Content) : Answer (list MessageView) :=
  match history with
  | [] => Resolves []
  | item :: rest =>
      match renderItem item with
      | Resolves v =>
          match renderItems rest with
          | Resolves vs => Resolves (v :: vs)
          | Rejects e => Rejects e
          end
      | Rejects e => Rejects e
      end
  end.

(** [None] is the [null] of an empty history. *)
Definition ChatHistoryUI (history : list Content) : Answer (option (list MessageView)) :=
  if (length history =? 0)%nat then Resolves None
  else
    match renderItems history with
    | Resolves vs => Resolves (Some vs)
    | Rejects e => Rejects e
    end.

(** ** The state the [Ui] component starts with *)

(** [useState({ text2img: false, img2img: false, inpaint: false, video: false })] *)
Definition falCfg : FalFallbackConfig :=
  {| text2img := false; img2img := false; inpaint := false; video := false |}.

(** The two effects of the first render: the flags go to the module and
    the notification hook is registered. *)
Definition mountEffects (s : Sys) : Sys :=
  setNotifyFallback true (setFalFallbackConfig falCfg s).

(** ** The prompt bar ([Components/PromptBar.tsx]) *)

Module PromptBar.

(** The [selectedAction] of the bar. *)
Inductive MediaAction := image | video.

(** A file is what [FileReader.readAsDataURL] makes of it. *)
Record File := { readAsDataURL : Answer jsstring }.

Record Options := { numberOfImages : Q; aspectRatio : jsstring }.

(** The state of the bar, as its setters leave it. *)
Record BarState := {
  storedPrompt : jsstring;
  storedImageFile : option File;
  storedIsGenerating : bool
}.

(** The page: the [Ui] component with its [assistantImage], and the bar. *)
Record Page := {
  world : World;
  storedAssistantImage : option ChatImage;
  bar : BarState
}.

(** What the closure of one render of the bar holds. *)
Record BarRender := {
  mode : Mode;
  prompt : jsstring;
  imageFile : option File;
  isGenerating : bool;
  selectedAction : MediaAction;
  options : Options;
  assistantImage : option ChatImage
}.

Definition liftWorld {A} (m : Run World A) : Run Page A :=
  fun pg =>
    match m (world pg) with
    | (r, w') =>
        (r, {| world := w'; storedAssistantImage := storedAssistantImage pg;
               bar := bar pg |})
    end.

Definition withBar (f : BarState -> BarState) : Run Page unit :=
  modify (fun pg =>
    {| world := world pg; storedAssistantImage := storedAssistantImage pg;
       bar := f (bar pg) |}).

Definition setIsGenerating (b : bool) : Run Page unit :=
  withBar (fun st =>
    {| storedPrompt := storedPrompt st; storedImageFile := storedImageFile st;
       storedIsGenerating := b |}).

Definition setPrompt (p : jsstring) : Run Page unit :=
  withBar (fun st =>
    {| storedPrompt := p; storedImageFile := storedImageFile st;
       storedIsGenerating := storedIsGenerating st |}).

Definition setImageFile (f : option File) : Run Page unit :=
  withBar (fun st =>
    {| storedPrompt := storedPrompt st; storedImageFile := f;
       storedIsGenerating := storedIsGenerating st |}).

Definition setAssistantImage (i : option ChatImage) : Run Page unit :=
  modify (fun pg =>
    {| world := world pg; storedAssistantImage := i; bar := bar pg |}).

(** [fileToBase64] *)
Definition fileToBase64 (file : File) : Run Page jsstring := await (readAsDataURL file).

(** [handleRun], with the props [onSubmit], [onAssistantSubmit] and
    [onClearAssistantImage] of the bar.  Emptying the file input and moving
    the focus touch the DOM only and are left out. *)
Definition handleRun
  (onSubmit : jsstring -> option jsstring -> MediaAction -> Options -> Run Page unit)
  (onAssistantSubmit : jsstring -> option ChatImage -> Run Page unit)
  (onClearAssistantImage : Run Page unit)
  (b : BarRender) : Run Page unit :=
  let attached :=
    match mode b with
    | create => match imageFile b with Some _ => true | None => false end
    | assistant => match assistantImage b with Some _ => true | None => false end
    end in
  if (negb (truthyStr (prompt b)) && negb attached) || isGenerating b then ret tt
  else
    exec setIsGenerating true;
    exec (match mode b with
          | assistant => onAssistantSubmit (prompt b) (assistantImage b)
          | create =>
              do img <- match imageFile b with
                        | Some file =>
                            do data <- fileToBase64 file;
                            ret (Some data)
                        | None => ret None
                        end;
              onSubmit (prompt b) img (selectedAction b) (options b)
          end);
    exec setIsGenerating false;
    exec setPrompt [];
    match mode b with
    | assistant => onClearAssistantImage
    | create => setImageFile None
    end.

End PromptBar.

(** The bar as the [Ui] component wires it: [onAssistantSubmit] is
    [handleAssistantSubmit], [onClearAssistantImage] is
    [() => setAssistantImage(null)]. *)
Definition assistantBar (E : Env) (rd : Render) (fuel : nat)
  (onSubmit : jsstring -> option jsstring -> PromptBar.MediaAction ->
              PromptBar.Options -> Run PromptBar.Page unit)
  (b : PromptBar.BarRender) : Run PromptBar.Page unit :=
  PromptBar.handleRun onSubmit
    (fun prompt image => PromptBar.liftWorld (handleAssistantSubmit E rd fuel prompt image))
    (PromptBar.setAssistantImage None)
    b.

(** * Observations

    What the properties below speak of, read off the answers of the outside
    and off the log. *)

(** The state with more events logged. *)
Definition logged (evs : list Event) (s : Sys) : Sys :=
  withLog (fun l => l ++ evs) s.

Definition isFalEvent (ev : Event) : bool :=
  match ev with
  | EvFalSubscribe _ _ | EvNotifyFallback _ => true
  | _ => false
  end.

(** The primary attempt produced no video: it threw, or it left the [try]
    block without a [return]. *)
Definition primaryFailed (o : Outcome (option (list jsstring))) : bool :=
  match o with
  | Throw _ | Ret None => true
  | _ => false
  end.

Definition isThrow {A} (o : Outcome A) : bool :=
  match o with
  | Throw _ => true
  | _ => false
  end.

Definition is_Some_b {A} (o : option A) : bool :=
  match o with
  | Some _ => true
  | None => false
  end.

Definition notFal (ev : Event) : bool := negb (isFalEvent ev).

(** A computation that changes the state by logging events only, each of
    them satisfying [P]. *)
Definition onlyLogs {A} (P : Event -> bool) (m : Run Sys A) : Prop :=
  forall s, exists evs, final (m s) = logged evs s /\ forallb P evs = true.

#[global] Instance Thrown_eq_dec : EqDecision Thrown.
Proof. solve_decision. Defined.






(** A computation on the module state that leaves the logged events in
    place and may add more. *)
Definition grows {A} (m : Run Sys A) : Prop :=
  forall s, exists evs, log (final (m s)) = log s ++ evs.

(** A computation of the component that leaves the transcript alone and the
    logged events in place. *)
Definition keeps {A} (m : Run World A) : Prop :=
  forall w,
    chatHistory (react (final (m w))) = chatHistory (react w)
    /\ exists evs, log (sys (final (m w))) = log (sys w) ++ evs.



(** The tools that work on a base image. *)
Definition needsBaseImage (name : jsstring) : bool :=
  bool_decide (name ∈ [ js "editImage"; js "removeBackground"; js "upscaleImage";
                        js "applyOverlay"; js "composeAI" ]).

Section Observations.

Variable E : Env.

(** The request made at moment [t] is answered without an image. *)
Definition noImageAt (t : nat) (req : GenerateContentRequest) : bool :=
  match generateContent E t req with
  | Resolves res =>
      match inlineDataOf res with
      | None => true
      | Some _ => false
      end
  | Rejects _ => false
  end.

(** A round of [n] requests starting at moment [t] yields no image. *)
Fixpoint emptyRound (t : nat) (req : GenerateContentRequest) (n : nat) : bool :=
  match n with
  | O => true
  | S k => noImageAt t req && emptyRound (S t) req k
  end.

(** The moment of the first request of a submission: after the events
    logged so far and the creation of the chat, when the render has none. *)
Definition requestMoment (rd : Render) (w : World) : nat :=
  match chatSession rd with
  | Some _ => length (log (sys w))
  | None => S (length (log (sys w)))
  end.

Definition chatOf (rd : Render) : Chat :=
  match chatSession rd with
  | Some c => c
  | None => primaryChat E
  end.

(** The component when the first request of a submission is about to be
    sent: the chat is open, the attached image is remembered and the user
    turn is in the transcript. *)
Definition startWorld (rd : Render) (image : option ChatImage)
  (userParts : list Part) (w : World) : World :=
  {| sys := match chatSession rd with
            | Some _ => sys w
            | None => logged [EvChatCreate (primaryChat E)] (sys w)
            end;
     react :=
       {| chatHistory := chatHistory (react w) ++ [userTurn userParts];
          storedChatSession :=
            match chatSession rd with
            | Some _ => storedChatSession (react w)
            | None => Some (primaryChat E)
            end;
          storedLastAssistantImageInChat :=
            match image with
            | Some _ => image
            | None => storedLastAssistantImageInChat (react w)
            end;
          editingImage := editingImage (react w) |} |}.

(** The model request of a submission fails: the primary request is
    rejected with an error outside the transient class, or with one of that
    class and the request to the fallback chat, three events later, is
    rejected too. *)
Definition requestFails (t : nat) (c : Chat) (userParts : list Part) : option Thrown :=
  match sendMessage E t c userParts with
  | Resolves _ => None
  | Rejects err =>
      if isTransient (errorText err)
      then match sendMessage E (t + 3) (fallbackChat E) userParts with
           | Resolves _ => None
           | Rejects err' => Some err'
           end
      else Some err
  end.

End Observations.

(** * Example environments and states *)

Definition emptyCanvas : Canvas := {| shapes := ∅; assets := ∅; selection := [] |}.

Definition noResponse : Response := {| candidates := None |}.

Definition bytesOf (b : Blob) : jsstring := blobBytes b.

(** An environment given by its answers; the rest is fixed: no placeholder
    shapes, every number rendered as [n], an opaque compositor. *)
Definition envOf (falKey : option jsstring)
  (content : nat -> GenerateContentRequest -> Answer Response)
  (videos : nat -> VideoRequest -> Answer Operation)
  (message : nat -> Chat -> list Part -> Answer Response)
  (fal : nat -> jsstring -> FalInput -> Answer (option FalResult))
  (image : Canvas -> list (list N) -> bool -> Answer Blob)
  (context2d : nat -> bool) : Env :=
  {| API_KEY := js "key";
     FAL_KEY := falKey;
     bloblToBase64 := bytesOf;
     getImageSize := fun _ => Resolves (1%Q, 1%Q);
     addPlaceholder := fun _ c => ([], c);
     placeNewShape := fun _ c => c;
     numberToString := fun _ => js "n";
     decodeURIComponent := fun u => Resolves u;
     generateContent := content;
     generateVideos := videos;
     getVideosOperation := fun _ op => Resolves op;
     sendMessage := message;
     primaryInstruction := js "You are a helpful canvas assistant with tool access.";
     fallbackInstruction := js "You are a helpful canvas assistant with tool access.";
     falSubscribe := fal;
     fetchBlob := fun _ u => Resolves {| blobBytes := u |};
     createShapeId := fun n => js "shape:" ++ [N.of_nat n];
     toImage := image;
     createImageBitmap := fun b =>
       Resolves {| bmWidth := 2; bmHeight := 2;
                   bmPixel := fun _ _ => (N.of_nat (length (blobBytes b)), 0, 0, 255)%N |};
     getContext2d := context2d;
     sourceOver := fun p _ => p;
     toBlob := fun bm => Some {| blobBytes := [N.of_nat (Z.to_nat (bmWidth bm))] |};
     genImageClick := fun _ _ s => (Ret tt, canvas s, []);
     generateNewVideo := fun _ _ _ s => (Ret tt, canvas s, []) |}.

Definition unavailable : Thrown := newError (js "503 Service Unavailable").

Definition internalError : Thrown :=
  ErrorObj (js "ApiError") (js "got status: INTERNAL").

Definition noContent : nat -> GenerateContentRequest -> Answer Response :=
  fun _ _ => Resolves noResponse.

Definition noVideos : nat -> VideoRequest -> Answer Operation :=
  fun _ _ => Rejects unavailable.

Definition noMessage : nat -> Chat -> list Part -> Answer Response :=
  fun _ _ _ => Rejects unavailable.

Definition noFal : nat -> jsstring -> FalInput -> Answer (option FalResult) :=
  fun _ _ _ => Rejects unavailable.

Definition noExport : Canvas -> list (list N) -> bool -> Answer Blob :=
  fun _ _ _ => Rejects unavailable.

Definition flagsOff : FalFallbackConfig :=
  {| text2img := false; img2img := false; inpaint := false; video := false |}.

Definition flagsOn : FalFallbackConfig :=
  {| text2img := true; img2img := true; inpaint := true; video := true |}.

Definition sysOf (c : Canvas) (cfg : FalFallbackConfig) : Sys :=
  {| canvas := c; falFallbackConfig := cfg; notifyFallback := true;
     shapeIds := 0; log := [] |}.

(** The image model answers every request without an image. *)
Definition silentImageEnv : Env :=
  envOf None noContent noVideos noMessage noFal noExport (fun _ => true).

(** Veo completes at once, with one video filtered for one reason; FAL is
    configured and answers with one video. *)
Definition filteredResponse : VideosResponse :=
  {| raiMediaFilteredCount := Some 1;
     raiMediaFilteredReasons := Some [js "Unsafe content"];
     generatedVideos := None |}.

Definition filteredOperation : Operation :=
  {| opName := js "operations/1"; done := true; response := Some filteredResponse |}.

Definition falOneVideo : option FalResult :=
  Some {| fr_videos := Some [Some {| url := Some (js "https://fal.media/v.mp4") |}];
          fr_data_videos := None; fr_output_videos := None;
          fr_video := None; fr_data_video := None; fr_output_video := None |}.

Definition filteredEnv : Env :=
  envOf (Some (js "id:secret")) noContent
    (fun _ _ => Resolves filteredOperation) noMessage
    (fun _ _ _ => Resolves falOneVideo) noExport (fun _ => true).

(** Veo is unreachable and no FAL key is configured. *)
Definition veoDownEnv : Env :=
  envOf None noContent noVideos noMessage noFal noExport (fun _ => true).

Definition emptyReact : ReactState :=
  {| chatHistory := []; storedChatSession := None;
     storedLastAssistantImageInChat := None; editingImage := None |}.

Definition worldAt (c : Canvas) (cfg : FalFallbackConfig) : World :=
  {| sys := sysOf c cfg; react := emptyReact |}.

Definition firstRender : Render :=
  {| chatSession := None; lastAssistantImageInChat := None |}.

Definition modelSays (ps : list Part) : Response :=
  {| candidates :=
       Some [ {| content := Some {| role := js "model"; parts := Some ps |} |} ] |}.

(** The Pro model answers [INTERNAL]; the Flash model answers with text. *)
Definition proDownEnv : Env :=
  envOf None noContent noVideos
    (fun _ c _ =>
       if bool_decide (chatModel c = GEMINI_MODEL_NAME)
       then Rejects internalError
       else Resolves (modelSays [TextPart (js "Done.")]))
    noFal noExport (fun _ => true).

(** No model can be reached: every request is rejected with a 503. *)
Definition offlineEnv : Env :=
  envOf None noContent noVideos noMessage noFal noExport (fun _ => true).

(** The model answers with a sentence followed by a function call. *)
Definition planCall : FunctionCall := {| fn_name := js "plan"; fn_args := noArgs |}.


(** A document with a banner and a logo on it, both image shapes with image
    assets. *)
Definition imageShapeAt (asset : string) (left top width height : Q) : Shape :=
  {| shapeType := js "image"; shapeAssetId := Some (js asset); shapeText := None;
     shapeBounds := Some {| boxLeft := left; boxTop := top;
                            boxWidth := width; boxHeight := height |} |}.

Definition pngAsset (name : string) (w h : Q) : Asset :=
  imageAsset (js "data:image/png;base64,AAAA") w h (js name) (js "image/png").

Definition bannerAndLogo : Canvas :=
  {| shapes := <[js "shape:banner" := imageShapeAt "asset:banner" 0 0 4 2]>
               (<[js "shape:logo" := imageShapeAt "asset:logo" 1 1 2 1]> ∅);
     assets := <[js "asset:banner" := pngAsset "banner.png" 4 2]>
               (<[js "asset:logo" := pngAsset "logo.png" 2 1]> ∅);
     selection := [] |}.

Definition exportAll : Canvas -> list (list N) -> bool -> Answer Blob :=
  fun _ ids _ => Resolves {| blobBytes := concat ids |}.

(** The page exports and decodes images and gives a 2D context. *)
Definition studioEnv : Env :=
  envOf None noContent noVideos noMessage noFal exportAll (fun _ => true).


Definition bannerInChat : ChatImage :=
  {| src := js "data:image/png;base64,AAAA"; shapeId := js "shape:banner" |}.

Definition laterRender : Render :=
  {| chatSession := None; lastAssistantImageInChat := Some bannerInChat |}.


(** * More observations *)

Definition isDataUrl (u : jsstring) : bool := startsWith (js "data:") u.

(** A computation of the component that leaves one reading of the React
    state as it was. *)
Definition leaves {X A} (f : ReactState -> X) (m : Run World A) : Prop :=
  forall w, f (react (final (m w))) = f (react w).

Section MoreObservations.

Variable E : Env.

(** The image the request made at moment [t] is answered with, if any. *)
Definition imageAt (t : nat) (req : GenerateContentRequest) : list jsstring :=
  match generateContent E t req with
  | Resolves res =>
      match inlineDataOf res with
      | Some (m, d) => [dataUrl m d]
      | None => []
      end
  | Rejects _ => []
  end.

Definition answeredAt (t : nat) (req : GenerateContentRequest) : bool :=
  match generateContent E t req with
  | Resolves _ => true
  | Rejects _ => false
  end.

(** The [n] requests from moment [t] on are all answered; the images of
    their answers, in order. *)
Fixpoint roundAnswered (t : nat) (req : GenerateContentRequest) (n : nat) : bool :=
  match n with
  | O => true
  | S k => answeredAt t req && roundAnswered (S t) req k
  end.

Fixpoint roundImages (t : nat) (req : GenerateContentRequest) (n : nat) : list jsstring :=
  match n with
  | O => []
  | S k => imageAt t req ++ roundImages (S t) req k
  end.

End MoreObservations.

(** The shape exists and names an asset: what [runEditImage] asks of its
    target. *)
Definition validTarget (c : Canvas) (id : list N) : bool :=
  match shapes c !! id with
  | Some sh => truthyOpt (shapeAssetId sh)
  | None => false
  end.

Definition everyEvent (ev : Event) : bool := true.

Definition toolNames : list jsstring := fd_name <$> toolDeclarations.

(** Free of line terminators; free of semicolons. *)
Definition oneLine (s : jsstring) : bool := forallb (fun c => negb (isLineTerminator c)) s.

Definition noSemicolon (s : jsstring) : bool := forallb (fun c => negb (c =? 59)%N) s.

(** A computation that does not run out of fuel, whatever the state. *)
Definition halts {S A} (m : Run S A) : Prop :=
  forall s, outcome (m s) <> OutOfFuel.

Definition failedToUpdate : Toast :=
  {| toastTitle := js "Failed to update image"; toastDescription := None;
     toastSeverity := js "error" |}.

(** The toast of the tool loop for a failure that reads like the no-images
    error. *)
Definition noImagesToast : Toast :=
  {| toastTitle := js "Nenhuma imagem gerada";
     toastDescription := Some noImagesToastDescription;
     toastSeverity := js "info" |}.

(** The world with a toast shown. *)
Definition toasted (t : Toast) (w : World) : World :=
  {| sys := logged [EvToast t] (sys w); react := react w |}.

(** What the downloads of the fallback add to the list when the first of
    them is made at moment [t]: for each URL in order, the video of its
    download, or nothing when the download fails. *)
Fixpoint downloads (E : Env) (t : nat) (urls : list jsstring) : list jsstring :=
  match urls with
  | [] => []
  | u :: rest =>
      match fetchBlob E t u with
      | Resolves blob => [bloblToBase64 E blob]
      | Rejects _ => []
      end ++ downloads E (S t) rest
  end.

Definition falVideoInput (prompt ratio : jsstring) (imageDataUrl : option jsstring)
  : FalInput :=
  {| fi_prompt := prompt; fi_aspect_ratio := ratio; fi_image_url := imageDataUrl |}.

Section MoreObservations2.

Variable E : Env.

(** The first request of a submission, made at moment [t], is rejected with
    an error of the transient class: the submission falls back to Flash. *)
Definition fellBack (t : nat) (c : Chat) (userParts : list Part) : bool :=
  match sendMessage E t c userParts with
  | Resolves _ => false
  | Rejects err => isTransient (errorText err)
  end.

End MoreObservations2.

(** A computation on the module state that leaves the logged events in
    place and adds only chat messages that [allowed] admits. *)
Definition emits {A} (allowed : Chat -> list Part -> Prop) (m : Run Sys A) : Prop :=
  forall s, exists evs,
    log (final (m s)) = log s ++ evs
    /\ forall c message, In (EvSendMessage c message) evs -> allowed c message.

(** The same for a computation of the component. *)
Definition posts {A} (allowed : Chat -> list Part -> Prop) (m : Run World A) : Prop :=
  forall w, exists evs,
    log (sys (final (m w))) = log (sys w) ++ evs
    /\ forall c message, In (EvSendMessage c message) evs -> allowed c message.

(** The flows of the Create mode send no chat message. *)
Definition quietFlows (E : Env) : Prop :=
  (forall n prompt s c message,
     ~ In (EvSendMessage c message) (snd (genImageClick E n prompt s)))
  /\ (forall prompt image ratio s c message,
        ~ In (EvSendMessage c message) (snd (generateNewVideo E prompt image ratio s))).

(** The messages of a submission: the user's parts, to the chat of the
    render or to the Flash chat, and function responses, to the chat of the
    render. *)
Definition submissionMessage (E : Env) (rd : Render) (userParts : list Part)
  (c : Chat) (message : list Part) : Prop :=
  (message = userParts /\ (c = chatOf E rd \/ c = fallbackChat E))
  \/ (c = chatOf E rd
      /\ exists name result, message = [FunctionResponsePart name result]).

(** * More example environments *)

(** The image model answers every request with the same small picture. *)
Definition pictureResponse : Response :=
  modelSays [InlineDataPart (js "image/png") (js "AAAA")].

Definition painterEnv : Env :=
  envOf None (fun _ _ => Resolves pictureResponse) noVideos noMessage noFal exportAll
    (fun _ => true).

(** An environment whose [addPlaceholder] puts one shape on the page. *)
Definition placeholderShape : Shape :=
  {| shapeType := js "geo"; shapeAssetId := None; shapeText := None;
     shapeBounds := None |}.

Definition withPlaceholder (E : Env) : Env :=
  {| API_KEY := API_KEY E;
     FAL_KEY := FAL_KEY E;
     bloblToBase64 := bloblToBase64 E;
     getImageSize := getImageSize E;
     addPlaceholder := fun _ c =>
       ([js "shape:placeholder"], createShape (js "shape:placeholder") placeholderShape c);
     placeNewShape := placeNewShape E;
     numberToString := numberToString E;
     decodeURIComponent := decodeURIComponent E;
     generateContent := generateContent E;
     generateVideos := generateVideos E;
     getVideosOperation := getVideosOperation E;
     sendMessage := sendMessage E;
     primaryInstruction := primaryInstruction E;
     fallbackInstruction := fallbackInstruction E;
     falSubscribe := falSubscribe E;
     fetchBlob := fetchBlob E;
     createShapeId := createShapeId E;
     toImage := toImage E;
     createImageBitmap := createImageBitmap E;
     getContext2d := getContext2d E;
     sourceOver := sourceOver E;
     toBlob := toBlob E;
     genImageClick := genImageClick E;
     generateNewVideo := generateNewVideo E |}.

(** An environment with other answers to [fetch]. *)
Definition withFetch (fetch : nat -> jsstring -> Answer Blob) (E : Env) : Env :=
  {| API_KEY := API_KEY E;
     FAL_KEY := FAL_KEY E;
     bloblToBase64 := bloblToBase64 E;
     getImageSize := getImageSize E;
     addPlaceholder := addPlaceholder E;
     placeNewShape := placeNewShape E;
     numberToString := numberToString E;
     decodeURIComponent := decodeURIComponent E;
     generateContent := generateContent E;
     generateVideos := generateVideos E;
     getVideosOperation := getVideosOperation E;
     sendMessage := sendMessage E;
     primaryInstruction := primaryInstruction E;
     fallbackInstruction := fallbackInstruction E;
     falSubscribe := falSubscribe E;
     fetchBlob := fetch;
     createShapeId := createShapeId E;
     toImage := toImage E;
     createImageBitmap := createImageBitmap E;
     getContext2d := getContext2d E;
     sourceOver := sourceOver E;
     toBlob := toBlob E;
     genImageClick := genImageClick E;
     generateNewVideo := generateNewVideo E |}.

(** The second download fails, the others give the URL back as the video. *)
Definition flakyEnv : Env :=
  withFetch (fun t u => if (t =? 1)%nat then Rejects unavailable
                        else Resolves {| blobBytes := u |})
    filteredEnv.

(** The page exports images, the image model answers without an image. *)
Definition silentStudioEnv : Env :=
  withPlaceholder
    (envOf None noContent noVideos noMessage noFal exportAll (fun _ => true)).

(** Veo completes at once with one video. *)
Definition oneVideoOperation : Operation :=
  {| opName := js "operations/2"; done := true;
     response :=
       Some {| raiMediaFilteredCount := None; raiMediaFilteredReasons := None;
               generatedVideos := Some [ {| videoUri := js "https://veo/v.mp4?x=1" |} ] |} |}.

Definition veoEnv : Env :=
  envOf (Some (js "id:secret")) noContent (fun _ _ => Resolves oneVideoOperation)
    noMessage (fun _ _ _ => Resolves falOneVideo) noExport (fun _ => true).

(** The Pro model is down; the Flash model asks for a plan, then answers. *)
Definition flashPlansEnv : Env :=
  envOf None noContent noVideos
    (fun _ c message =>
       if bool_decide (chatModel c = GEMINI_MODEL_NAME)
       then match message with
            | FunctionResponsePart _ _ :: _ => Resolves (modelSays [TextPart (js "Done.")])
            | _ => Rejects internalError
            end
       else Resolves (modelSays [FunctionCallPart planCall]))
    noFal noExport (fun _ => true).

Definition unknownCall : FunctionCall := {| fn_name := js "erase"; fn_args := noArgs |}.

(** A call of an unknown tool whose name reads like the no-images error. *)
Definition misleadingCall : FunctionCall :=
  {| fn_name := js "Did Not Return Images"; fn_args := noArgs |}.

Definition bannerSelected : Canvas := select [js "shape:banner"] bannerAndLogo.

Definition typing : PromptBar.BarRender :=
  {| PromptBar.mode := assistant;
     PromptBar.prompt := js "draw a cat";
     PromptBar.imageFile := None;
     PromptBar.isGenerating := false;
     PromptBar.selectedAction := PromptBar.image;
     PromptBar.options := {| PromptBar.numberOfImages := 1;
                             PromptBar.aspectRatio := js "16:9" |};
     PromptBar.assistantImage := None |}.

Definition pageAt (w : World) : PromptBar.Page :=
  {| PromptBar.world := w; PromptBar.storedAssistantImage := None;
     PromptBar.bar := {| PromptBar.storedPrompt := js "draw a cat";
                         PromptBar.storedImageFile := None;
                         PromptBar.storedIsGenerating := false |} |}.

Definition noSubmit : jsstring -> option jsstring -> PromptBar.MediaAction ->
                      PromptBar.Options -> Run PromptBar.Page unit :=
  fun _ _ _ _ => ret tt.

(** A part that is not inline data. *)
Definition notInline (p : Part) : bool :=
  match p with
  | InlineDataPart _ _ => false
  | _ => true
  end.

(** The image model answers with a sentence, then the picture. *)
Definition captionedContent : Content :=
  {| role := js "model";
     parts := Some [TextPart (js "Here it is.");
                    InlineDataPart (js "image/webp") (js "BBBB");
                    InlineDataPart (js "image/png") (js "AAAA")] |}.

Definition captionedResponse : Response :=
  {| candidates := Some [ {| content := Some captionedContent |} ] |}.

Definition captionedEnv : Env :=
  envOf None (fun _ _ => Resolves captionedResponse)
    noVideos noMessage noFal exportAll (fun _ => true).

Definition removeBackgroundCall : FunctionCall :=
  {| fn_name := js "removeBackground"; fn_args := noArgs |}.
(** * Properties *)

Section Proofs.
Variable E : Env.

Lemma logged_nil s : logged [] s = s.
Proof. destruct s; unfold logged, withLog; simpl. by rewrite app_nil_r. Qed.

Lemma logged_logged a b s : logged b (logged a s) = logged (a ++ b) s.
Proof. destruct s; unfold logged, withLog; simpl. by rewrite app_assoc. Qed.

Lemma log_logged evs s : log (logged evs s) = log s ++ evs.
Proof. reflexivity. Qed.

Lemma call_resolves {A} ev (answer : nat -> Answer A) s a :
  answer (length (log s)) = Resolves a -> call ev answer s = (Ret a, logged [ev] s).
Proof. intros H. unfold call. by rewrite H. Qed.

Lemma call_rejects {A} ev (answer : nat -> Answer A) s e :
  answer (length (log s)) = Rejects e -> call ev answer s = (Throw e, logged [ev] s).
Proof. intros H. unfold call. by rewrite H. Qed.

Lemma imageLoop_empty n : forall req acc s,
  emptyRound E (length (log s)) req n = true ->
  imageLoop E n req acc s = (Ret acc, logged (repeat (EvGenerateContent req) n) s).
Proof.
  induction n as [|n IH]; intros req acc s H; simpl in *.
  - by rewrite logged_nil.
  - apply andb_prop in H as [H1 H2]. unfold noImageAt in H1.
    unfold bind.
    destruct (generateContent E (length (log s)) req) as [res|e] eqn:G; [|done].
    rewrite (call_resolves _ _ _ res G).
    destruct (inlineDataOf res) as [[m d]|] eqn:I; [done|].
    rewrite IH.
    + by rewrite logged_logged.
    + rewrite log_logged, length_app. simpl.
      by replace (length (log s) + 1)%nat with (S (length (log s))) by lia.
Qed.

Lemma imageLoop_log n : forall req acc s,
  exists k, (k <= n)%nat /\
    final (imageLoop E n req acc s) = logged (repeat (EvGenerateContent req) k) s.
Proof.
  induction n as [|n IH]; intros req acc s; simpl.
  - exists 0%nat. split; [lia|]. by rewrite logged_nil.
  - unfold bind, call.
    destruct (generateContent E (length (log s)) req) as [res|e].
    + match goal with |- context [imageLoop E n req ?a ?s'] =>
        destruct (IH req a s') as (k & Hk & Hl) end.
      exists (S k). split; [lia|]. rewrite Hl.
      fold (logged [EvGenerateContent req] s). by rewrite logged_logged.
    + exists 1%nat. split; [lia|]. reflexivity.
Qed.


Lemma trimEnd_keeps x c : isSpace c = false -> trimEnd (x ++ [c]) = x ++ [c].
Proof.
  intros Hc. unfold trimEnd. rewrite rev_app_distr. simpl. rewrite Hc.
  simpl. by rewrite rev_involutive.
Qed.

Lemma trimStart_blank (a b : jsstring) :
  forallb isSpace a = true -> trimStart (a ++ b) = trimStart b.
Proof.
  induction a as [|c a IH]; [done|]. simpl.
  intros [Hc Ha]%andb_prop. rewrite Hc. by apply IH.
Qed.

Lemma trimStart_written (a b : jsstring) :
  forallb isSpace a = false -> trimStart (a ++ b) = trimStart a ++ b.
Proof.
  induction a as [|c a IH]; [done|]. simpl.
  destruct (isSpace c); [exact IH|done].
Qed.

Lemma retryPromptOf_text prompt :
  retryPromptOf prompt
  = if forallb isSpace prompt then diversityHint
    else trimStart prompt ++ [10%N] ++ diversityHint.
Proof.
  unfold retryPromptOf, trim.
  assert (Hlast : diversityHint = removelast diversityHint ++ [46%N]) by reflexivity.
  destruct (forallb isSpace prompt) eqn:Hp.
  - rewrite (trimStart_blank prompt) by done.
    change (trimStart ([10%N] ++ diversityHint)) with diversityHint.
    rewrite Hlast at 1. rewrite trimEnd_keeps by reflexivity. by rewrite <- Hlast.
  - rewrite (trimStart_written prompt) by done.
    rewrite Hlast at 1. rewrite !app_assoc. rewrite trimEnd_keeps by reflexivity.
    by rewrite <- !app_assoc, <- Hlast.
Qed.

(** Whatever the answers, [generateImages] makes at most two rounds of
    requests. *)
Lemma generateImages_at_most_two_rounds prompt imageBlob numberOfImages ratio s :
  let n := iterationsOf numberOfImages in
  let first := imageRequest (imagePartOf E imageBlob) (TextPart prompt) in
  let retry := imageRequest (imagePartOf E imageBlob) (TextPart (retryPromptOf prompt)) in
  exists j k, (j <= n)%nat /\ (k <= n)%nat /\
    final (generateImages E prompt imageBlob numberOfImages ratio s)
    = logged (repeat (EvGenerateContent first) j
              ++ repeat (EvGenerateContent retry) k) s.
Proof.
  intros n first retry. unfold generateImages. fold n first retry.
  destruct (imageLoop_log n first [] s) as (j & Hj & Hl1).
  unfold bind at 1.
  destruct (imageLoop E n first [] s) as [[[|x l]|e|] s1] eqn:H1; simpl in Hl1;
    subst s1; try (exists j, 0%nat; simpl; rewrite app_nil_r; by repeat split; try lia).
  destruct (imageLoop_log n retry [] (logged (repeat (EvGenerateContent first) j) s))
    as (k & Hk & Hl2).
  exists j, k. split; [done|]. split; [done|].
  rewrite <- logged_logged, <- Hl2. unfold bind.
  by destruct (imageLoop E n retry [] _) as [[[|x l]|e|] s2].
Qed.

(** C2: when the first round of [generateImages] yields no image, the
    requests made are the first round followed by at most one more round,
    whose prompt is the original one augmented with the diversity hint (the
    prompt without the white space before it, a line feed, the hint; the
    hint alone when the prompt is blank), the reference image part being the
    same (present or absent); when that round yields no image either, the
    call throws the error [Gemini did not return images] after exactly two
    rounds. *)
Theorem generateImages_retries_once_then_fails
  (prompt : jsstring) (imageBlob : option Blob) (numberOfImages : Q)
  (aspectRatio : jsstring) (s : Sys) :
  let n := iterationsOf numberOfImages in
  let first := imageRequest (imagePartOf E imageBlob) (TextPart prompt) in
  let retry := imageRequest (imagePartOf E imageBlob) (TextPart (retryPromptOf prompt)) in
  emptyRound E (length (log s)) first n = true ->
  gc_parts retry
  = match imagePartOf E imageBlob with
    | Some imagePart => [imagePart]
    | None => []
    end
    ++ [TextPart (if forallb isSpace prompt then diversityHint
                  else trimStart prompt ++ [10%N] ++ diversityHint)]
  /\ (exists k, (k <= n)%nat /\
        final (generateImages E prompt imageBlob numberOfImages aspectRatio s)
        = logged (repeat (EvGenerateContent first) n
                  ++ repeat (EvGenerateContent retry) k) s)
  /\ (emptyRound E (length (log s) + n) retry n = true ->
        generateImages E prompt imageBlob numberOfImages aspectRatio s
        = (Throw noImagesError,
           logged (repeat (EvGenerateContent first) n
                   ++ repeat (EvGenerateContent retry) n) s)).
Proof.
  intros n first retry H1.
  split.
  { subst retry. unfold imageRequest. cbn [gc_parts].
    rewrite retryPromptOf_text. by destruct (imagePartOf E imageBlob). }
  unfold generateImages. fold n first retry. unfold bind at 1 3.
  rewrite (imageLoop_empty n first [] s H1).
  split.
  - destruct (imageLoop_log n retry [] (logged (repeat (EvGenerateContent first) n) s))
      as (k & Hk & Hl).
    exists k. split; [done|]. rewrite <- logged_logged, <- Hl.
    unfold bind.
    destruct (imageLoop E n retry [] _) as [[[|x l]|e|] s']; reflexivity.
  - intros H2. unfold bind. rewrite imageLoop_empty.
    + by rewrite logged_logged.
    + by rewrite log_logged, length_app, repeat_length.
Qed.

(** C10: two calls of [generateImages] that differ in [aspectRatio] only
    make the same requests and end in the same outcome. *)
Theorem generateImages_ignores_aspectRatio
  (prompt : jsstring) (imageBlob : option Blob) (numberOfImages : Q)
  (ratio1 ratio2 : jsstring) (s : Sys) :
  generateImages E prompt imageBlob numberOfImages ratio1 s
  = generateImages E prompt imageBlob numberOfImages ratio2 s.
Proof. reflexivity. Qed.


(** ** Computations that only log *)

Lemma onlyLogs_ret {A} P (a : A) : onlyLogs P (ret a).
Proof. intros s. exists []. by rewrite logged_nil. Qed.

Lemma onlyLogs_throw {A} P e : onlyLogs P (@throw Sys A e).
Proof. intros s. exists []. by rewrite logged_nil. Qed.

Lemma onlyLogs_outOfFuel {A} P : onlyLogs P (@outOfFuel Sys A).
Proof. intros s. exists []. by rewrite logged_nil. Qed.

Lemma onlyLogs_gets {A} P (f : Sys -> A) : onlyLogs P (gets f).
Proof. intros s. exists []. by rewrite logged_nil. Qed.

Lemma onlyLogs_await {A} P (a : Answer A) : onlyLogs P (await a).
Proof. destruct a; [apply onlyLogs_ret | apply onlyLogs_throw]. Qed.

Lemma onlyLogs_emit P ev : P ev = true -> onlyLogs P (emit ev).
Proof. intros H s. exists [ev]. split; [done|]. simpl. by rewrite H. Qed.

Lemma onlyLogs_call {A} P ev (answer : nat -> Answer A) :
  P ev = true -> onlyLogs P (call ev answer).
Proof.
  intros H s. exists [ev]. split; [|simpl; by rewrite H].
  unfold call. by destruct (answer _).
Qed.

Lemma onlyLogs_bind {A B} P (m : Run Sys A) (k : A -> Run Sys B) :
  onlyLogs P m -> (forall a, onlyLogs P (k a)) -> onlyLogs P (bind m k).
Proof.
  intros Hm Hk s. unfold bind. destruct (Hm s) as (e1 & H1 & F1).
  destruct (m s) as [[a|e|] s1]; simpl in H1; subst s1; try by exists e1.
  destruct (Hk a (logged e1 s)) as (e2 & H2 & F2).
  exists (e1 ++ e2). rewrite H2, logged_logged, forallb_app, F1, F2. done.
Qed.

Lemma onlyLogs_tryCatch {A} P (m : Run Sys A) (h : Thrown -> Run Sys A) :
  onlyLogs P m -> (forall e, onlyLogs P (h e)) -> onlyLogs P (tryCatch m h).
Proof.
  intros Hm Hh s. unfold tryCatch. destruct (Hm s) as (e1 & H1 & F1).
  destruct (m s) as [[a|e|] s1]; simpl in H1; subst s1; try by exists e1.
  destruct (Hh e (logged e1 s)) as (e2 & H2 & F2).
  exists (e1 ++ e2). rewrite H2, logged_logged, forallb_app, F1, F2. done.
Qed.

Lemma onlyLogs_weaken {A} (P Q : Event -> bool) (m : Run Sys A) :
  (forall ev, P ev = true -> Q ev = true) -> onlyLogs P m -> onlyLogs Q m.
Proof.
  intros HPQ Hm s. destruct (Hm s) as (evs & H & F). exists evs. split; [done|].
  rewrite forallb_forall in *. auto.
Qed.

Create HintDb logs.

#[local] Hint Resolve onlyLogs_ret onlyLogs_throw onlyLogs_outOfFuel onlyLogs_gets
  onlyLogs_await onlyLogs_emit onlyLogs_call onlyLogs_bind onlyLogs_tryCatch : logs.

Lemma pollLoop_onlyLogs fuel : forall op, onlyLogs notFal (pollLoop E fuel op).
Proof.
  induction fuel as [|fuel IH]; intros op; simpl; destruct (done op);
    auto with logs.
Qed.

Lemma fetchGeneratedVideo_onlyLogs g : onlyLogs notFal (fetchGeneratedVideo E g).
Proof.
  unfold fetchGeneratedVideo. apply onlyLogs_bind; [auto with logs|]. intros u.
  apply onlyLogs_bind; [by apply onlyLogs_call|]. auto with logs.
Qed.

Lemma promiseAll_onlyLogs {A} P (ms : list (Run Sys A)) :
  Forall (onlyLogs P) ms -> onlyLogs P (promiseAll ms).
Proof.
  induction 1 as [|m ms Hm _ IH]; simpl; [apply onlyLogs_ret|].
  intros s. destruct (Hm s) as (e1 & H1 & F1).
  destruct (m s) as [[a|e|] s1]; simpl in H1; subst s1; try by exists e1.
  - destruct (IH (logged e1 s)) as (e2 & H2 & F2).
    exists (e1 ++ e2). rewrite <- logged_logged, <- H2, forallb_app, F1, F2.
    split; [|done]. by destruct (promiseAll ms (logged e1 s)) as [[l|e|] s2].
  - destruct (IH (logged e1 s)) as (e2 & H2 & F2).
    exists (e1 ++ e2). rewrite <- logged_logged, <- H2, forallb_app, F1, F2. done.
Qed.

Lemma veoOperation_onlyLogs fuel imageBlob prompt n ratio :
  onlyLogs notFal (veoOperation E fuel imageBlob prompt n ratio).
Proof.
  unfold veoOperation. apply onlyLogs_bind; [by apply onlyLogs_call|].
  apply pollLoop_onlyLogs.
Qed.

Lemma veoVideos_onlyLogs op : onlyLogs notFal (veoVideos E op).
Proof.
  unfold veoVideos. destruct (response op) as [r|]; [|auto with logs].
  apply onlyLogs_bind.
  - destruct (truthyCount _); [|auto with logs].
    destruct (raiMediaFilteredReasons r) as [[|reason rest]|]; auto with logs.
  - intros _. destruct (generatedVideos r) as [gvs|]; [|auto with logs].
    apply onlyLogs_bind; [|auto with logs].
    apply promiseAll_onlyLogs, Forall_fmap, Forall_forall.
    intros g _. apply fetchGeneratedVideo_onlyLogs.
Qed.

Lemma veoAttempt_onlyLogs fuel imageBlob prompt n ratio :
  onlyLogs notFal (veoAttempt E fuel imageBlob prompt n ratio).
Proof.
  unfold veoAttempt. apply onlyLogs_bind; [apply veoOperation_onlyLogs|].
  apply veoVideos_onlyLogs.
Qed.

(** C4 (what the code does): when the primary attempt produces no video and
    the fallback is switched off for video or no FAL key is configured,
    [generateVideo] does not fail: the [catch] of the primary attempt has
    swallowed the failure and the guard of the fallback returns the empty
    list; the FAL endpoint is not called and no fallback notification is
    sent.  The caller gets a result, not a failure. *)
Theorem generateVideo_without_fallback_returns_empty
  (fuel : nat) (imageBlob : option Blob) (prompt : jsstring)
  (numberOfVideos : Z) (aspectRatio : jsstring) (s : Sys) :
  primaryFailed (outcome (veoAttempt E fuel imageBlob prompt numberOfVideos aspectRatio s))
    = true ->
  truthyKey (FAL_KEY E) && video (falFallbackConfig s) = false ->
  exists evs,
    generateVideo E fuel imageBlob prompt numberOfVideos aspectRatio s
      = (Ret [], logged evs s)
    /\ forallb notFal evs = true.
Proof.
  intros Hfail Hoff.
  destruct (veoAttempt_onlyLogs fuel imageBlob prompt numberOfVideos aspectRatio s)
    as (evs & Hs & Hevs).
  exists evs. split; [|done].
  unfold generateVideo, bind at 1, tryCatch.
  destruct (veoAttempt E fuel imageBlob prompt numberOfVideos aspectRatio s)
    as [[[vs|]|e|] s1]; simpl in *; try discriminate; subst s1;
    unfold bind, gets; simpl; by rewrite Hoff.
Qed.


Lemma falVeo3Video_run prompt ratio imageDataUrl s :
  exists urls,
    falVeo3Video E prompt ratio imageDataUrl s
    = (Ret urls,
       logged [EvFalSubscribe (js "fal-ai/veo3")
                 {| fi_prompt := prompt; fi_aspect_ratio := ratio;
                    fi_image_url := imageDataUrl |}] s).
Proof.
  unfold falVeo3Video, tryCatch, bind, call.
  destruct (falSubscribe E _ _ _) as [result|e]; [|by eexists].
  destruct (falVideosOf result) as [|v vs]; [|by eexists].
  destruct (falSingleOf result) as [single|]; [|by eexists].
  destruct (truthyStr single); by eexists.
Qed.

Lemma fetchFallbackVideos_run urls : forall out s,
  exists out' evs, fetchFallbackVideos E urls out s = (Ret out', logged evs s).
Proof.
  induction urls as [|u urls IH]; intros out s; simpl.
  - exists out, []. by rewrite logged_nil.
  - unfold bind at 1, tryCatch, bind, call.
    destruct (fetchBlob E _ u) as [blob|e]; simpl;
      match goal with |- context [fetchFallbackVideos E urls ?o ?s'] =>
        destruct (IH o s') as (out' & evs & ->) end;
      exists out', ([EvFetch u] ++ evs); by rewrite <- logged_logged.
Qed.

Lemma notify_run msg s :
  notify msg s
  = (Ret tt, logged (if notifyFallback s then [EvNotifyFallback msg] else []) s).
Proof.
  unfold notify, bind, gets. destruct (notifyFallback s) eqn:H; simpl.
  - reflexivity.
  - by rewrite logged_nil.
Qed.

(** No failure of the primary provider, of the fallback or of a download
    reaches the caller of [generateVideo]. *)
Lemma generateVideo_never_throws fuel imageBlob prompt n ratio s :
  isThrow (outcome (generateVideo E fuel imageBlob prompt n ratio s)) = false.
Proof.
  unfold generateVideo, bind at 1, tryCatch.
  destruct (veoAttempt E fuel imageBlob prompt n ratio s) as [[[vs|]|e|] s1];
    try reflexivity;
    unfold ret at 1; unfold bind at 1, gets; simpl;
    destruct (negb _); try reflexivity;
    unfold bind at 1; rewrite notify_run; unfold bind at 1;
    match goal with |- context [falVeo3Video E prompt ratio ?u ?s0] =>
      destruct (falVeo3Video_run prompt ratio u s0) as (urls & ->) end;
    match goal with |- context [fetchFallbackVideos E ?us [] ?s0] =>
      destruct (fetchFallbackVideos_run us [] s0) as (out & evs2 & ->) end;
    reflexivity.
Qed.

(** C3 (what the code does): when the Veo operation completes with a filter
    count and a non-empty list of filter reasons, and the FAL fallback is
    available, [generateVideo] does not fail with the reason: the [catch] of
    the primary attempt swallows it, the FAL endpoint is called with the same
    prompt, and the call returns what the fallback produced. *)
Theorem generateVideo_filtered_reaches_fallback
  (fuel : nat) (imageBlob : option Blob) (prompt : jsstring)
  (numberOfVideos : Z) (aspectRatio : jsstring) (s s1 : Sys)
  (op : Operation) (r : VideosResponse) (reason : jsstring) (rest : list jsstring) :
  veoOperation E fuel imageBlob prompt numberOfVideos aspectRatio s = (Ret op, s1) ->
  response op = Some r ->
  truthyCount (raiMediaFilteredCount r) = true ->
  raiMediaFilteredReasons r = Some (reason :: rest) ->
  truthyKey (FAL_KEY E) = true ->
  video (falFallbackConfig s) = true ->
  veoAttempt E fuel imageBlob prompt numberOfVideos aspectRatio s
    = (Throw (newError reason), s1)
  /\ exists videos s',
       generateVideo E fuel imageBlob prompt numberOfVideos aspectRatio s
         = (Ret videos, s')
       /\ EvFalSubscribe (js "fal-ai/veo3")
            {| fi_prompt := prompt; fi_aspect_ratio := aspectRatio;
               fi_image_url :=
                 match imageBlob with
                 | Some b => Some (js "data:image/png;base64," ++ bloblToBase64 E b)
                 | None => None
                 end |} ∈ log s'.
Proof.
  intros Hop Hr Hcount Hreasons Hkey Hvideo.
  assert (Hattempt : veoAttempt E fuel imageBlob prompt numberOfVideos aspectRatio s
                     = (Throw (newError reason), s1)).
  { unfold veoAttempt, bind at 1. rewrite Hop. unfold veoVideos.
    rewrite Hr, Hcount, Hreasons. reflexivity. }
  split; [done|].
  destruct (veoOperation_onlyLogs fuel imageBlob prompt numberOfVideos aspectRatio s)
    as (evs & Hs1 & _).
  rewrite Hop in Hs1. simpl in Hs1. subst s1.
  unfold generateVideo, bind at 1, tryCatch. rewrite Hattempt.
  unfold ret at 1. unfold bind at 1, gets. simpl.
  rewrite Hkey, Hvideo. simpl.
  unfold bind at 1. rewrite notify_run.
  unfold bind at 1.
  match goal with |- context [falVeo3Video E prompt aspectRatio ?u ?s0] =>
    destruct (falVeo3Video_run prompt aspectRatio u s0) as (urls & ->) end.
  match goal with |- context [fetchFallbackVideos E urls [] ?s0] =>
    destruct (fetchFallbackVideos_run urls [] s0) as (out & evs2 & ->) end.
  exists out. eexists. split; [reflexivity|].
  rewrite !log_logged. set_solver.
Qed.


(** ** The overlay bake *)





(** ** Frames: what a computation leaves alone *)

Lemma grows_onlyLogs {A} P (m : Run Sys A) : onlyLogs P m -> grows m.
Proof. intros H s. destruct (H s) as (evs & -> & _). by exists evs. Qed.

Lemma grows_ret {A} (a : A) : grows (ret a).
Proof. intros s. exists []. by rewrite app_nil_r. Qed.

Lemma grows_throw {A} e : grows (@throw Sys A e).
Proof. intros s. exists []. by rewrite app_nil_r. Qed.

Lemma grows_gets {A} (f : Sys -> A) : grows (gets f).
Proof. intros s. exists []. by rewrite app_nil_r. Qed.

Lemma grows_await {A} (a : Answer A) : grows (await a).
Proof. destruct a; [apply grows_ret | apply grows_throw]. Qed.

Lemma grows_emit ev : grows (emit ev).
Proof. intros s. by exists [ev]. Qed.

Lemma grows_call {A} ev (answer : nat -> Answer A) : grows (call ev answer).
Proof. intros s. exists [ev]. unfold call. by destruct (answer _). Qed.

Lemma grows_flow f : grows (flow f).
Proof. intros s. unfold flow. destruct (f s) as [[r c] evs]. by exists evs. Qed.

Lemma grows_withCanvas f : grows (modify (withCanvas f)).
Proof. intros s. exists []. by rewrite app_nil_r. Qed.

Lemma grows_withShapeIds f : grows (modify (withShapeIds f)).
Proof. intros s. exists []. by rewrite app_nil_r. Qed.

Lemma grows_bind {A B} (m : Run Sys A) (k : A -> Run Sys B) :
  grows m -> (forall a, grows (k a)) -> grows (bind m k).
Proof.
  intros Hm Hk s. unfold bind. destruct (Hm s) as (e1 & H1).
  destruct (m s) as [[a|e|] s1]; simpl in H1; try by exists e1.
  destruct (Hk a s1) as (e2 & H2). exists (e1 ++ e2).
  by rewrite H2, H1, app_assoc.
Qed.

Lemma grows_tryCatch {A} (m : Run Sys A) (h : Thrown -> Run Sys A) :
  grows m -> (forall e, grows (h e)) -> grows (tryCatch m h).
Proof.
  intros Hm Hh s. unfold tryCatch. destruct (Hm s) as (e1 & H1).
  destruct (m s) as [[a|e|] s1]; simpl in H1; try by exists e1.
  destruct (Hh e s1) as (e2 & H2). exists (e1 ++ e2).
  by rewrite H2, H1, app_assoc.
Qed.

Create HintDb frame.

#[local] Hint Resolve grows_ret grows_throw grows_gets grows_await grows_emit
  grows_call grows_flow grows_withCanvas grows_withShapeIds grows_bind
  grows_tryCatch : frame.

(** Case analysis on whatever the computation in the goal branches on. *)
Ltac frame_step :=
  match goal with
  | |- grows (match ?x with _ => _ end) => destruct x
  | |- keeps (match ?x with _ => _ end) => destruct x
  | |- grows (bind _ _) => apply grows_bind
  | |- grows (tryCatch _ _) => apply grows_tryCatch
  | |- forall _, _ => intro
  end.

Ltac frame := cbv zeta; repeat first [ solve [auto with frame] | frame_step ].

Lemma imageLoop_grows n : forall req acc, grows (imageLoop E n req acc).
Proof. induction n; intros; simpl; auto with frame. Qed.

#[local] Hint Resolve imageLoop_grows : frame.

Lemma generateImages_grows prompt imageBlob n ratio :
  grows (generateImages E prompt imageBlob n ratio).
Proof.
  unfold generateImages. apply grows_bind; [auto with frame|]. intros l1.
  destruct l1; [|auto with frame].
  apply grows_bind; [auto with frame|]. intros l2. destruct l2; auto with frame.
Qed.

Lemma bakeOverlay_grows b o : grows (bakeOverlayBetweenShapes E b o).
Proof. unfold bakeOverlayBetweenShapes. frame. Qed.

Lemma editImage_grows imageBlob maskBlob prompt overlayBlob :
  grows (editImage E imageBlob maskBlob prompt overlayBlob).
Proof. unfold editImage. frame. Qed.

#[local] Hint Resolve generateImages_grows bakeOverlay_grows editImage_grows : frame.

Lemma runEditImage_grows prompt target : grows (runEditImage E prompt target).
Proof. unfold runEditImage. frame. Qed.

#[local] Hint Resolve runEditImage_grows : frame.


Lemma keeps_ret {A} (a : A) : keeps (ret a).
Proof. intros w. split; [done|]. exists []. by rewrite app_nil_r. Qed.

Lemma keeps_throw {A} e : keeps (@throw World A e).
Proof. intros w. split; [done|]. exists []. by rewrite app_nil_r. Qed.

Lemma keeps_outOfFuel {A} : keeps (@outOfFuel World A).
Proof. intros w. split; [done|]. exists []. by rewrite app_nil_r. Qed.

Lemma keeps_await {A} (a : Answer A) : keeps (await a).
Proof. destruct a; [apply keeps_ret | apply keeps_throw]. Qed.

Lemma keeps_liftSys {A} (m : Run Sys A) : grows m -> keeps (liftSys m).
Proof.
  intros Hm w. unfold liftSys. destruct (Hm (sys w)) as (evs & H).
  destruct (m (sys w)) as [r s']. split; [done|]. by exists evs.
Qed.

Lemma keeps_setEditingImage e : keeps (setEditingImage e).
Proof. intros w. split; [done|]. exists []. by rewrite app_nil_r. Qed.

Lemma keeps_setChatSession c : keeps (setChatSession c).
Proof. intros w. split; [done|]. exists []. by rewrite app_nil_r. Qed.

Lemma keeps_setLastAssistantImageInChat i : keeps (setLastAssistantImageInChat i).
Proof. intros w. split; [done|]. exists []. by rewrite app_nil_r. Qed.

Lemma keeps_bind {A B} (m : Run World A) (k : A -> Run World B) :
  keeps m -> (forall a, keeps (k a)) -> keeps (bind m k).
Proof.
  intros Hm Hk w. unfold bind. destruct (Hm w) as (H1 & e1 & L1).
  destruct (m w) as [[a|e|] w1]; simpl in H1, L1; try (split; [done|by exists e1]).
  destruct (Hk a w1) as (H2 & e2 & L2). split; [congruence|].
  exists (e1 ++ e2). by rewrite L2, L1, app_assoc.
Qed.

Lemma keeps_tryCatch {A} (m : Run World A) (h : Thrown -> Run World A) :
  keeps m -> (forall e, keeps (h e)) -> keeps (tryCatch m h).
Proof.
  intros Hm Hh w. unfold tryCatch. destruct (Hm w) as (H1 & e1 & L1).
  destruct (m w) as [[a|e|] w1]; simpl in H1, L1; try (split; [done|by exists e1]).
  destruct (Hh e w1) as (H2 & e2 & L2). split; [congruence|].
  exists (e1 ++ e2). by rewrite L2, L1, app_assoc.
Qed.

#[local] Hint Resolve keeps_ret keeps_throw keeps_outOfFuel keeps_await keeps_liftSys
  keeps_setEditingImage keeps_setChatSession keeps_setLastAssistantImageInChat
  keeps_bind keeps_tryCatch : frame.

Lemma keeps_addToast t : keeps (addToast t).
Proof. unfold addToast. auto with frame. Qed.

Lemma keeps_send c message : keeps (send E c message).
Proof. unfold send. auto with frame. Qed.

Lemma keeps_createChat c : keeps (createChat c).
Proof. unfold createChat. auto with frame. Qed.

#[local] Hint Resolve keeps_addToast keeps_send keeps_createChat : frame.

Ltac keeps_step :=
  match goal with
  | |- keeps (match ?x with _ => _ end) => destruct x
  | |- keeps (bind _ _) => apply keeps_bind
  | |- keeps (tryCatch _ _) => apply keeps_tryCatch
  | |- keeps (liftSys _) => apply keeps_liftSys
  | |- forall _, _ => intro
  end.

Ltac keeps_all :=
  cbv zeta; repeat first [ solve [auto with frame] | keeps_step | frame_step ].

Lemma handleSaveEditedImage_keeps assetId newSrc :
  keeps (handleSaveEditedImage E assetId newSrc).
Proof. unfold handleSaveEditedImage. keeps_all. Qed.

#[local] Hint Resolve handleSaveEditedImage_keeps : frame.

Lemma dispatchTool_keeps ctx fn : keeps (dispatchTool E ctx fn).
Proof.
  unfold dispatchTool, toolEditImage, toolGenerateImage, toolGenerateVideo,
    toolRemoveBackground, toolApplyOverlay, toolComposeAI, toolUpscaleImage,
    toolPlan.
  keeps_all.
Qed.

Lemma executeTool_keeps ctx fn : keeps (executeTool E ctx fn).
Proof.
  unfold executeTool. apply keeps_tryCatch; [apply dispatchTool_keeps|].
  keeps_all.
Qed.

#[local] Hint Resolve executeTool_keeps : frame.

Lemma toolLoop_keeps fuel : forall ctx response, keeps (toolLoop E fuel ctx response).
Proof.
  induction fuel as [|fuel IH]; intros ctx response; simpl; keeps_all.
Qed.


(** ** The orchestrator *)

Lemma handleAssistantSubmit_start rd fuel prompt image w :
  handleAssistantSubmit E rd fuel prompt image w
  = (do response <- firstResponse E (chatOf E rd) (userPartsOf prompt image);
     do answer <- toolLoop E fuel (contextOf rd (chatOf E rd) image) response;
     setChatHistory (fun prev => prev ++ [answer]))
      (startWorld E rd image (userPartsOf prompt image) w).
Proof.
  destruct rd as [[c|] l], image as [i|]; reflexivity.
Qed.

Lemma startWorld_moment rd image userParts w :
  length (log (sys (startWorld E rd image userParts w))) = requestMoment rd w.
Proof.
  unfold startWorld, requestMoment. destruct (chatSession rd); simpl; [done|].
  rewrite length_app. simpl. lia.
Qed.

Lemma firstResponse_keeps c userParts : keeps (firstResponse E c userParts).
Proof. unfold firstResponse. keeps_all. Qed.

Lemma firstPart_first response ct p :
  firstPart response = Resolves (ct, p) -> exists ps, parts ct = Some (p :: ps).
Proof.
  unfold firstPart. intros H.
  destruct (candidates response) as [[|c cs]|]; try discriminate.
  destruct (content c) as [ct'|]; try discriminate.
  destruct (parts ct') as [[|p' ps]|] eqn:Hp; try discriminate.
  injection H as -> ->. by exists ps.
Qed.



Lemma firstResponse_fails c userParts w e :
  requestFails E (length (log (sys w))) c userParts = Some e ->
  exists w', firstResponse E c userParts w = (Throw e, w')
             /\ chatHistory (react w') = chatHistory (react w).
Proof.
  unfold requestFails. intros H.
  destruct (sendMessage E (length (log (sys w))) c userParts) as [resp|err] eqn:S1;
    [discriminate|].
  unfold firstResponse, tryCatch, send at 1, liftSys, call. rewrite S1.
  destruct (isTransient (errorText err)).
  - destruct (sendMessage E (length (log (sys w)) + 3) (fallbackChat E) userParts)
      as [resp|err'] eqn:S2; [discriminate|]. injection H as ->.
    unfold bind, addToast, createChat, setChatSession, send, liftSys, emit, modify,
      withReact, bind, call. simpl.
    rewrite !length_app. simpl.
    replace (length (log (sys w)) + 1 + 1 + 1)%nat with (length (log (sys w)) + 3)%nat
      by lia.
    rewrite S2. eexists. split; reflexivity.
  - injection H as ->. eexists. split; reflexivity.
Qed.

(** C9 (amended): when the model request of a submission fails, after the
    fallback attempt or with an error outside the transient class, the
    submission throws that error, the user turn of the request stays in the
    transcript, where it was put before the request, and no model turn
    follows it. *)
Theorem handleAssistantSubmit_failed_request_keeps_user_turn
  (rd : Render) (fuel : nat) (prompt : jsstring) (image : option ChatImage)
  (w : World) (e : Thrown) :
  requestFails E (requestMoment rd w) (chatOf E rd) (userPartsOf prompt image) = Some e ->
  let r := handleAssistantSubmit E rd fuel prompt image w in
  outcome r = Throw e
  /\ chatHistory (react (final r))
     = chatHistory (react w) ++ [userTurn (userPartsOf prompt image)].
Proof.
  intros H r.
  assert (Hr : r = handleAssistantSubmit E rd fuel prompt image w) by reflexivity.
  clearbody r. rewrite handleAssistantSubmit_start in Hr.
  rewrite <- (startWorld_moment rd image (userPartsOf prompt image) w) in H.
  destruct (firstResponse_fails _ _ _ _ H) as (w' & Hrun & Hhist).
  unfold bind at 1 in Hr. rewrite Hrun in Hr. subst r. simpl.
  split; [done|]. by rewrite Hhist.
Qed.


Lemma firstResponse_rejected c userParts w err :
  sendMessage E (length (log (sys w))) c userParts = Rejects err ->
  if isTransient (errorText err)
  then exists o w',
         firstResponse E c userParts w = (o, w')
         /\ log (sys w')
            = log (sys w)
              ++ [ EvSendMessage c userParts; EvToast fallbackToast;
                   EvChatCreate (fallbackChat E);
                   EvSendMessage (fallbackChat E) userParts ]
  else exists w',
         firstResponse E c userParts w = (Throw err, w')
         /\ log (sys w') = log (sys w) ++ [EvSendMessage c userParts].
Proof.
  intros S1. destruct (isTransient (errorText err)) eqn:Ht.
  - unfold firstResponse, tryCatch, send at 1, liftSys, call. rewrite S1, Ht.
    unfold bind, addToast, createChat, setChatSession, send, liftSys, emit, modify,
      withReact, bind, call. simpl.
    destruct (sendMessage E _ (fallbackChat E) userParts); do 2 eexists;
      (split; [reflexivity|]); simpl; by rewrite <- !app_assoc.
  - unfold firstResponse, tryCatch, send at 1, liftSys, call. rewrite S1, Ht.
    eexists. split; reflexivity.
Qed.

(** C1: when the primary request of a submission is rejected with an error
    whose text matches the transient class, a toast is shown, a chat on
    [gemini-2.5-flash] with the same tools is created and the same user
    parts are sent to it; when the text does not match, the submission
    throws that very error and nothing is sent to a second model. *)
Theorem handleAssistantSubmit_model_fallback
  (rd : Render) (fuel : nat) (prompt : jsstring) (image : option ChatImage)
  (w : World) (err : Thrown) :
  let c := chatOf E rd in
  let userParts := userPartsOf prompt image in
  let r := handleAssistantSubmit E rd fuel prompt image w in
  let opened :=
    log (sys w) ++ match chatSession rd with
                   | Some _ => []
                   | None => [EvChatCreate (primaryChat E)]
                   end in
  sendMessage E (requestMoment rd w) c userParts = Rejects err ->
  if isTransient (errorText err)
  then (exists rest,
          log (sys (final r))
          = opened
            ++ [ EvSendMessage c userParts; EvToast fallbackToast;
                 EvChatCreate (fallbackChat E);
                 EvSendMessage (fallbackChat E) userParts ]
            ++ rest)
       /\ chatModel (fallbackChat E) = js "gemini-2.5-flash"
       /\ chatTools (fallbackChat E) = chatTools (primaryChat E)
  else outcome r = Throw err
       /\ log (sys (final r)) = opened ++ [EvSendMessage c userParts].
Proof.
  intros c userParts r opened S1.
  assert (Hr : r = handleAssistantSubmit E rd fuel prompt image w) by reflexivity.
  clearbody r. rewrite handleAssistantSubmit_start in Hr. fold userParts c in Hr.
  set (w1 := startWorld E rd image userParts w) in Hr.
  assert (Hopened : log (sys w1) = opened).
  { subst w1 opened. unfold startWorld. destruct (chatSession rd); simpl;
      [by rewrite app_nil_r|done]. }
  rewrite <- (startWorld_moment rd image userParts w) in S1. fold w1 in S1.
  pose proof (firstResponse_rejected c userParts w1 err S1) as Hfirst.
  destruct (isTransient (errorText err)).
  - destruct Hfirst as (o & w2 & Hrun & Hlog). split; [|done].
    unfold bind at 1 in Hr. rewrite Hrun in Hr.
    destruct o as [response|e|];
      try (subst r; simpl; exists []; by rewrite Hlog, Hopened).
    unfold bind at 1 in Hr.
    destruct (toolLoop_keeps fuel (contextOf rd c image) response w2)
      as (_ & rest & Hrest).
    destruct (toolLoop E fuel (contextOf rd c image) response w2)
      as [[answer|e|] w3]; simpl in Hrest; subst r; simpl; exists rest.
    all: by rewrite Hrest, Hlog, Hopened, <- app_assoc.
  - destruct Hfirst as (w2 & Hrun & Hlog).
    unfold bind at 1 in Hr. rewrite Hrun in Hr. subst r. simpl.
    split; [done|]. by rewrite Hlog, Hopened.
Qed.

(** ** The tools *)

Ltac pick_tool :=
  unfold dispatchTool, isTool; simpl fn_name;
  repeat first
    [ rewrite (bool_decide_eq_true_2 _ eq_refl)
    | rewrite bool_decide_eq_false_2 by (intros Hne; vm_compute in Hne; discriminate Hne) ];
  cbv iota.

(** C5: a call of editImage, removeBackground, upscaleImage, applyOverlay or
    composeAI without a base shape id, in a submission without an attached
    image and with no earlier chat image, yields an error result and leaves
    the whole state as it was: the document, the log, the React state. *)
Theorem tools_without_target_leave_canvas
  (rd : Render) (c : Chat) (fn : FunctionCall) (w : World) :
  needsBaseImage (fn_name fn) = true ->
  lastAssistantImageInChat rd = None ->
  arg_baseShapeId (fn_args fn) = None ->
  exists msg,
    executeTool E (contextOf rd c None) fn w = (Ret (ResultError msg), w).
Proof.
  intros Hname Hlast Hbase. destruct fn as [name args]. simpl in *.
  destruct rd as [session last]. simpl in Hlast. subst last.
  unfold needsBaseImage in Hname. apply bool_decide_eq_true_1 in Hname.
  unfold executeTool, tryCatch.
  repeat (apply elem_of_cons in Hname as [->|Hname]);
    [ pick_tool; unfold toolEditImage
    | pick_tool; unfold toolRemoveBackground
    | pick_tool; unfold toolUpscaleImage
    | pick_tool; unfold toolApplyOverlay, applyOverlayBaseId; simpl; rewrite Hbase
    | pick_tool; unfold toolComposeAI, composeBaseId; simpl; rewrite Hbase
    | by apply elem_of_nil in Hname ];
    simpl; by eexists.
Qed.

(** C8 (what the code does): in a submission without an attached image and
    with an earlier chat image, applyOverlay and composeAI called without
    shape ids resolve the base and the overlay to the same shape, the chat
    image; editImage is the one branch that passes the chat image as overlay
    only when it differs from the target. *)
Theorem overlay_resolves_to_base
  (rd : Render) (c : Chat) (args : FnArgs) (l : ChatImage) :
  lastAssistantImageInChat rd = Some l ->
  arg_baseShapeId args = None ->
  arg_overlayShapeId args = None ->
  let ctx := contextOf rd c None in
  applyOverlayBaseId ctx args = Some (shapeId l)
  /\ applyOverlayOverlayId ctx args = Some (shapeId l)
  /\ composeBaseId ctx args = Some (shapeId l)
  /\ composeOverlayId ctx args = Some (shapeId l)
  /\ editOverlay ctx (shapeId l) = None.
Proof.
  intros Hlast Hbase Hoverlay ctx. subst ctx.
  unfold applyOverlayBaseId, applyOverlayOverlayId, composeBaseId, composeOverlayId,
    editOverlay, contextOf, orElse. simpl.
  rewrite Hlast, Hbase, Hoverlay. simpl.
  repeat split. by rewrite bool_decide_eq_false_2 by (intros H; by apply H).
Qed.


(** ** More on generateImages *)

Lemma imageLoop_answered n : forall req acc s,
  roundAnswered E (length (log s)) req n = true ->
  imageLoop E n req acc s
  = (Ret (acc ++ roundImages E (length (log s)) req n),
     logged (repeat (EvGenerateContent req) n) s).
Proof.
  induction n as [|n IH]; intros req acc s H; simpl in *.
  - by rewrite logged_nil, app_nil_r.
  - apply andb_prop in H as [H1 H2]. unfold answeredAt in H1. unfold imageAt.
    unfold bind.
    destruct (generateContent E (length (log s)) req) as [res|e] eqn:G; [|done].
    rewrite (call_resolves _ _ _ res G).
    assert (Hlen : length (log (logged [EvGenerateContent req] s)) = S (length (log s))).
    { rewrite log_logged, length_app. simpl. lia. }
    rewrite IH by (by rewrite Hlen).
    rewrite Hlen, logged_logged.
    destruct (inlineDataOf res) as [[m d]|]; simpl; [|done].
    by rewrite <- app_assoc.
Qed.

Lemma imageLoop_returns n : forall req acc s l s',
  imageLoop E n req acc s = (Ret l, s') ->
  exists more, l = acc ++ more /\ (length more <= n)%nat
               /\ Forall (fun u => isDataUrl u = true) more.
Proof.
  induction n as [|n IH]; intros req acc s l s'; simpl.
  - intros [= <- _]. exists []. by rewrite app_nil_r.
  - unfold bind, call.
    destruct (generateContent E (length (log s)) req) as [res|e]; [|done].
    intros H. apply IH in H as (more & -> & Hlen & Hall).
    destruct (inlineDataOf res) as [[m d]|].
    + exists (dataUrl m d :: more). rewrite <- app_assoc. simpl.
      repeat split; [lia|]. by constructor.
    + exists more. repeat split; [lia|done].
Qed.

(** X1: when [generateImages] returns, the list is not empty, it has at most
    one image per requested image, and each image is a data URL. *)
Theorem generateImages_returns_images
  (prompt : jsstring) (imageBlob : option Blob) (numberOfImages : Q)
  (aspectRatio : jsstring) (s s' : Sys) (images : list jsstring) :
  generateImages E prompt imageBlob numberOfImages aspectRatio s = (Ret images, s') ->
  images <> []
  /\ (length images <= iterationsOf numberOfImages)%nat
  /\ Forall (fun u => isDataUrl u = true) images.
Proof.
  unfold generateImages, bind at 1.
  destruct (imageLoop E _ _ [] s) as [[l1|e|] s1] eqn:H1; try done.
  apply imageLoop_returns in H1 as (more1 & -> & Hlen1 & Hall1). simpl.
  destruct more1 as [|x more1].
  - unfold bind.
    destruct (imageLoop E _ _ [] s1) as [[l2|e|] s2] eqn:H2; try done.
    apply imageLoop_returns in H2 as (more2 & -> & Hlen2 & Hall2). simpl.
    destruct more2 as [|y more2]; [done|]. intros [= <- _]. done.
  - intros [= <- _]. done.
Qed.

(** X2: when every request of the first round is answered and one of the
    answers has an image, [generateImages] makes no other request and returns
    the images of that round in the order of the requests. *)
Theorem generateImages_first_round_suffices
  (prompt : jsstring) (imageBlob : option Blob) (numberOfImages : Q)
  (aspectRatio : jsstring) (s : Sys) :
  let n := iterationsOf numberOfImages in
  let first := imageRequest (imagePartOf E imageBlob) (TextPart prompt) in
  roundAnswered E (length (log s)) first n = true ->
  roundImages E (length (log s)) first n <> [] ->
  generateImages E prompt imageBlob numberOfImages aspectRatio s
  = (Ret (roundImages E (length (log s)) first n),
     logged (repeat (EvGenerateContent first) n) s).
Proof.
  intros n first Hans Himg. unfold generateImages. fold n first.
  unfold bind. rewrite (imageLoop_answered n first [] s Hans). simpl.
  by destruct (roundImages E (length (log s)) first n).
Qed.

Lemma generateImages_onlyLogs prompt imageBlob n ratio :
  onlyLogs everyEvent (generateImages E prompt imageBlob n ratio).
Proof.
  intros s.
  destruct (generateImages_at_most_two_rounds prompt imageBlob n ratio s)
    as (j & k & _ & _ & H).
  eexists. split; [exact H|]. by apply forallb_forall.
Qed.

(** ** More on runEditImage *)

(** X3: [runEditImage] on a shape that does not exist or names no asset
    throws [Target shape is not a valid image.] before anything else: no
    placeholder, no request, the state as it was. *)
Theorem runEditImage_invalid_target (prompt : jsstring) (target : list N) (s : Sys) :
  validTarget (canvas s) target = false ->
  runEditImage E prompt target s
  = (Throw (newError (js "Target shape is not a valid image.")), s).
Proof.
  unfold validTarget, runEditImage, bind at 1, gets, getShape. intros H.
  destruct (shapes (canvas s) !! target) as [sh|]; [|done].
  by rewrite H.
Qed.

(** X4: when the generation fails, whatever the failure, [runEditImage]
    throws it on and leaves the document as [addPlaceholder] and the
    selection of the placeholder made it: the placeholder is not removed. *)
Theorem runEditImage_failure_keeps_placeholder
  (prompt : jsstring) (target : list N) (s s' : Sys) (export : Blob)
  (bounds : Box) (e : Thrown) :
  let placed := addPlaceholder E (js "Editing image...") (canvas s) in
  let c2 := select (headOr (fst placed) []) (snd placed) in
  validTarget (canvas s) target = true ->
  toImage E c2 [target] true = Resolves export ->
  getShapePageBounds target c2 = Some bounds ->
  generateImages E prompt (Some export) 1 (ratioOf E bounds)
    (withCanvas (fun _ => c2) s) = (Throw e, s') ->
  runEditImage E prompt target s = (Throw e, s')
  /\ canvas s' = c2.
Proof.
  intros placed c2 Hvalid Himage Hbounds Hgen. subst c2 placed.
  destruct (addPlaceholder E (js "Editing image...") (canvas s)) as [ids c1] eqn:Hp.
  simpl fst in *. simpl snd in *.
  split.
  - unfold validTarget in Hvalid.
    unfold runEditImage, bind at 1, gets, getShape.
    destruct (shapes (canvas s) !! target) as [sh|]; [|done].
    rewrite Hvalid, Hp. cbn [negb].
    unfold bind at 1, modify. unfold bind at 1.
    cbn [canvas withCanvas].
    rewrite Himage. unfold bind at 1, await, ret. rewrite Hbounds.
    unfold bind at 1. by rewrite Hgen.
  - destruct (generateImages_onlyLogs prompt (Some export) 1 (ratioOf E bounds)
                (withCanvas (fun _ => select (headOr ids []) c1) s)) as (evs & H & _).
    rewrite Hgen in H. simpl in H. by rewrite H.
Qed.

(** ** More on the tools *)

(** X5: no tool makes [executeTool] throw: a run of it ends in a result for
    the model (or does not end). *)
Theorem executeTool_never_throws (ctx : ToolContext) (fn : FunctionCall) (w : World) :
  isThrow (outcome (executeTool E ctx fn w)) = false.
Proof.
  unfold executeTool, tryCatch.
  destruct (dispatchTool E ctx fn w) as [[r|e|] w']; try reflexivity.
  by destruct (isNoImages (errorText e)).
Qed.

(** The words of the no-images error cannot begin inside [Unknown tool ]. *)
Lemma isNoImages_unknown_tool (name : jsstring) :
  isNoImages (js "Unknown tool " ++ name) = isNoImages name.
Proof.
  unfold isNoImages, regexTest, noImagesRegex.
  change (js "Unknown tool " ++ name)
    with (85 :: 110 :: 107 :: 110 :: 111 :: 119 :: 110 :: 32 :: 116 :: 111 :: 111
          :: 108 :: 32 :: name)%N.
  cbn [existsb]. f_equal.
Qed.

(** X6: a function call whose name is none of the declared tools changes
    nothing in the document and in the React state.  Its result is the
    error [Unknown tool] followed by the name, and nothing is logged; but
    when the name holds the words of the no-images error, the catch of the
    loop takes the failure for that error: it shows the no-images toast and
    the result is the no-images error. *)
Theorem executeTool_unknown_tool (ctx : ToolContext) (fn : FunctionCall) (w : World) :
  fn_name fn ∉ toolNames ->
  executeTool E ctx fn w
  = if isNoImages (fn_name fn)
    then (Ret (ResultError noImagesResult), toasted noImagesToast w)
    else (Ret (ResultError (js "Unknown tool " ++ fn_name fn)), w).
Proof.
  intros Hname. unfold executeTool, tryCatch, dispatchTool, isTool.
  unfold toolNames in Hname.
  repeat (rewrite bool_decide_eq_false_2
            by (intros Heq; apply Hname; rewrite Heq; vm_compute; set_solver)).
  unfold throw.
  change (errorText (newError (js "Unknown tool " ++ fn_name fn)))
    with (js "Unknown tool " ++ fn_name fn).
  rewrite isNoImages_unknown_tool.
  destruct (isNoImages (fn_name fn)); [|done].
  destruct w as [s r]. reflexivity.
Qed.

Ltac edit_error :=
  do 2 eexists; do 3 (split; [reflexivity|]); reflexivity.

(** X7: the editImage tool edits nothing: it always returns a result, it
    leaves the document, the log and the transcript as they were, and when
    the result is not an error the mask editor is open on the asset of the
    target, with the prompt of the call and the overlay the branch chose. *)
Theorem toolEditImage_only_opens_editor (ctx : ToolContext) (args : FnArgs) (w : World) :
  exists result w',
    toolEditImage ctx args w = (Ret result, w')
    /\ sys w' = sys w
    /\ chatHistory (react w') = chatHistory (react w)
    /\ match result with
       | ResultError _ => w' = w
       | ResultOutput _ =>
           exists sid sh aid asset bounds,
             shapeIdForEditing ctx = Some sid
             /\ getShape sid (canvas (sys w)) = Some sh
             /\ shapeAssetId sh = Some aid
             /\ assets (canvas (sys w)) !! aid = Some asset
             /\ editingImage (react w')
                = Some {| ei_assetId := aid; ei_src := assetSrc asset;
                          ei_bounds := bounds;
                          ei_initialPrompt := arg_prompt args;
                          ei_overlaySrc := editOverlay ctx sid |}
       end.
Proof.
  destruct w as [s r]. unfold toolEditImage.
  destruct (shapeIdForEditing ctx) as [sid|] eqn:Hsid; [|edit_error].
  destruct (truthyStr sid); cbn [negb]; [|edit_error].
  unfold bind at 1, liftSys, gets. cbn [sys react].
  destruct (getShape sid (canvas s)) as [sh|] eqn:Hsh; [|edit_error].
  unfold getAsset.
  destruct (shapeAssetId sh) as [aid|] eqn:Haid; [|edit_error].
  destruct (assets (canvas s) !! aid) as [asset|] eqn:Hasset; [|edit_error].
  destruct (getShapePageBounds sid (canvas s)) as [bounds|]; [|edit_error].
  do 2 eexists. split; [reflexivity|]. simpl. repeat split.
  exists sid, sh, aid, asset, bounds. done.
Qed.

(** ** The helper functions *)

Lemma gcdSteps_gcd n : forall a b,
  0 <= a -> 0 <= b -> b < Z.of_nat n -> gcdSteps n a b = Z.gcd a b.
Proof.
  induction n as [|n IH]; intros a b Ha Hb Hn; [lia|]. simpl.
  destruct (b =? 0) eqn:Hz.
  - apply Z.eqb_eq in Hz. subst b. rewrite Z.gcd_0_r. lia.
  - apply Z.eqb_neq in Hz.
    pose proof (Z.rem_bound_pos a b Ha ltac:(lia)) as Hrem.
    rewrite IH by lia.
    rewrite Z.rem_mod_nonneg by lia.
    rewrite (Z.gcd_comm b), Z.gcd_mod by lia. apply Z.gcd_comm.
Qed.

(** X8: on integers that are not negative, the [gcd] of the source is the
    greatest common divisor: its steps are enough to reach a zero second
    argument. *)
Theorem gcd_is_greatest_common_divisor (a b : Z) :
  0 <= a -> 0 <= b -> gcd a b = Z.gcd a b.
Proof.
  intros Ha Hb. unfold gcd. apply gcdSteps_gcd; lia.
Qed.

Lemma matchHere_lit a : forall q word s,
  asciiUpper <$> word = asciiUpper <$> a ->
  matchHere true (lit a ++ q) (word ++ s) = matchHere true q s.
Proof.
  induction a as [|c a IH]; intros q word s H.
  - by destruct word.
  - destruct word as [|x word]; [done|]. injection H as Hx Hw.
    simpl. unfold unitEq. rewrite Hx, N.eqb_refl. simpl. by apply IH.
Qed.

Lemma searchPattern_later ci p s :
  matchHere ci p s = true -> forall pre, searchPattern ci p (pre ++ s) = true.
Proof.
  intros H pre. induction pre as [|c pre IH]; simpl.
  - destruct s; simpl; by rewrite H.
  - rewrite IH. apply orb_true_r.
Qed.

(** X9: an error text that holds the word INTERNAL, in any mix of lower and
    upper case and at any place, is of the transient class. *)
Theorem isTransient_internal_anywhere (pre word post : jsstring) :
  asciiUpper <$> word = js "INTERNAL" ->
  isTransient (pre ++ word ++ post) = true.
Proof.
  intros H.
  assert (Hm : matchHere true (lit (js "INTERNAL")) (word ++ post) = true).
  { rewrite <- (app_nil_r (lit (js "INTERNAL"))). by rewrite matchHere_lit. }
  unfold isTransient, regexTest, transientRegex. cbn [existsb].
  by rewrite (searchPattern_later _ _ _ Hm).
Qed.

Lemma matchHere_spaces ci q ws : forall s,
  forallb isSpace ws = true ->
  matchHere ci q s = true ->
  matchHere ci (SpaceStar :: q) (ws ++ s) = true.
Proof.
  induction ws as [|x ws IH]; intros s Hws Hq.
  - destruct s as [|y s]; simpl in *; rewrite Hq; [done|apply orb_true_r].
  - simpl in Hws. apply andb_prop in Hws as [Hx Hws].
    specialize (IH s Hws Hq). simpl in *. by rewrite Hx, IH.
Qed.

(** X10: an error text that holds the key [status] closed by its double
    quote, a colon, any white space and [500], as the JSON of a server error
    does, is of the transient class. *)
Theorem isTransient_status_500 (pre spaces post : jsstring) :
  forallb isSpace spaces = true ->
  isTransient (pre ++ (js "status" ++ [dquote] ++ js ":") ++ spaces ++ js "500" ++ post)
  = true.
Proof.
  intros Hws.
  assert (Hm : matchHere true
                 (lit (js "status" ++ [dquote] ++ js ":") ++ [SpaceStar] ++ lit (js "500"))
                 ((js "status" ++ [dquote] ++ js ":") ++ spaces ++ js "500" ++ post)
               = true).
  { rewrite matchHere_lit by done.
    apply matchHere_spaces; [done|].
    rewrite <- (app_nil_r (lit (js "500"))). by rewrite matchHere_lit. }
  unfold isTransient, regexTest, transientRegex. cbn [existsb].
  rewrite (searchPattern_later _ _ _ Hm). by rewrite !orb_true_r.
Qed.

Lemma captureGreedy_no_semicolon s : noSemicolon s = true -> captureGreedy s = None.
Proof.
  induction s as [|c s IH]; [done|]. intros H. cbn [noSemicolon forallb] in H.
  apply andb_prop in H as [Hc Hs]. cbn [captureGreedy]. rewrite (IH Hs).
  assert (Hsw : startsWith (js ";base64,") (c :: s) = false).
  { change (js ";base64,") with (59%N :: js "base64,"). cbn [startsWith].
    rewrite N.eqb_sym. apply negb_true_iff in Hc. by rewrite Hc. }
  rewrite Hsw. by destruct (isLineTerminator c).
Qed.

Lemma captureGreedy_marker d :
  noSemicolon d = true ->
  captureGreedy (js ";base64," ++ d) = Some ([], d).
Proof.
  intros Hd.
  change (js ";base64," ++ d) with (59%N :: (js "base64," ++ d)).
  cbn [captureGreedy]. rewrite captureGreedy_no_semicolon; [done|].
  unfold noSemicolon in *. by rewrite forallb_app, Hd.
Qed.

Lemma captureGreedy_mime m : forall d,
  oneLine m = true -> noSemicolon d = true ->
  captureGreedy (m ++ js ";base64," ++ d) = Some (m, d).
Proof.
  induction m as [|c m IH]; intros d Hm Hd.
  - by apply captureGreedy_marker.
  - simpl in Hm. apply andb_prop in Hm as [Hc Hm].
    cbn [app captureGreedy]. apply negb_true_iff in Hc. rewrite Hc.
    by rewrite (IH d Hm Hd).
Qed.

Lemma lineOf_oneLine d : oneLine d = true -> lineOf d = d.
Proof.
  induction d as [|c d IH]; [done|]. simpl. intros H.
  apply andb_prop in H as [Hc Hd]. apply negb_true_iff in Hc.
  by rewrite Hc, IH.
Qed.

Lemma matchDataUrl_dataUrl (mimeType data : jsstring) :
  oneLine mimeType = true -> oneLine data = true -> noSemicolon data = true ->
  matchDataUrl (dataUrl mimeType data) = Some (mimeType, data).
Proof.
  intros Hm Hd Hs.
  unfold matchDataUrl, dataUrl.
  set (rest := mimeType ++ js ";base64," ++ data).
  change (js "data:" ++ rest)
    with (100%N :: 97%N :: 116%N :: 97%N :: 58%N :: rest).
  cbn [matchDataUrlHead].
  change (startsWith (js "data:") (100%N :: 97%N :: 116%N :: 97%N :: 58%N :: rest))
    with true.
  change (drop 5 (100%N :: 97%N :: 116%N :: 97%N :: 58%N :: rest)) with rest.
  subst rest. rewrite captureGreedy_mime by done. by rewrite lineOf_oneLine.
Qed.

(** X11: a data URL built the way [generateImages] builds its images reads
    back as its parts: attached in chat, the image goes to the model as
    inline data with the mime type and the data it was built from (both on
    one line, the data without a semicolon, as base64 is). *)
Theorem userPartsOf_reads_data_url
  (prompt mimeType data : jsstring) (target : list N) :
  oneLine mimeType = true -> oneLine data = true -> noSemicolon data = true ->
  matchDataUrl (dataUrl mimeType data) = Some (mimeType, data)
  /\ userPartsOf prompt (Some {| src := dataUrl mimeType data; shapeId := target |})
     = [TextPart prompt; InlineDataPart mimeType data].
Proof.
  intros Hm Hd Hs.
  pose proof (matchDataUrl_dataUrl mimeType data Hm Hd Hs) as H.
  split; [done|]. unfold userPartsOf. cbn [src]. by rewrite H.
Qed.

(** ** More on generateVideo *)

Lemma promiseAll_length {A} (ms : list (Run Sys A)) : forall s l s',
  promiseAll ms s = (Ret l, s') -> length l = length ms.
Proof.
  induction ms as [|m ms IH]; intros s l s'; simpl.
  - by intros [= <- _].
  - destruct (m s) as [[a|e|] s1]; try done.
    destruct (promiseAll ms s1) as [[l'|e|] s2] eqn:H; try done.
    intros [= <- _]. simpl. f_equal. by eapply IH.
Qed.

(** X12: when the primary attempt returns videos, [generateVideo] returns
    them, one for each video the operation generated, and the FAL fallback
    is not touched: no notification, no request. *)
Theorem generateVideo_primary_success
  (fuel : nat) (imageBlob : option Blob) (prompt : jsstring)
  (numberOfVideos : Z) (aspectRatio : jsstring) (s s1 : Sys) (videos : list jsstring) :
  veoAttempt E fuel imageBlob prompt numberOfVideos aspectRatio s
    = (Ret (Some videos), s1) ->
  generateVideo E fuel imageBlob prompt numberOfVideos aspectRatio s = (Ret videos, s1)
  /\ (exists evs, s1 = logged evs s /\ forallb notFal evs = true)
  /\ (exists op s0 r gvs,
        veoOperation E fuel imageBlob prompt numberOfVideos aspectRatio s = (Ret op, s0)
        /\ response op = Some r /\ generatedVideos r = Some gvs
        /\ length videos = length gvs).
Proof.
  intros H. split; [|split].
  - unfold generateVideo, bind, tryCatch. by rewrite H.
  - destruct (veoAttempt_onlyLogs fuel imageBlob prompt numberOfVideos aspectRatio s)
      as (evs & Hs & Hevs).
    rewrite H in Hs. by exists evs.
  - unfold veoAttempt, bind at 1 in H.
    destruct (veoOperation E fuel imageBlob prompt numberOfVideos aspectRatio s)
      as [[op|e|] s0] eqn:Hop; try done.
    unfold veoVideos in H. destruct (response op) as [r|] eqn:Hr; [|done].
    unfold bind at 1 in H.
    match type of H with (let (_, _) := ?m s0 in _) = _ =>
      destruct (m s0) as [[[]|e|] s2]; try done end.
    destruct (generatedVideos r) as [gvs|] eqn:Hg; [|done].
    unfold bind in H.
    destruct (promiseAll (fetchGeneratedVideo E <$> gvs) s2) as [[l|e|] s3] eqn:Hp;
      try done.
    injection H as <- _. exists op, s0, r, gvs. repeat split; try done.
    apply promiseAll_length in Hp. by rewrite length_fmap in Hp.
Qed.

(** *** Computations that need no fuel *)

Lemma halts_ret {S A} (a : A) : halts (@ret S A a).
Proof. by intros s. Qed.

Lemma halts_throw {S A} e : halts (@throw S A e).
Proof. by intros s. Qed.

Lemma halts_gets {S A} (f : S -> A) : halts (gets f).
Proof. by intros s. Qed.

Lemma halts_modify {S} (f : S -> S) : halts (modify f).
Proof. by intros s. Qed.

Lemma halts_await {S A} (a : Answer A) : halts (@await S A a).
Proof. by destruct a. Qed.

Lemma halts_emit ev : halts (emit ev).
Proof. by intros s. Qed.

Lemma halts_call {A} ev (answer : nat -> Answer A) : halts (call ev answer).
Proof. intros s. unfold call. by destruct (answer _). Qed.

Lemma halts_bind_at {S A B} (m : Run S A) (k : A -> Run S B) s :
  outcome (m s) <> OutOfFuel -> (forall a, halts (k a)) ->
  outcome (bind m k s) <> OutOfFuel.
Proof.
  intros Hm Hk. unfold bind. destruct (m s) as [[a|e|] s1]; try done. apply Hk.
Qed.

Lemma halts_bind {S A B} (m : Run S A) (k : A -> Run S B) :
  halts m -> (forall a, halts (k a)) -> halts (bind m k).
Proof. intros Hm Hk s. by apply halts_bind_at. Qed.

Lemma halts_tryCatch_at {S A} (m : Run S A) (h : Thrown -> Run S A) s :
  outcome (m s) <> OutOfFuel -> (forall e, halts (h e)) ->
  outcome (tryCatch m h s) <> OutOfFuel.
Proof.
  intros Hm Hh. unfold tryCatch. destruct (m s) as [[a|e|] s1]; try done. apply Hh.
Qed.

Lemma halts_tryCatch {S A} (m : Run S A) (h : Thrown -> Run S A) :
  halts m -> (forall e, halts (h e)) -> halts (tryCatch m h).
Proof. intros Hm Hh s. by apply halts_tryCatch_at. Qed.

Lemma halts_liftSys {A} (m : Run Sys A) : halts m -> halts (liftSys m).
Proof.
  intros Hm w. unfold liftSys. specialize (Hm (sys w)).
  by destruct (m (sys w)) as [[a|e|] s1].
Qed.

Create HintDb halt.

#[local] Hint Resolve halts_ret halts_throw halts_gets halts_modify halts_await
  halts_emit halts_call halts_bind halts_tryCatch halts_liftSys : halt.

Ltac halt_step :=
  match goal with
  | |- halts (match ?x with _ => _ end) => destruct x
  | |- halts (bind _ _) => apply halts_bind
  | |- halts (tryCatch _ _) => apply halts_tryCatch
  | |- halts (liftSys _) => apply halts_liftSys
  | |- forall _, _ => intro
  end.

Ltac halt_all := cbv zeta; repeat first [ solve [auto with halt] | halt_step ].

Lemma promiseAll_halts {A} (ms : list (Run Sys A)) :
  Forall halts ms -> halts (promiseAll ms).
Proof.
  induction 1 as [|m ms Hm _ IH]; [done|]. intros s. simpl.
  specialize (Hm s). destruct (m s) as [[a|e|] s1]; try done.
  specialize (IH s1). by destruct (promiseAll ms s1) as [[l|e|] s2].
Qed.

Lemma veoVideos_halts op : halts (veoVideos E op).
Proof.
  unfold veoVideos. destruct (response op) as [r|]; [|auto with halt].
  apply halts_bind; [halt_all|]. intros _.
  destruct (generatedVideos r) as [gvs|]; [|auto with halt].
  apply halts_bind; [|auto with halt].
  apply promiseAll_halts, Forall_fmap, Forall_forall. intros g _.
  unfold fetchGeneratedVideo. halt_all.
Qed.

Lemma notify_halts msg : halts (notify msg).
Proof. unfold notify. halt_all. Qed.

Lemma falVeo3Video_halts prompt ratio u : halts (falVeo3Video E prompt ratio u).
Proof. unfold falVeo3Video. halt_all. Qed.

Lemma fetchFallbackVideos_halts urls : forall out, halts (fetchFallbackVideos E urls out).
Proof. induction urls; intros out; simpl; halt_all. Qed.

#[local] Hint Resolve veoVideos_halts notify_halts falVeo3Video_halts
  fetchFallbackVideos_halts : halt.

(** X13: as long as the polling ends, [generateVideo] returns a list,
    whatever the providers, the downloads and the flags do: no failure is
    thrown to its caller. *)
Theorem generateVideo_returns_when_polling_ends
  (fuel : nat) (imageBlob : option Blob) (prompt : jsstring)
  (numberOfVideos : Z) (aspectRatio : jsstring) (s : Sys) :
  outcome (veoOperation E fuel imageBlob prompt numberOfVideos aspectRatio s) <> OutOfFuel ->
  exists videos,
    outcome (generateVideo E fuel imageBlob prompt numberOfVideos aspectRatio s)
    = Ret videos.
Proof.
  intros Hpoll.
  assert (Hhalt :
    outcome (generateVideo E fuel imageBlob prompt numberOfVideos aspectRatio s)
    <> OutOfFuel).
  { unfold generateVideo. apply halts_bind_at.
    - apply halts_tryCatch_at; [|auto with halt].
      unfold veoAttempt. apply halts_bind_at; [done|]. apply veoVideos_halts.
    - halt_all. }
  pose proof (generateVideo_never_throws fuel imageBlob prompt numberOfVideos
                aspectRatio s) as Hthrow.
  destruct (outcome (generateVideo E fuel imageBlob prompt numberOfVideos aspectRatio s))
    as [videos|e|]; [by exists videos|done|done].
Qed.

Lemma truthyUrls_truthy us : Forall (fun u => truthyStr u = true) (truthyUrls us).
Proof.
  induction us as [|[u|] us IH]; simpl; [done| |done].
  destruct (truthyStr u) eqn:Hu; [by constructor|done].
Qed.

(** X14: [falVeo3Video] never rejects: it makes one request to
    [fal-ai/veo3] and returns URLs that are not empty strings; a rejected
    request gives the empty list. *)
Theorem falVeo3Video_result
  (prompt ratio : jsstring) (imageDataUrl : option jsstring) (s : Sys) :
  let input := falVideoInput prompt ratio imageDataUrl in
  exists urls,
    falVeo3Video E prompt ratio imageDataUrl s
    = (Ret urls, logged [EvFalSubscribe (js "fal-ai/veo3") input] s)
    /\ Forall (fun u => truthyStr u = true) urls
    /\ (forall e,
          falSubscribe E (length (log s)) (js "fal-ai/veo3") input = Rejects e ->
          urls = []).
Proof.
  intros input. subst input. unfold falVideoInput, falVeo3Video, tryCatch, bind, call.
  destruct (falSubscribe E _ _ _) as [result|e].
  - destruct (falVideosOf result) as [|v vs] eqn:Hv.
    + destruct (falSingleOf result) as [single|].
      * destruct (truthyStr single) eqn:Ht; eexists; (split; [reflexivity|]);
          (split; [|done]); by repeat constructor.
      * eexists. split; [reflexivity|]. by split.
    + eexists. split; [reflexivity|]. split; [apply truthyUrls_truthy|done].
  - exists []. split; [reflexivity|]. by split.
Qed.

(** X15: the downloads of the fallback: every URL is fetched once, in order,
    and none of the failures is thrown; the list returned is the list given
    followed by the videos of the downloads that succeeded, one each, in the
    order of the URLs. *)
Theorem fetchFallbackVideos_result (urls : list jsstring) (out : list jsstring) (s : Sys) :
  fetchFallbackVideos E urls out s
  = (Ret (out ++ downloads E (length (log s)) urls), logged (EvFetch <$> urls) s).
Proof.
  revert out s. induction urls as [|u urls IH]; intros out s; simpl.
  - by rewrite app_nil_r, logged_nil.
  - unfold bind at 1, tryCatch, bind, call.
    destruct (fetchBlob E (length (log s)) u) as [blob|e]; simpl; rewrite IH;
      fold (logged [EvFetch u] s); rewrite logged_logged, log_logged, length_app;
      simpl; replace (length (log s) + 1)%nat with (S (length (log s))) by lia.
    + by rewrite <- app_assoc.
    + done.
Qed.

(** ** More on the component *)

(** X16: [handleSaveEditedImage] never throws.  Either it replaces the asset
    with an image asset of the new source, keeping its name, and closes the
    mask editor, or it leaves the document as it was and shows the toast
    [Failed to update image]. *)
Theorem handleSaveEditedImage_saves_or_toasts
  (assetId : option (list N)) (newSrc : jsstring) (w : World) :
  exists w',
    handleSaveEditedImage E assetId newSrc w = (Ret tt, w')
    /\ chatHistory (react w') = chatHistory (react w)
    /\ ((exists aid old size,
           assetId = Some aid
           /\ assets (canvas (sys w)) !! aid = Some old
           /\ getImageSize E newSrc = Resolves size
           /\ canvas (sys w')
              = updateAssets aid
                  (imageAsset newSrc (fst size) (snd size) (assetName old)
                     (orDefault (matchDataUrlMime newSrc) (js "image/jpeg")))
                  (canvas (sys w))
           /\ log (sys w') = log (sys w)
           /\ editingImage (react w') = None)
        \/ (canvas (sys w') = canvas (sys w)
            /\ log (sys w') = log (sys w) ++ [EvToast failedToUpdate])).
Proof.
  destruct w as [s r].
  unfold handleSaveEditedImage, tryCatch, bind at 1, await.
  destruct (getImageSize E newSrc) as [size|e] eqn:Hsize; cbn [ret throw].
  - unfold bind at 1, liftSys, gets. cbn [sys react].
    unfold getAsset. destruct assetId as [aid|].
    + destruct (assets (canvas s) !! aid) as [old|] eqn:Hold.
      * destruct (bool_decide (assetType old = js "image")); cbn [negb].
        -- eexists. split; [reflexivity|]. split; [done|]. left.
           exists aid, old, size. by repeat split.
        -- eexists. split; [reflexivity|]. split; [done|]. by right.
      * eexists. split; [reflexivity|]. split; [done|]. by right.
    + eexists. split; [reflexivity|]. split; [done|]. by right.
  - eexists. split; [reflexivity|]. split; [done|]. by right.
Qed.

(** ** More on the overlay bake *)

Ltac case_run H :=
  repeat (match type of H with
          | context [match ?x with _ => _ end] => destruct x eqn:?
          | context [if ?x then _ else _] => destruct x eqn:?
          end; cbn beta iota in H; try discriminate H).

Ltac settle_awaits :=
  repeat match goal with
         | Hq : (match ?x with _ => _ end) _ = (_, _) |- _ =>
             destruct x eqn:?; cbn beta iota in Hq; try discriminate Hq;
             injection Hq as ? ?; subst
         end.

Lemma bakeOverlay_success baseShapeId overlayShapeId s s' :
  bakeOverlayBetweenShapes E baseShapeId overlayShapeId s = (Ret tt, s') ->
  exists baseShape aid updated,
    getShape baseShapeId (canvas s) = Some baseShape
    /\ shapeAssetId baseShape = Some aid
    /\ s' = withCanvas (select [baseShapeId])
              (withCanvas (deleteShapes [overlayShapeId])
                 (withCanvas (updateAssets aid updated) s)).
Proof.
  intros H.
  unfold bakeOverlayBetweenShapes, bind, await, ret, throw, gets, modify in H.
  cbn beta iota in H.
  case_run H. settle_awaits.
  injection H as <-. by do 3 eexists.
Qed.

(** X17: a bake that succeeds touches one asset and one shape: every shape
    but the overlay and every asset but the one of the base are as before,
    and so are the fallback flags and the log. *)
Theorem bakeOverlay_frame (baseShapeId overlayShapeId : list N) (s s' : Sys) :
  bakeOverlayBetweenShapes E baseShapeId overlayShapeId s = (Ret tt, s') ->
  (forall id, id <> overlayShapeId ->
     shapes (canvas s') !! id = shapes (canvas s) !! id)
  /\ (exists baseShape aid,
        getShape baseShapeId (canvas s) = Some baseShape
        /\ shapeAssetId baseShape = Some aid
        /\ forall a, a <> aid -> assets (canvas s') !! a = assets (canvas s) !! a)
  /\ falFallbackConfig s' = falFallbackConfig s
  /\ log s' = log s.
Proof.
  intros H. apply bakeOverlay_success in H as (baseShape & aid & updated & Hb & Ha & ->).
  split.
  - intros id Hid. simpl. by rewrite lookup_delete_ne.
  - split; [|done]. exists baseShape, aid. repeat split; try done.
    intros a Hne. simpl. by rewrite lookup_insert_ne.
Qed.

(** ** What a submission leaves in the React state *)

Lemma leaves_ret {X A} (f : ReactState -> X) (a : A) : leaves f (ret a).
Proof. by intros w. Qed.

Lemma leaves_throw {X A} (f : ReactState -> X) e : leaves f (@throw World A e).
Proof. by intros w. Qed.

Lemma leaves_outOfFuel {X A} (f : ReactState -> X) : leaves f (@outOfFuel World A).
Proof. by intros w. Qed.

Lemma leaves_await {X A} (f : ReactState -> X) (a : Answer A) : leaves f (await a).
Proof. by destruct a. Qed.

Lemma leaves_liftSys {X A} (f : ReactState -> X) (m : Run Sys A) : leaves f (liftSys m).
Proof. intros w. unfold liftSys. by destruct (m (sys w)). Qed.

Lemma leaves_bind {X A B} (f : ReactState -> X) (m : Run World A) (k : A -> Run World B) :
  leaves f m -> (forall a, leaves f (k a)) -> leaves f (bind m k).
Proof.
  intros Hm Hk w. unfold bind. specialize (Hm w).
  destruct (m w) as [[a|e|] w1]; simpl in Hm; try done.
  by rewrite (Hk a w1).
Qed.

Lemma leaves_tryCatch {X A} (f : ReactState -> X) (m : Run World A)
  (h : Thrown -> Run World A) :
  leaves f m -> (forall e, leaves f (h e)) -> leaves f (tryCatch m h).
Proof.
  intros Hm Hh w. unfold tryCatch. specialize (Hm w).
  destruct (m w) as [[a|e|] w1]; simpl in Hm; try done.
  by rewrite (Hh e w1).
Qed.

Lemma leaves_withReact {X} (f : ReactState -> X) (g : ReactState -> ReactState) :
  (forall r, f (g r) = f r) -> leaves f (withReact g).
Proof. intros H w. apply H. Qed.

Lemma leaves_setEditingImage_image e :
  leaves storedLastAssistantImageInChat (setEditingImage e).
Proof. by apply leaves_withReact. Qed.

Lemma leaves_setEditingImage_session e : leaves storedChatSession (setEditingImage e).
Proof. by apply leaves_withReact. Qed.

Lemma leaves_setChatHistory_image g :
  leaves storedLastAssistantImageInChat (setChatHistory g).
Proof. by apply leaves_withReact. Qed.

Lemma leaves_setChatHistory_session g : leaves storedChatSession (setChatHistory g).
Proof. by apply leaves_withReact. Qed.

Lemma leaves_setChatSession_image c :
  leaves storedLastAssistantImageInChat (setChatSession c).
Proof. by apply leaves_withReact. Qed.

Create HintDb react.

#[local] Hint Resolve leaves_ret leaves_throw leaves_outOfFuel leaves_await
  leaves_liftSys leaves_bind leaves_tryCatch leaves_setEditingImage_image
  leaves_setEditingImage_session leaves_setChatHistory_image
  leaves_setChatHistory_session leaves_setChatSession_image : react.

Ltac leaves_step :=
  match goal with
  | |- leaves _ (match ?x with _ => _ end) => destruct x
  | |- leaves _ (bind _ _) => apply leaves_bind
  | |- leaves _ (tryCatch _ _) => apply leaves_tryCatch
  | |- forall _, _ => intro
  end.

Ltac leaves_all := cbv zeta; repeat first [ solve [auto with react] | leaves_step ].

Lemma executeTool_leaves {X} (f : ReactState -> X) ctx fn :
  (forall e, leaves f (setEditingImage e)) ->
  leaves f (executeTool E ctx fn).
Proof.
  intros Hf.
  unfold executeTool, dispatchTool, toolEditImage, toolGenerateImage, toolGenerateVideo,
    toolRemoveBackground, toolApplyOverlay, toolComposeAI, toolUpscaleImage,
    toolPlan, handleSaveEditedImage, addToast.
  leaves_all.
Qed.

Lemma toolLoop_leaves {X} (f : ReactState -> X) fuel :
  (forall e, leaves f (setEditingImage e)) ->
  forall ctx response, leaves f (toolLoop E fuel ctx response).
Proof.
  intros Hf. induction fuel as [|fuel IH]; intros ctx response; simpl.
  - apply leaves_bind; [auto with react|]. intros [ct p]. destruct p; auto with react.
  - apply leaves_bind; [auto with react|]. intros [ct p].
    destruct p; auto with react.
    apply leaves_bind; [by apply executeTool_leaves|]. intros result.
    apply leaves_bind; [apply leaves_liftSys|]. auto.
Qed.

(** X18: however a submission ends, the remembered chat image is the image
    attached to it or, when none is attached, the one remembered before: no
    tool and no failure changes it. *)
Theorem handleAssistantSubmit_remembers_image
  (rd : Render) (fuel : nat) (prompt : jsstring) (image : option ChatImage)
  (w : World) :
  storedLastAssistantImageInChat
    (react (final (handleAssistantSubmit E rd fuel prompt image w)))
  = match image with
    | Some _ => image
    | None => storedLastAssistantImageInChat (react w)
    end.
Proof.
  rewrite handleAssistantSubmit_start.
  match goal with |- context [final (?m ?w1)] =>
    assert (Hm : leaves storedLastAssistantImageInChat m) end.
  { apply leaves_bind.
    - unfold firstResponse, send, addToast, createChat. leaves_all.
    - intros response. apply leaves_bind; [|auto with react].
      apply toolLoop_leaves. auto with react. }
  by rewrite Hm.
Qed.

Lemma firstResponse_session c userParts w :
  storedChatSession (react (final (firstResponse E c userParts w)))
  = if fellBack E (length (log (sys w))) c userParts
    then Some (fallbackChat E)
    else storedChatSession (react w).
Proof.
  unfold fellBack, firstResponse, tryCatch, send at 1, liftSys, call.
  destruct (sendMessage E (length (log (sys w))) c userParts) as [resp|err]; [done|].
  destruct (isTransient (errorText err)); [|done].
  unfold bind, addToast, createChat, setChatSession, send, liftSys, emit, modify,
    withReact, bind, call. simpl.
  by destruct (sendMessage E _ (fallbackChat E) userParts).
Qed.

(** X19: however a submission ends, the chat session it leaves for the next
    render is the Flash chat when the first request fell back, and otherwise
    the session there was, or the new Pro chat when there was none. *)
Theorem handleAssistantSubmit_session
  (rd : Render) (fuel : nat) (prompt : jsstring) (image : option ChatImage)
  (w : World) :
  storedChatSession (react (final (handleAssistantSubmit E rd fuel prompt image w)))
  = if fellBack E (requestMoment rd w) (chatOf E rd) (userPartsOf prompt image)
    then Some (fallbackChat E)
    else match chatSession rd with
         | Some _ => storedChatSession (react w)
         | None => Some (primaryChat E)
         end.
Proof.
  rewrite handleAssistantSubmit_start.
  rewrite <- (startWorld_moment rd image (userPartsOf prompt image) w).
  set (w1 := startWorld E rd image (userPartsOf prompt image) w).
  change (match chatSession rd with
          | Some _ => storedChatSession (react w)
          | None => Some (primaryChat E)
          end) with (storedChatSession (react w1)).
  rewrite <- (firstResponse_session (chatOf E rd) (userPartsOf prompt image) w1).
  unfold bind at 1.
  destruct (firstResponse E (chatOf E rd) (userPartsOf prompt image) w1)
    as [[response|e|] w2]; [|done|done].
  match goal with |- context [final (?m w2)] =>
    assert (Hm : leaves storedChatSession m) end.
  { apply leaves_bind; [|auto with react].
    apply toolLoop_leaves. auto with react. }
  by rewrite Hm.
Qed.

(** ** The chat messages of a submission *)

Lemma emits_silent {A} allowed (m : Run Sys A) :
  (forall s, log (final (m s)) = log s) -> emits allowed m.
Proof. intros H s. exists []. rewrite app_nil_r. by split. Qed.

Lemma emits_ret {A} allowed (a : A) : emits allowed (ret a).
Proof. by apply emits_silent. Qed.

Lemma emits_throw {A} allowed e : emits allowed (@throw Sys A e).
Proof. by apply emits_silent. Qed.

Lemma emits_gets {A} allowed (f : Sys -> A) : emits allowed (gets f).
Proof. by apply emits_silent. Qed.

Lemma emits_await {A} allowed (a : Answer A) : emits allowed (await a).
Proof. destruct a; [apply emits_ret | apply emits_throw]. Qed.

Lemma emits_withCanvas allowed f : emits allowed (modify (withCanvas f)).
Proof. by apply emits_silent. Qed.

Lemma emits_withShapeIds allowed f : emits allowed (modify (withShapeIds f)).
Proof. by apply emits_silent. Qed.

Lemma emits_emit allowed ev :
  (forall c message, ev <> EvSendMessage c message) -> emits allowed (emit ev).
Proof.
  intros H s. exists [ev]. split; [done|].
  intros c message [->|[]]. by destruct (H c message).
Qed.

Lemma emits_call {A} allowed ev (answer : nat -> Answer A) :
  (forall c message, ev <> EvSendMessage c message) -> emits allowed (call ev answer).
Proof.
  intros H s. exists [ev]. split; [unfold call; by destruct (answer _)|].
  intros c message [->|[]]. by destruct (H c message).
Qed.

Lemma emits_flow allowed f :
  (forall s c message, ~ In (EvSendMessage c message) (snd (f s))) ->
  emits allowed (flow f).
Proof.
  intros H s. unfold flow. specialize (H s). destruct (f s) as [[r c] evs].
  exists evs. split; [done|]. intros c' message Hin. by destruct (H c' message).
Qed.

Lemma emits_bind {A B} allowed (m : Run Sys A) (k : A -> Run Sys B) :
  emits allowed m -> (forall a, emits allowed (k a)) -> emits allowed (bind m k).
Proof.
  intros Hm Hk s. unfold bind. destruct (Hm s) as (e1 & H1 & F1).
  destruct (m s) as [[a|e|] s1]; simpl in H1; try by exists e1.
  destruct (Hk a s1) as (e2 & H2 & F2). exists (e1 ++ e2).
  rewrite H2, H1, app_assoc. split; [done|].
  intros c message [?|?]%in_app_or; eauto.
Qed.

Lemma emits_tryCatch {A} allowed (m : Run Sys A) (h : Thrown -> Run Sys A) :
  emits allowed m -> (forall e, emits allowed (h e)) -> emits allowed (tryCatch m h).
Proof.
  intros Hm Hh s. unfold tryCatch. destruct (Hm s) as (e1 & H1 & F1).
  destruct (m s) as [[a|e|] s1]; simpl in H1; try by exists e1.
  destruct (Hh e s1) as (e2 & H2 & F2). exists (e1 ++ e2).
  rewrite H2, H1, app_assoc. split; [done|].
  intros c message [?|?]%in_app_or; eauto.
Qed.

Create HintDb chat.

#[local] Hint Resolve emits_ret emits_throw emits_gets emits_await emits_withCanvas
  emits_withShapeIds emits_emit emits_call emits_bind emits_tryCatch : chat.

#[local] Hint Extern 1 (forall c message, _ <> EvSendMessage c message) =>
  (intros ? ?; discriminate) : chat.

Ltac chat_step :=
  match goal with
  | |- emits _ (match ?x with _ => _ end) => destruct x
  | |- posts _ (match ?x with _ => _ end) => destruct x
  | |- emits _ (bind _ _) => apply emits_bind
  | |- emits _ (tryCatch _ _) => apply emits_tryCatch
  | |- forall _, _ => intro
  end.

Ltac chat_all := cbv zeta; repeat first [ solve [auto with chat] | chat_step ].

Lemma imageLoop_emits allowed n : forall req acc, emits allowed (imageLoop E n req acc).
Proof. induction n; intros; simpl; chat_all. Qed.

#[local] Hint Resolve imageLoop_emits : chat.

Lemma generateImages_emits allowed prompt imageBlob n ratio :
  emits allowed (generateImages E prompt imageBlob n ratio).
Proof.
  unfold generateImages. apply emits_bind; [auto with chat|]. intros l1.
  destruct l1; [|auto with chat].
  apply emits_bind; [auto with chat|]. intros l2. destruct l2; auto with chat.
Qed.

Lemma bakeOverlay_emits allowed b o : emits allowed (bakeOverlayBetweenShapes E b o).
Proof. unfold bakeOverlayBetweenShapes. chat_all. Qed.

Lemma editImage_emits allowed imageBlob maskBlob prompt overlayBlob :
  emits allowed (editImage E imageBlob maskBlob prompt overlayBlob).
Proof. unfold editImage. chat_all. Qed.

#[local] Hint Resolve generateImages_emits bakeOverlay_emits editImage_emits : chat.

Lemma runEditImage_emits allowed prompt target :
  emits allowed (runEditImage E prompt target).
Proof. unfold runEditImage. chat_all. Qed.

#[local] Hint Resolve runEditImage_emits : chat.

Lemma posts_silent {A} allowed (m : Run World A) :
  (forall w, log (sys (final (m w))) = log (sys w)) -> posts allowed m.
Proof. intros H w. exists []. rewrite app_nil_r. by split. Qed.

Lemma posts_ret {A} allowed (a : A) : posts allowed (ret a).
Proof. by apply posts_silent. Qed.

Lemma posts_throw {A} allowed e : posts allowed (@throw World A e).
Proof. by apply posts_silent. Qed.

Lemma posts_outOfFuel {A} allowed : posts allowed (@outOfFuel World A).
Proof. by apply posts_silent. Qed.

Lemma posts_await {A} allowed (a : Answer A) : posts allowed (await a).
Proof. destruct a; [apply posts_ret | apply posts_throw]. Qed.

Lemma posts_withReact allowed g : posts allowed (withReact g).
Proof. by apply posts_silent. Qed.

Lemma posts_liftSys {A} allowed (m : Run Sys A) :
  emits allowed m -> posts allowed (liftSys m).
Proof.
  intros Hm w. unfold liftSys. destruct (Hm (sys w)) as (evs & H & F).
  destruct (m (sys w)) as [r s']. by exists evs.
Qed.

Lemma posts_send (allowed : Chat -> list Part -> Prop) c message :
  allowed c message -> posts allowed (send E c message).
Proof.
  intros H w. exists [EvSendMessage c message].
  split; [unfold send, liftSys, call; by destruct (sendMessage E _ c message)|].
  by intros c' message' [[= <- <-]|[]].
Qed.

Lemma posts_bind {A B} allowed (m : Run World A) (k : A -> Run World B) :
  posts allowed m -> (forall a, posts allowed (k a)) -> posts allowed (bind m k).
Proof.
  intros Hm Hk w. unfold bind. destruct (Hm w) as (e1 & H1 & F1).
  destruct (m w) as [[a|e|] w1]; simpl in H1; try by exists e1.
  destruct (Hk a w1) as (e2 & H2 & F2). exists (e1 ++ e2).
  rewrite H2, H1, app_assoc. split; [done|].
  intros c message [?|?]%in_app_or; eauto.
Qed.

Lemma posts_tryCatch {A} allowed (m : Run World A) (h : Thrown -> Run World A) :
  posts allowed m -> (forall e, posts allowed (h e)) -> posts allowed (tryCatch m h).
Proof.
  intros Hm Hh w. unfold tryCatch. destruct (Hm w) as (e1 & H1 & F1).
  destruct (m w) as [[a|e|] w1]; simpl in H1; try by exists e1.
  destruct (Hh e w1) as (e2 & H2 & F2). exists (e1 ++ e2).
  rewrite H2, H1, app_assoc. split; [done|].
  intros c message [?|?]%in_app_or; eauto.
Qed.

#[local] Hint Resolve posts_ret posts_throw posts_outOfFuel posts_await
  posts_withReact posts_liftSys posts_bind posts_tryCatch : chat.

Ltac posts_step :=
  match goal with
  | |- posts _ (match ?x with _ => _ end) => destruct x
  | |- posts _ (bind _ _) => apply posts_bind
  | |- posts _ (tryCatch _ _) => apply posts_tryCatch
  | |- posts _ (liftSys (flow _)) => apply posts_liftSys, emits_flow
  | |- posts _ (liftSys _) => apply posts_liftSys
  | |- posts _ (withReact _) => apply posts_withReact
  | |- forall _, _ => intro
  end.

Ltac posts_all :=
  cbv zeta; repeat first [ solve [auto with chat] | posts_step | chat_step ].

Lemma executeTool_posts allowed ctx fn :
  quietFlows E -> posts allowed (executeTool E ctx fn).
Proof.
  intros [Himg Hvid].
  unfold executeTool, dispatchTool, toolEditImage, toolGenerateImage, toolGenerateVideo,
    toolRemoveBackground, toolApplyOverlay, toolComposeAI, toolUpscaleImage,
    toolPlan, handleSaveEditedImage, addToast, setEditingImage.
  posts_all.
Qed.

Lemma toolLoop_posts (allowed : Chat -> list Part -> Prop) fuel ctx :
  quietFlows E ->
  (forall name result, allowed (chat ctx) [FunctionResponsePart name result]) ->
  forall response, posts allowed (toolLoop E fuel ctx response).
Proof.
  intros Hq Hok. induction fuel as [|fuel IH]; intros response; simpl.
  - apply posts_bind; [auto with chat|]. intros [ct p]. destruct p; auto with chat.
  - apply posts_bind; [auto with chat|]. intros [ct p].
    destruct p; auto with chat.
    apply posts_bind; [by apply executeTool_posts|]. intros result.
    apply posts_bind; [by apply posts_send|]. auto.
Qed.

Lemma firstResponse_posts (allowed : Chat -> list Part -> Prop) c userParts :
  allowed c userParts -> allowed (fallbackChat E) userParts ->
  posts allowed (firstResponse E c userParts).
Proof.
  intros Hc Hf w.
  unfold firstResponse, tryCatch, send at 1, liftSys, call.
  destruct (sendMessage E (length (log (sys w))) c userParts) as [resp|err].
  - exists [EvSendMessage c userParts]. split; [done|].
    by intros c' m' [[= <- <-]|[]].
  - destruct (isTransient (errorText err)).
    + exists [EvSendMessage c userParts; EvToast fallbackToast;
              EvChatCreate (fallbackChat E);
              EvSendMessage (fallbackChat E) userParts].
      split.
      * unfold bind, addToast, createChat, setChatSession, send, liftSys, emit,
          modify, withReact, bind, call. simpl.
        destruct (sendMessage E _ (fallbackChat E) userParts); simpl;
          by rewrite <- !app_assoc.
      * intros c' m' Hin. simpl in Hin.
        destruct Hin as [[= <- <-]|[[=]|[[=]|[[= <- <-]|[]]]]]; done.
    + exists [EvSendMessage c userParts]. split; [done|].
      by intros c' m' [[= <- <-]|[]].
Qed.

(** X20: the chat messages of a submission are the user's parts, sent to the
    chat of the render and, after a fallback, to the Flash chat, and function
    responses, which all go to the chat of the render: the Flash chat never
    gets the result of a tool it asked for. *)
Theorem handleAssistantSubmit_messages
  (rd : Render) (fuel : nat) (prompt : jsstring) (image : option ChatImage)
  (w : World) :
  quietFlows E ->
  exists evs,
    log (sys (final (handleAssistantSubmit E rd fuel prompt image w)))
    = log (sys w) ++ evs
    /\ forall c message,
         In (EvSendMessage c message) evs ->
         submissionMessage E rd (userPartsOf prompt image) c message.
Proof.
  intros Hq.
  assert (Hu : posts (submissionMessage E rd (userPartsOf prompt image))
            (do response <- firstResponse E (chatOf E rd) (userPartsOf prompt image);
             do answer <- toolLoop E fuel (contextOf rd (chatOf E rd) image) response;
             setChatHistory (fun prev => prev ++ [answer]))).
  { apply posts_bind.
    - apply firstResponse_posts; left; auto.
    - intros response. apply posts_bind; [|intro; apply posts_withReact].
      apply toolLoop_posts; [done|]. intros name result. right.
      split; [done|]. by do 2 eexists. }
  rewrite handleAssistantSubmit_start.
  destruct (Hu (startWorld E rd image (userPartsOf prompt image) w)) as (evs & -> & F).
  unfold startWorld. destruct (chatSession rd) as [c0|]; simpl.
  - by exists evs.
  - exists (EvChatCreate (primaryChat E) :: evs). rewrite <- app_assoc.
    split; [done|]. intros c message [[=]|Hin]. by apply F.
Qed.

(** ** The contextual toolbar *)

(** X21: the toolbar never has the Compose (AI) and Bake Overlay buttons,
    whatever the mode and the selection: they are added only where exactly
    one image is selected and, at once, exactly two. *)
Theorem ContextualToolbar_never_offers_compose_or_bake
  (mode : Mode) (showToolbar : bool) (c : Canvas) (actions : list Action) :
  ContextualToolbarComponent mode showToolbar c = Toolbar actions ->
  forall a, In a actions ->
    onClick a <> ComposeWithOverlay /\ onClick a <> BakeSelected.
Proof.
  unfold ContextualToolbarComponent.
  set (selected := getSelectedShapes c).
  set (texts := List.filter (fun shape => isShapeOfType shape (js "text")) selected).
  set (images := List.filter (fun shape => isShapeOfType shape (js "image")) selected).
  set (others := List.filter _ selected).
  cbv zeta.
  destruct showToolbar; cbn [negb]; [|discriminate].
  destruct (0 <? length others)%nat; cbn [orb]; [discriminate|].
  destruct ((length texts =? 0)%nat && (length images =? 0)%nat); [discriminate|].
  intros [= <-] a Hin.
  assert (Hall : forall acts, In a acts ->
            Forall (fun a => onClick a <> ComposeWithOverlay
                             /\ onClick a <> BakeSelected) acts ->
            onClick a <> ComposeWithOverlay /\ onClick a <> BakeSelected).
  { intros acts Ha Hf. rewrite Forall_forall in Hf. by apply Hf, list_elem_of_In. }
  apply (Hall _ Hin). clear Hin Hall.
  destruct mode.
  - repeat match goal with
           | |- context [if ?b then _ else _] => destruct b
           end; cbn [app]; repeat constructor; cbn; discriminate.
  - destruct (length images =? 1)%nat eqn:H1; cbn [andb]; [|constructor].
    apply Nat.eqb_eq in H1. rewrite H1. cbn [Nat.eqb].
    destruct (negb _); cbn [app]; repeat constructor; cbn; discriminate.
Qed.

(** X22: in Assistant mode the toolbar has the buttons Use in Chat and Edit
    or none at all; in Create mode every toolbar that is shown ends with
    the Generate video button. *)
Theorem ContextualToolbar_buttons
  (mode : Mode) (showToolbar : bool) (c : Canvas) (actions : list Action) :
  ContextualToolbarComponent mode showToolbar c = Toolbar actions ->
  match mode with
  | assistant => actions = [] \/ actions = [useInChatAction; editAction]
  | create => exists before, actions = before ++ [videoAction]
  end.
Proof.
  unfold ContextualToolbarComponent.
  set (selected := getSelectedShapes c).
  set (texts := List.filter (fun shape => isShapeOfType shape (js "text")) selected).
  set (images := List.filter (fun shape => isShapeOfType shape (js "image")) selected).
  set (others := List.filter _ selected).
  cbv zeta.
  destruct showToolbar; cbn [negb]; [|discriminate].
  destruct (0 <? length others)%nat; cbn [orb]; [discriminate|].
  destruct ((length texts =? 0)%nat && (length images =? 0)%nat) eqn:Hempty;
    [discriminate|].
  intros [= <-]. destruct mode.
  - assert (Hsome : (0 <? length texts)%nat || (0 <? length images)%nat = true).
    { destruct (length texts), (length images); try done. }
    rewrite Hsome. rewrite !app_assoc. by eexists.
  - destruct (length images =? 1)%nat eqn:H1; cbn [andb]; [|by left].
    apply Nat.eqb_eq in H1. rewrite H1. cbn [Nat.eqb].
    destruct (negb _); [by right|by left].
Qed.

(** ** The transcript view *)

Lemma startsWith_app (p s : jsstring) :
  startsWith p s = true -> s = p ++ drop (length p) s.
Proof.
  revert s. induction p as [|a p IH]; intros [|b s]; simpl; try done.
  intros [Hab Hp]%andb_prop. apply N.eqb_eq in Hab as ->. f_equal. by apply IH.
Qed.

Lemma captureGreedy_sound (s p r : jsstring) :
  captureGreedy s = Some (p, r) -> s = p ++ js ";base64," ++ r.
Proof.
  revert p r. induction s as [|c t IH]; intros p r; [done|].
  cbn [captureGreedy]. destruct (isLineTerminator c); [done|].
  destruct (captureGreedy t) as [[p' r']|].
  - intros [= <- <-]. simpl. f_equal. by apply IH.
  - destruct (startsWith (js ";base64,") (c :: t)) eqn:Hs; [|done].
    intros [= <- <-]. by apply startsWith_app in Hs.
Qed.

Lemma matchDataUrlHead_sound (s m r : jsstring) :
  matchDataUrlHead s = Some (m, r) ->
  exists pre, s = pre ++ js "data:" ++ m ++ js ";base64," ++ r.
Proof.
  induction s as [|c t IH]; [done|].
  cbn [matchDataUrlHead].
  assert (Hrest : matchDataUrlHead t = Some (m, r) ->
            exists pre, c :: t = pre ++ js "data:" ++ m ++ js ";base64," ++ r).
  { intros H. destruct (IH H) as [pre ->]. by exists (c :: pre). }
  destruct (startsWith (js "data:") (c :: t)) eqn:Hs; [|done].
  destruct (captureGreedy (drop 5 (c :: t))) as [[m' r']|] eqn:Hc; [|done].
  intros [= -> ->]. exists []. apply startsWith_app in Hs. rewrite Hs at 1.
  simpl. do 5 f_equal. by apply captureGreedy_sound.
Qed.

Lemma lineOf_prefix (s : jsstring) : exists post, s = lineOf s ++ post.
Proof.
  induction s as [|c t [post IH]]; [by exists []|].
  simpl. destruct (isLineTerminator c); [by exists (c :: t)|].
  exists post. simpl. by rewrite <- IH.
Qed.

Lemma matchDataUrl_sound (s m d : jsstring) :
  matchDataUrl s = Some (m, d) ->
  exists pre post, s = pre ++ (js "data:" ++ m ++ js ";base64," ++ d) ++ post.
Proof.
  unfold matchDataUrl.
  destruct (matchDataUrlHead s) as [[m' r]|] eqn:H; [|done].
  intros [= -> <-]. apply matchDataUrlHead_sound in H as [pre ->].
  destruct (lineOf_prefix r) as [post Hr]. exists pre, post.
  rewrite Hr at 1. by rewrite <- !app_assoc.
Qed.

(** X23: the user turn of a submission always renders, as one message of
    the user; an image it shows is cut out of the source of the attached
    image, and it is that source itself when the source is a data URL as
    [generateImages] builds them. *)
Theorem ChatHistoryUI_user_turn
  (prompt : jsstring) (image : ChatImage) :
  exists nodes,
    renderItem (userTurn (userPartsOf prompt (Some image)))
    = Resolves {| className := js "chat-message user"; children := nodes |}
    /\ (forall url, In (Some (ImageNode url)) nodes ->
          exists pre post, src image = pre ++ url ++ post)
    /\ (forall mimeType data,
          src image = dataUrl mimeType data ->
          oneLine mimeType = true -> oneLine data = true ->
          noSemicolon data = true ->
          In (Some (ImageNode (src image))) nodes).
Proof.
  unfold userTurn, renderItem, userPartsOf. cbn [parts role].
  eexists. split; [reflexivity|]. split.
  - intros url Hin.
    destruct (matchDataUrl (src image)) as [[m d]|] eqn:Hm.
    + apply matchDataUrl_sound in Hm as (pre & post & Hs).
      cbn in Hin. destruct Hin as [Hin|[Hin|[]]].
      * by destruct (truthyStr prompt).
      * injection Hin as <-. by exists pre, post.
    + cbn in Hin. destruct Hin as [Hin|[]]. by destruct (truthyStr prompt).
  - intros mimeType data Hsrc Hm Hd Hs. rewrite Hsrc.
    rewrite (matchDataUrl_dataUrl mimeType data Hm Hd Hs).
    cbn. right. by left.
Qed.

Lemma renderItems_resolves (history : list Content) :
  Forall (fun item => is_Some (parts item)) history ->
  exists views, renderItems history = Resolves views.
Proof.
  induction 1 as [|item rest [ps Hp] _ [views IH]]; [by eexists|].
  simpl. unfold renderItem. rewrite Hp, IH. by eexists.
Qed.

Lemma renderItems_parts (history : list Content) views :
  renderItems history = Resolves views ->
  Forall (fun item => is_Some (parts item)) history.
Proof.
  revert views. induction history as [|item rest IH]; intros views; [constructor|].
  simpl. unfold renderItem. destruct (parts item) as [ps|] eqn:Hp; [|done].
  destruct (renderItems rest) as [vs|e] eqn:Hr; [|done].
  intros _. constructor; [by eexists|by eapply IH].
Qed.

Lemma toolLoop_parts fuel : forall ctx response w ct w',
  toolLoop E fuel ctx response w = (Ret ct, w') -> is_Some (parts ct).
Proof.
  induction fuel as [|fuel IH]; intros ctx response w ct w'; simpl;
    unfold bind at 1; destruct (firstPart response) as [[ct0 p]|e] eqn:Hf;
    simpl; try discriminate;
    destruct (firstPart_first _ _ _ Hf) as [ps Hps];
    destruct p; try (intros [= <- _]; by eexists);
    try discriminate.
  unfold bind.
  destruct (executeTool E ctx functionCall w) as [[res|e|] w1]; try discriminate.
  destruct (send E (chat ctx) _ w1) as [[response'|e|] w2]; try discriminate.
  apply IH.
Qed.

(** X24: a transcript that renders still renders after a submission,
    however the submission ends, and it is then not empty: every content a
    submission appends has its parts. *)
Theorem handleAssistantSubmit_transcript_renders
  (rd : Render) (fuel : nat) (prompt : jsstring) (image : option ChatImage)
  (w : World) (before : option (list MessageView)) :
  ChatHistoryUI (chatHistory (react w)) = Resolves before ->
  exists views,
    ChatHistoryUI
      (chatHistory (react (final (handleAssistantSubmit E rd fuel prompt image w))))
    = Resolves (Some views)
    /\ (length (chatHistory (react w)) < length views)%nat.
Proof.
  intros Hbefore.
  assert (H0 : Forall (fun item => is_Some (parts item)) (chatHistory (react w))).
  { unfold ChatHistoryUI in Hbefore.
    destruct (length (chatHistory (react w)) =? 0)%nat eqn:Hl.
    - apply Nat.eqb_eq in Hl. destruct (chatHistory (react w)); [constructor|done].
    - destruct (renderItems (chatHistory (react w))) as [vs|e] eqn:Hr; [|done].
      by eapply renderItems_parts. }
  set (user := userTurn (userPartsOf prompt image)).
  assert (Hh : exists more,
            chatHistory (react (final (handleAssistantSubmit E rd fuel prompt image w)))
            = chatHistory (react w) ++ user :: more
            /\ Forall (fun item => is_Some (parts item)) more).
  { rewrite handleAssistantSubmit_start.
    set (w1 := startWorld E rd image (userPartsOf prompt image) w).
    assert (H1 : chatHistory (react w1) = chatHistory (react w) ++ [user]) by done.
    clearbody w1. unfold bind at 1.
    destruct (firstResponse_keeps (chatOf E rd) (userPartsOf prompt image) w1) as [K2 _].
    destruct (firstResponse E (chatOf E rd) (userPartsOf prompt image) w1)
      as [[response|e|] w2]; simpl in K2;
      try (exists []; simpl; rewrite K2, H1; by split).
    unfold bind at 1.
    destruct (toolLoop_keeps fuel (contextOf rd (chatOf E rd) image) response w2)
      as [K3 _].
    destruct (toolLoop E fuel (contextOf rd (chatOf E rd) image) response w2)
      as [[answer|e|] w3] eqn:Hloop; simpl in K3;
      try (exists []; simpl; rewrite K3, K2, H1; by split).
    exists [answer]. simpl. rewrite K3, K2, H1, <- app_assoc. split; [done|].
    constructor; [|constructor]. eapply toolLoop_parts, Hloop. }
  destruct Hh as (more & -> & Hmore).
  assert (Hall : Forall (fun item => is_Some (parts item))
                   (chatHistory (react w) ++ user :: more)).
  { apply Forall_app. split; [done|]. constructor; [by eexists|done]. }
  destruct (renderItems_resolves _ Hall) as [views Hv].
  exists views. unfold ChatHistoryUI. rewrite Hv.
  assert (Hlen : length views = length (chatHistory (react w) ++ user :: more)).
  { clear -Hv. revert views Hv.
    induction (chatHistory (react w) ++ user :: more) as [|item rest IH];
      intros views; simpl.
    - by intros [= <-].
    - destruct (renderItem item); [|done].
      destruct (renderItems rest) as [vs|]; [|done].
      intros [= <-]. simpl. f_equal. by apply IH. }
  rewrite length_app in *. simpl in *.
  destruct (_ =? 0)%nat eqn:Hz; [apply Nat.eqb_eq in Hz; lia|].
  split; [done|lia].
Qed.

(** ** The flags the Ui starts with *)

(** X25: with the flags the [Ui] component starts with, which its first
    effect hands to the module, [generateVideo] never reaches FAL, whatever
    the key: it sends no request and no notice there, and when the primary
    attempt produces no video it returns the empty list. *)
Theorem generateVideo_under_initial_flags
  (fuel : nat) (imageBlob : option Blob) (prompt : jsstring)
  (numberOfVideos : Z) (aspectRatio : jsstring) (s : Sys) :
  let s1 := mountEffects s in
  let r := generateVideo E fuel imageBlob prompt numberOfVideos aspectRatio s1 in
  exists evs,
    final r = logged evs s1
    /\ forallb notFal evs = true
    /\ (primaryFailed
          (outcome (veoAttempt E fuel imageBlob prompt numberOfVideos aspectRatio s1))
        = true -> outcome r = Ret []).
Proof.
  intros s1 r.
  assert (Hr : r = generateVideo E fuel imageBlob prompt numberOfVideos aspectRatio s1)
    by reflexivity.
  clearbody r.
  destruct (veoAttempt_onlyLogs fuel imageBlob prompt numberOfVideos aspectRatio s1)
    as (evs & Hs & Hevs).
  exists evs.
  unfold generateVideo, bind at 1, tryCatch in Hr.
  destruct (veoAttempt E fuel imageBlob prompt numberOfVideos aspectRatio s1)
    as [[[vs|]|e|] s2]; simpl in Hs; subst s2;
    unfold bind, gets in Hr; cbn [ret] in Hr;
    rewrite ?andb_false_r in Hr; cbn [negb] in Hr; subst r; by repeat split.
Qed.

(** ** The prompt bar *)

Lemma handleAssistantSubmit_request_fails rd fuel prompt image w e :
  requestFails E (requestMoment rd w) (chatOf E rd) (userPartsOf prompt image) = Some e ->
  outcome (handleAssistantSubmit E rd fuel prompt image w) = Throw e.
Proof.
  intros H. rewrite handleAssistantSubmit_start.
  rewrite <- (startWorld_moment rd image (userPartsOf prompt image) w) in H.
  apply firstResponse_fails in H as (w' & H & _).
  unfold bind at 1. by rewrite H.
Qed.

(** X26: when the model request of a submission from the prompt bar fails,
    the failure leaves [handleRun] uncaught and the bar stays as it was
    while generating: still busy, the prompt and the attached image still
    there; a [handleRun] rendered from that state does nothing. *)
Theorem handleRun_stays_busy_after_failure
  (rd : Render) (fuel : nat)
  (onSubmit : jsstring -> option jsstring -> PromptBar.MediaAction ->
              PromptBar.Options -> Run PromptBar.Page unit)
  (b : PromptBar.BarRender) (pg : PromptBar.Page) (e : Thrown) :
  PromptBar.mode b = assistant ->
  PromptBar.isGenerating b = false ->
  truthyStr (PromptBar.prompt b) || is_Some_b (PromptBar.assistantImage b) = true ->
  requestFails E (requestMoment rd (PromptBar.world pg)) (chatOf E rd)
    (userPartsOf (PromptBar.prompt b) (PromptBar.assistantImage b)) = Some e ->
  let r := assistantBar E rd fuel onSubmit b pg in
  outcome r = Throw e
  /\ PromptBar.storedIsGenerating (PromptBar.bar (final r)) = true
  /\ PromptBar.storedPrompt (PromptBar.bar (final r))
     = PromptBar.storedPrompt (PromptBar.bar pg)
  /\ PromptBar.storedAssistantImage (final r) = PromptBar.storedAssistantImage pg
  /\ forall b' : PromptBar.BarRender,
       PromptBar.isGenerating b'
       = PromptBar.storedIsGenerating (PromptBar.bar (final r)) ->
       assistantBar E rd fuel onSubmit b' (final r) = (Ret tt, final r).
Proof.
  intros Hmode Hidle Hgiven Hfails r.
  assert (Hr : r = assistantBar E rd fuel onSubmit b pg) by reflexivity.
  clearbody r.
  unfold assistantBar, PromptBar.handleRun in Hr. cbv zeta in Hr.
  rewrite Hmode, Hidle, orb_false_r in Hr.
  replace (negb (truthyStr (PromptBar.prompt b))
           && negb match PromptBar.assistantImage b with
                   | Some _ => true
                   | None => false
                   end) with false in Hr
    by (destruct (truthyStr _), (PromptBar.assistantImage b); done).
  apply (handleAssistantSubmit_request_fails rd fuel) in Hfails.
  unfold bind, PromptBar.setIsGenerating, PromptBar.withBar, modify,
    PromptBar.liftWorld in Hr. cbn [PromptBar.world] in Hr.
  destruct (handleAssistantSubmit E rd fuel (PromptBar.prompt b)
              (PromptBar.assistantImage b) (PromptBar.world pg)) as [o w'].
  simpl in Hfails. subst o r. cbn.
  repeat split.
  intros b' Hbusy. unfold assistantBar, PromptBar.handleRun. cbv zeta.
  rewrite Hbusy. cbn. by rewrite orb_true_r.
Qed.

(** ** The composeAI tool *)

Lemma editImage_onlyLogs imageBlob maskBlob prompt overlayBlob :
  onlyLogs everyEvent (editImage E imageBlob maskBlob prompt overlayBlob).
Proof.
  unfold editImage. cbv zeta. apply onlyLogs_bind; [by apply onlyLogs_call|].
  intros res. destruct (inlineDataOf res) as [[m d]|]; auto with logs.
Qed.

Lemma handleSaveEditedImage_document assetId newSrc w :
  exists w',
    handleSaveEditedImage E assetId newSrc w = (Ret tt, w')
    /\ ((exists aid updated,
           assetId = Some aid
           /\ canvas (sys w') = updateAssets aid updated (canvas (sys w)))
        \/ canvas (sys w') = canvas (sys w)).
Proof.
  destruct w as [s r].
  unfold handleSaveEditedImage, tryCatch, bind at 1, await.
  destruct (getImageSize E newSrc) as [size|e]; cbn [ret throw].
  - unfold bind at 1, liftSys, gets. cbn [sys react].
    unfold getAsset. destruct assetId as [aid|].
    + destruct (assets (canvas s) !! aid) as [old|].
      * destruct (bool_decide (assetType old = js "image")); cbn [negb].
        -- eexists. split; [reflexivity|]. left. by do 2 eexists.
        -- eexists. split; [reflexivity|]. by right.
      * eexists. split; [reflexivity|]. by right.
    + eexists. split; [reflexivity|]. by right.
  - eexists. split; [reflexivity|]. by right.
Qed.

Lemma handleSaveEditedImage_canvas assetId newSrc w :
  let c := canvas (sys w) in
  let c' := canvas (sys (final (handleSaveEditedImage E assetId newSrc w))) in
  shapes c' = shapes c
  /\ selection c' = selection c
  /\ forall a, assetId <> Some a -> assets c' !! a = assets c !! a.
Proof.
  destruct (handleSaveEditedImage_document assetId newSrc w)
    as (w' & -> & [(aid & updated & -> & Hc)|Hc]); cbn [final snd]; rewrite Hc.
  - repeat split. intros a Hne. cbn. rewrite lookup_insert_ne; [done|congruence].
  - by repeat split.
Qed.

Lemma toolComposeAI_document ctx args w :
  let w' := final (toolComposeAI E ctx args w) in
  canvas (sys w') = canvas (sys w)
  \/ exists b baseShape aid updated,
       composeBaseId ctx args = Some b
       /\ getShape b (canvas (sys w)) = Some baseShape
       /\ shapeAssetId baseShape = Some aid
       /\ canvas (sys w') = updateAssets aid updated (canvas (sys w)).
Proof.
  intros w'. subst w'. set (r := toolComposeAI E ctx args w).
  assert (Hr : r = toolComposeAI E ctx args w) by reflexivity. clearbody r.
  unfold toolComposeAI in Hr.
  destruct (composeBaseId ctx args) as [b|]; [|subst r; by left].
  destruct (composeOverlayId ctx args) as [o|]; [|subst r; by left].
  destruct (negb (truthyStr b) || negb (truthyStr o)); [subst r; by left|].
  destruct w as [s rs].
  unfold bind at 1, liftSys at 1, gets at 1 in Hr. cbn [sys react] in *.
  destruct (getShape b (canvas s)) as [baseShape|] eqn:Hb; [|subst r; by left].
  destruct (getShape o (canvas s)) as [overlayShape|]; [|subst r; by left].
  unfold bind at 1, await in Hr.
  destruct (toImage E (canvas s) [b] true) as [be|e]; [|subst r; by left].
  cbn [ret] in Hr. unfold bind at 1 in Hr.
  destruct (toImage E (canvas s) [o] true) as [oe|e]; [|subst r; by left].
  cbn [ret] in Hr. unfold bind at 1 in Hr.
  destruct (createImageBitmap E be) as [bm|e]; [|subst r; by left].
  cbn [ret] in Hr. unfold bind at 1 in Hr. cbn [ret] in Hr.
  unfold bind at 1, liftSys at 1, gets at 1 in Hr. cbn [sys react] in Hr.
  destruct (negb (getContext2d E (length (log s)))); [subst r; by left|].
  destruct (toBlob E _) as [maskBlob|]; [|subst r; by left].
  unfold bind at 1, liftSys at 1 in Hr. cbn [sys react] in Hr.
  match type of Hr with context [editImage E ?i ?m ?p ?ov s] =>
    destruct (editImage_onlyLogs i m p ov s) as (evs & Hs & _);
    destruct (editImage E i m p ov s) as [[newSrc|e|] s1] end;
    simpl in Hs; subst s1; [|subst r; by left..].
  unfold bind at 1 in Hr.
  destruct (handleSaveEditedImage_document (shapeAssetId baseShape) newSrc
              {| sys := logged evs s; react := rs |})
    as (w2 & Hsave & [(aid & updated & Haid & Hc)|Hc]);
    rewrite Hsave in Hr; subst r; cbn [final snd ret sys] in *.
  - right. exists b, baseShape, aid, updated. by repeat split.
  - by left.
Qed.

(** X27: the composeAI tool never adds, removes, changes or selects a
    shape, however it ends: unlike applyOverlay it keeps the overlay on the
    page.  The one thing of the document it may change is the asset of the
    base shape. *)
Theorem toolComposeAI_frame (ctx : ToolContext) (args : FnArgs) (w : World) :
  let c := canvas (sys w) in
  let c' := canvas (sys (final (toolComposeAI E ctx args w))) in
  shapes c' = shapes c
  /\ selection c' = selection c
  /\ forall a, assets c' !! a <> assets c !! a ->
       exists b baseShape,
         composeBaseId ctx args = Some b
         /\ getShape b c = Some baseShape
         /\ shapeAssetId baseShape = Some a.
Proof.
  intros c c'. subst c c'.
  destruct (toolComposeAI_document ctx args w)
    as [Hc|(b & baseShape & aid & updated & Hbase & Hb & Haid & Hc)];
    cbv zeta in Hc; rewrite Hc.
  - by repeat split.
  - repeat split. intros a Hne. exists b, baseShape. repeat split; try done.
    destruct (decide (aid = a)) as [->|Hna]; [done|].
    destruct Hne. cbn. by rewrite lookup_insert_ne.
Qed.

(** ** editImage *)

Lemma findInlinePart_first (before after : list Part) (m d : jsstring) :
  forallb notInline before = true ->
  findInlinePart (before ++ InlineDataPart m d :: after) = Some (m, d).
Proof.
  induction before as [|p before IH]; [done|].
  simpl. intros [Hp Hb]%andb_prop. destruct p; try done; by apply IH.
Qed.

(** X28: [editImage] makes one request, with the text, the image, the mask
    and, when given, the overlay, in this order, and returns as a data URL
    the first inline image of the first candidate, whatever text the model
    puts before it and whatever follows. *)
Theorem editImage_returns_first_image
  (imageBlob maskBlob : Blob) (prompt : jsstring) (overlayBlob : option Blob)
  (s : Sys) (res : Response) (cand : Candidate) (others : list Candidate)
  (ct : Content) (before after : list Part) (m d : jsstring) :
  let req := editImageRequest E imageBlob maskBlob prompt overlayBlob in
  generateContent E (length (log s)) req = Resolves res ->
  candidates res = Some (cand :: others) ->
  content cand = Some ct ->
  parts ct = Some (before ++ InlineDataPart m d :: after) ->
  forallb notInline before = true ->
  editImage E imageBlob maskBlob prompt overlayBlob s
  = (Ret (dataUrl m d), logged [EvGenerateContent req] s)
  /\ gc_parts req
     = [TextPart prompt; pngPart E imageBlob; pngPart E maskBlob]
       ++ match overlayBlob with
          | Some ob => [pngPart E ob]
          | None => []
          end.
Proof.
  intros req Hres Hc Hct Hps Hbefore. split; [|by destruct overlayBlob].
  unfold editImage. cbv zeta. fold req. unfold bind, call. rewrite Hres.
  unfold inlineDataOf. rewrite Hc, Hct, Hps, findInlinePart_first by done.
  done.
Qed.

(** ** Tools on a target that is gone *)

Ltac other_tool :=
  rewrite bool_decide_eq_false_2 by (intros Heq; vm_compute in Heq; discriminate Heq).

Ltac this_tool := rewrite bool_decide_eq_true_2 by reflexivity.

(** X29: the removeBackground and upscaleImage tools on a target that is no
    longer a shape with an asset (the image used in chat was deleted, say)
    give the model the error result [Target shape is not a valid image.]
    and leave the document, the log and the React state as they were. *)
Theorem executeTool_stale_target
  (ctx : ToolContext) (fn : FunctionCall) (w : World) (sid : list N) :
  fn_name fn = js "removeBackground" \/ fn_name fn = js "upscaleImage" ->
  shapeIdForEditing ctx = Some sid ->
  truthyStr sid = true ->
  validTarget (canvas (sys w)) sid = false ->
  executeTool E ctx fn w
  = (Ret (ResultError (js "Target shape is not a valid image.")), w).
Proof.
  intros Hname Hsid Htruthy Hstale. destruct w as [s r]. cbn [sys] in Hstale.
  assert (Hrun : forall prompt,
            runEditImage E prompt sid s
            = (Throw (newError (js "Target shape is not a valid image.")), s)).
  { intros prompt. revert Hstale.
    unfold validTarget, runEditImage, bind at 1, gets, getShape. intros H.
    destruct (shapes (canvas s) !! sid) as [sh|]; [|done]. by rewrite H. }
  unfold executeTool, tryCatch, dispatchTool, isTool.
  destruct Hname as [-> | ->]; repeat other_tool; this_tool.
  - unfold toolRemoveBackground. rewrite Hsid, Htruthy. cbn [negb].
    unfold bind, liftSys. cbn [sys react]. by rewrite Hrun.
  - unfold toolUpscaleImage. rewrite Hsid, Htruthy. cbn [negb].
    unfold bind, liftSys. cbn [sys react]. by rewrite Hrun.
Qed.
End Proofs.

(** * The properties at work on the examples *)

Lemma generateImages_retries_once_witness :
  let s := sysOf emptyCanvas flagsOff in
  let retryText := js "a cat" ++ [10%N] ++ diversityHint in
  emptyRound silentImageEnv 0
    (imageRequest (imagePartOf silentImageEnv None) (TextPart (js "a cat")))
    (iterationsOf 2) = true
  /\ gc_parts (imageRequest (imagePartOf silentImageEnv None)
                 (TextPart (retryPromptOf (js "a cat"))))
     = [TextPart retryText]
  /\ generateImages silentImageEnv (js "a cat") None 2 (js "16:9") s
     = (Throw noImagesError,
        logged
          (repeat (EvGenerateContent
                     (imageRequest None (TextPart (js "a cat")))) 2
           ++ repeat (EvGenerateContent
                        (imageRequest None (TextPart retryText))) 2)
          s).
Proof.
  intros s retryText. split; [reflexivity|].
  destruct (generateImages_retries_once_then_fails silentImageEnv (js "a cat") None 2
              (js "16:9") s eq_refl) as (Hparts & _ & Hthrow).
  split; [exact Hparts|exact (Hthrow eq_refl)].
Defined.

Lemma generateVideo_filtered_witness :
  let s := sysOf emptyCanvas flagsOn in
  let s1 := logged [EvGenerateVideos
                      (videoRequest filteredEnv None (js "a storm") 1 (js "16:9"))] s in
  veoOperation filteredEnv 3 None (js "a storm") 1 (js "16:9") s
    = (Ret filteredOperation, s1)
  /\ veoAttempt filteredEnv 3 None (js "a storm") 1 (js "16:9") s
      = (Throw (newError (js "Unsafe content")), s1)
  /\ exists videos s',
       generateVideo filteredEnv 3 None (js "a storm") 1 (js "16:9") s
         = (Ret videos, s')
       /\ EvFalSubscribe (js "fal-ai/veo3")
            {| fi_prompt := js "a storm"; fi_aspect_ratio := js "16:9";
               fi_image_url := None |} ∈ log s'.
Proof.
  intros s s1. split; [reflexivity|].
  apply (generateVideo_filtered_reaches_fallback filteredEnv 3 None (js "a storm") 1
           (js "16:9") s s1 filteredOperation filteredResponse
           (js "Unsafe content") []); reflexivity.
Defined.

Lemma generateVideo_without_fallback_witness :
  let s := sysOf emptyCanvas flagsOn in
  primaryFailed (outcome (veoAttempt veoDownEnv 3 None (js "a storm") 1 (js "16:9") s))
    = true
  /\ truthyKey (FAL_KEY veoDownEnv) && video (falFallbackConfig s) = false
  /\ exists evs,
       generateVideo veoDownEnv 3 None (js "a storm") 1 (js "16:9") s
       = (Ret [], logged evs s)
       /\ forallb notFal evs = true.
Proof.
  intros s. split; [reflexivity|]. split; [reflexivity|].
  apply (generateVideo_without_fallback_returns_empty veoDownEnv 3 None
           (js "a storm") 1 (js "16:9") s); reflexivity.
Defined.

(** C4, the failing input: Veo is unreachable and no FAL key is configured,
    yet the call does not fail; it returns the empty list. *)
Lemma generateVideo_no_fallback_is_not_a_failure :
  isThrow (outcome (veoAttempt veoDownEnv 3 None (js "a storm") 1 (js "16:9")
                      (sysOf emptyCanvas flagsOn))) = true
  /\ truthyKey (FAL_KEY veoDownEnv) = false
  /\ outcome (generateVideo veoDownEnv 3 None (js "a storm") 1 (js "16:9")
                (sysOf emptyCanvas flagsOn)) = Ret []
  /\ ~ exists e,
         outcome (generateVideo veoDownEnv 3 None (js "a storm") 1 (js "16:9")
                    (sysOf emptyCanvas flagsOn)) = Throw e.
Proof.
  repeat split; try reflexivity.
  intros [e He]. discriminate He.
Qed.

Lemma handleAssistantSubmit_model_fallback_witness :
  let w := worldAt emptyCanvas flagsOff in
  let userParts := [TextPart (js "draw a cat")] in
  sendMessage proDownEnv 1 (primaryChat proDownEnv) userParts = Rejects internalError
  /\ isTransient (errorText internalError) = true
  /\ (exists rest,
        log (sys (final (handleAssistantSubmit proDownEnv firstRender 3
                           (js "draw a cat") None w)))
        = [ EvChatCreate (primaryChat proDownEnv) ]
          ++ [ EvSendMessage (primaryChat proDownEnv) userParts;
               EvToast fallbackToast;
               EvChatCreate (fallbackChat proDownEnv);
               EvSendMessage (fallbackChat proDownEnv) userParts ]
          ++ rest)
  /\ chatModel (fallbackChat proDownEnv) = js "gemini-2.5-flash"
  /\ chatTools (fallbackChat proDownEnv) = chatTools (primaryChat proDownEnv).
Proof.
  intros w userParts. split; [reflexivity|]. split; [reflexivity|].
  exact (handleAssistantSubmit_model_fallback proDownEnv firstRender 3
           (js "draw a cat") None w internalError eq_refl).
Defined.

(** The same submission when no model can be reached: the 503 is outside the
    transient class and comes back to the caller. *)
Lemma handleAssistantSubmit_propagates_other_errors :
  let w := worldAt emptyCanvas flagsOff in
  let r := handleAssistantSubmit offlineEnv firstRender 3 (js "draw a cat") None w in
  isTransient (errorText unavailable) = false
  /\ outcome r = Throw unavailable
  /\ log (sys (final r))
     = [ EvChatCreate (primaryChat offlineEnv);
         EvSendMessage (primaryChat offlineEnv) [TextPart (js "draw a cat")] ].
Proof.
  intros w r. split; [reflexivity|].
  exact (handleAssistantSubmit_model_fallback offlineEnv firstRender 3
           (js "draw a cat") None w unavailable eq_refl).
Defined.

Lemma tools_without_target_witness :
  let fn := {| fn_name := js "applyOverlay"; fn_args := noArgs |} in
  let w := worldAt bannerAndLogo flagsOff in
  needsBaseImage (fn_name fn) = true
  /\ exists msg,
       executeTool studioEnv
         (contextOf firstRender (primaryChat studioEnv) None) fn w
       = (Ret (ResultError msg), w).
Proof.
  intros fn w. split; [reflexivity|].
  apply (tools_without_target_leave_canvas studioEnv firstRender
           (primaryChat studioEnv) fn w); reflexivity.
Defined.


(** The bake on a page that has a 2D context: the logo is gone, the banner
    is selected, nothing was logged. *)
Lemma bakeOverlay_on_banner :
  let s := sysOf bannerAndLogo flagsOff in
  let r := bakeOverlayBetweenShapes studioEnv (js "shape:banner") (js "shape:logo") s in
  outcome r = Ret tt
  /\ shapes (canvas (final r)) !! js "shape:logo" = None
  /\ selection (canvas (final r)) = [js "shape:banner"]
  /\ log (final r) = [].
Proof. repeat split; vm_compute; reflexivity. Qed.

(** The pixels of that bake: the logo lies one pixel right of and below the
    corner of the banner; outside it the canvas holds the banner's pixels,
    and nothing where the banner's bitmap does not reach. *)
Lemma bakeOverlay_pixels_on_banner :
  let bb := {| boxLeft := 0; boxTop := 0; boxWidth := 4; boxHeight := 2 |} in
  let ob := {| boxLeft := 1; boxTop := 1; boxWidth := 2; boxHeight := 1 |} in
  let banner := {| bmWidth := 2; bmHeight := 2;
                   bmPixel := fun _ _ => (12, 0, 0, 255)%N |} in
  let logo := {| bmWidth := 2; bmHeight := 2;
                 bmPixel := fun _ _ => (10, 0, 0, 255)%N |} in
  let baked := drawImageAt studioEnv logo (bakeOffsetX bb ob) (bakeOffsetY bb ob)
                 (bakeBase studioEnv bb banner) in
  bakeOffsetX bb ob = Some 1 /\ bakeOffsetY bb ob = Some 1
  /\ bmWidth baked = 4 /\ bmHeight baked = 2
  /\ bmPixel baked 0 0 = (12, 0, 0, 255)%N
  /\ bmPixel baked 1 1 = (10, 0, 0, 255)%N
  /\ bmPixel baked 3 0 = transparentBlack.
Proof. repeat split; vm_compute; reflexivity. Qed.

(** The offset is the rounded difference of two doubles, not of two
    rationals: a half less two to the minus sixty is a half as a double, and
    rounds up; a difference too large for a double is infinite and leaves
    no offset to draw at. *)
Lemma bakeOffset_subtracts_doubles :
  let leftAt l := {| boxLeft := l; boxTop := 0; boxWidth := 4; boxHeight := 2 |} in
  let tiny := Qmake 1 (2 ^ 60)%positive in
  let huge := inject_Z (2 ^ 1023) in
  bakeOffsetX (leftAt tiny) (leftAt (1 # 2)) = Some 1
  /\ mathRound ((1 # 2) - tiny) = 0
  /\ bakeOffsetX (leftAt (7 # 2)) (leftAt (10 # 1)) = Some 7
  /\ bakeOffsetX (leftAt (10 # 1)) (leftAt (7 # 2)) = Some (-6)
  /\ bakeOffsetX (leftAt (1 # 10)) (leftAt (3 # 10)) = Some 0
  /\ bakeOffsetX (leftAt (- huge)%Q) (leftAt huge) = None.
Proof. repeat split; vm_compute; reflexivity. Qed.


Lemma overlay_resolves_to_base_witness :
  let ctx := contextOf laterRender (primaryChat studioEnv) None in
  applyOverlayBaseId ctx noArgs = Some (js "shape:banner")
  /\ applyOverlayOverlayId ctx noArgs = Some (js "shape:banner")
  /\ composeBaseId ctx noArgs = Some (js "shape:banner")
  /\ composeOverlayId ctx noArgs = Some (js "shape:banner")
  /\ editOverlay ctx (js "shape:banner") = None.
Proof.
  exact (overlay_resolves_to_base laterRender (primaryChat studioEnv) noArgs
           bannerInChat eq_refl eq_refl eq_refl).
Defined.

(** What follows from it: applyOverlay without shape ids, with the banner as
    the chat image, bakes the banner onto itself and deletes it. *)
Lemma applyOverlay_deletes_its_base :
  let fn := {| fn_name := js "applyOverlay"; fn_args := noArgs |} in
  let w := worldAt bannerAndLogo flagsOff in
  let r := executeTool studioEnv
             (contextOf laterRender (primaryChat studioEnv) None) fn w in
  outcome r = Ret (ResultOutput (js "Overlay applied (flattened)."))
  /\ shapes (canvas (sys w)) !! js "shape:banner"
     = Some (imageShapeAt "asset:banner" 0 0 4 2)
  /\ shapes (canvas (sys (final r))) !! js "shape:banner" = None.
Proof. repeat split; vm_compute; reflexivity. Qed.

(** C9, as stated, fails: no model can be reached, the submission throws,
    and the user turn of the request is in the transcript. *)
Lemma failed_request_leaves_user_turn :
  let w := worldAt emptyCanvas flagsOff in
  let r := handleAssistantSubmit offlineEnv firstRender 3 (js "draw a cat") None w in
  chatHistory (react w) = []
  /\ outcome r = Throw unavailable
  /\ chatHistory (react (final r)) = [userTurn [TextPart (js "draw a cat")]].
Proof. repeat split. Qed.

Lemma failed_request_witness :
  let w := worldAt emptyCanvas flagsOff in
  let r := handleAssistantSubmit offlineEnv laterRender 3 (js "add a hat")
             (Some bannerInChat) w in
  requestFails offlineEnv (requestMoment laterRender w) (chatOf offlineEnv laterRender)
    (userPartsOf (js "add a hat") (Some bannerInChat)) = Some unavailable
  /\ outcome r = Throw unavailable
  /\ chatHistory (react (final r))
     = chatHistory (react w)
       ++ [userTurn (userPartsOf (js "add a hat") (Some bannerInChat))].
Proof.
  intros w r. split; [reflexivity|].
  exact (handleAssistantSubmit_failed_request_keeps_user_turn offlineEnv laterRender 3
           (js "add a hat") (Some bannerInChat) w unavailable eq_refl).
Defined.


(** * More properties at work on the examples *)

Lemma generateImages_returns_images_witness :
  let s := sysOf emptyCanvas flagsOff in
  let url := js "data:image/png;base64,AAAA" in
  let r := generateImages painterEnv (js "a cat") None 2 (js "16:9") s in
  r = (Ret [url; url], final r)
  /\ ([url; url] <> []
      /\ (length [url; url] <= iterationsOf 2)%nat
      /\ Forall (fun u => isDataUrl u = true) [url; url]).
Proof.
  intros s url r. split; [reflexivity|].
  apply (generateImages_returns_images painterEnv (js "a cat") None 2 (js "16:9")
           s (final r) [url; url]).
  reflexivity.
Defined.

Lemma generateImages_first_round_witness :
  let s := sysOf emptyCanvas flagsOff in
  let first := imageRequest (imagePartOf painterEnv None) (TextPart (js "a cat")) in
  roundAnswered painterEnv 0 first (iterationsOf 2) = true
  /\ roundImages painterEnv 0 first (iterationsOf 2)
     = [js "data:image/png;base64,AAAA"; js "data:image/png;base64,AAAA"]
  /\ generateImages painterEnv (js "a cat") None 2 (js "16:9") s
     = (Ret (roundImages painterEnv (length (log s)) first (iterationsOf 2)),
        logged (repeat (EvGenerateContent first) (iterationsOf 2)) s).
Proof.
  intros s first. split; [reflexivity|]. split; [reflexivity|].
  apply (generateImages_first_round_suffices painterEnv (js "a cat") None 2
           (js "16:9") s); [reflexivity|discriminate].
Defined.

Lemma runEditImage_invalid_target_witness :
  validTarget (canvas (sysOf emptyCanvas flagsOff)) (js "shape:none") = false
  /\ runEditImage studioEnv (js "Remove the background") (js "shape:none")
       (sysOf emptyCanvas flagsOff)
     = (Throw (newError (js "Target shape is not a valid image.")),
        sysOf emptyCanvas flagsOff).
Proof.
  split; [reflexivity|].
  apply (runEditImage_invalid_target studioEnv (js "Remove the background")
           (js "shape:none") (sysOf emptyCanvas flagsOff)).
  reflexivity.
Defined.

Lemma runEditImage_failure_witness :
  let s := sysOf bannerAndLogo flagsOff in
  let c2 := select [js "shape:placeholder"]
              (createShape (js "shape:placeholder") placeholderShape bannerAndLogo) in
  let r := runEditImage silentStudioEnv (js "Upscale") (js "shape:banner") s in
  getShape (js "shape:placeholder") (canvas s) = None
  /\ (r = (Throw noImagesError, final r) /\ canvas (final r) = c2)
  /\ getShape (js "shape:placeholder") (canvas (final r)) = Some placeholderShape.
Proof.
  intros s c2 r. split; [reflexivity|]. split; [|reflexivity].
  apply (runEditImage_failure_keeps_placeholder silentStudioEnv (js "Upscale")
           (js "shape:banner") s (final r) {| blobBytes := js "shape:banner" |}
           {| boxLeft := 0; boxTop := 0; boxWidth := 4; boxHeight := 2 |}
           noImagesError); reflexivity.
Defined.

Lemma executeTool_unknown_tool_witness :
  let w := worldAt bannerAndLogo flagsOff in
  let ctx := contextOf firstRender (primaryChat studioEnv) None in
  executeTool studioEnv ctx unknownCall w
  = (Ret (ResultError (js "Unknown tool erase")), w)
  /\ executeTool studioEnv ctx misleadingCall w
     = (Ret (ResultError noImagesResult), toasted noImagesToast w).
Proof.
  intros w ctx. split.
  - apply (executeTool_unknown_tool studioEnv ctx unknownCall w).
    apply (bool_decide_unpack _). vm_compute. exact I.
  - apply (executeTool_unknown_tool studioEnv ctx misleadingCall w).
    apply (bool_decide_unpack _). vm_compute. exact I.
Defined.

Lemma gcd_witness : gcd 1920 1080 = 120 /\ gcd 1920 1080 = Z.gcd 1920 1080.
Proof.
  split; [reflexivity|].
  apply (gcd_is_greatest_common_divisor 1920 1080); lia.
Defined.

Lemma isTransient_internal_witness :
  isTransient (js "got status: " ++ js "Internal" ++ js " error") = true.
Proof.
  apply (isTransient_internal_anywhere (js "got status: ") (js "Internal") (js " error")).
  reflexivity.
Defined.

Lemma isTransient_status_500_witness :
  isTransient (js "{" ++ (js "status" ++ [dquote] ++ js ":") ++ js "  " ++ js "500"
               ++ js "}") = true.
Proof.
  apply (isTransient_status_500 (js "{") (js "  ") (js "}")).
  reflexivity.
Defined.

Lemma userPartsOf_reads_data_url_witness :
  matchDataUrl (dataUrl (js "image/png") (js "AAAA")) = Some (js "image/png", js "AAAA")
  /\ userPartsOf (js "make it blue")
       (Some {| src := dataUrl (js "image/png") (js "AAAA");
                shapeId := js "shape:banner" |})
     = [TextPart (js "make it blue"); InlineDataPart (js "image/png") (js "AAAA")].
Proof.
  apply (userPartsOf_reads_data_url (js "make it blue") (js "image/png") (js "AAAA")
           (js "shape:banner")); reflexivity.
Defined.

Lemma generateVideo_primary_success_witness :
  let s := sysOf emptyCanvas flagsOn in
  let r := veoAttempt veoEnv 3 None (js "a storm") 1 (js "16:9") s in
  let videos := [js "https://veo/v.mp4?x=1&key=key"] in
  r = (Ret (Some videos), final r)
  /\ generateVideo veoEnv 3 None (js "a storm") 1 (js "16:9") s = (Ret videos, final r)
  /\ (exists evs, final r = logged evs s /\ forallb notFal evs = true)
  /\ (exists op s0 resp gvs,
        veoOperation veoEnv 3 None (js "a storm") 1 (js "16:9") s = (Ret op, s0)
        /\ response op = Some resp /\ generatedVideos resp = Some gvs
        /\ length videos = length gvs).
Proof.
  intros s r videos. split; [reflexivity|].
  apply (generateVideo_primary_success veoEnv 3 None (js "a storm") 1 (js "16:9")
           s (final r) videos).
  reflexivity.
Defined.

Lemma generateVideo_returns_witness :
  let s := sysOf emptyCanvas flagsOn in
  outcome (veoOperation filteredEnv 3 None (js "a storm") 1 (js "16:9") s)
    = Ret filteredOperation
  /\ exists videos,
       outcome (generateVideo filteredEnv 3 None (js "a storm") 1 (js "16:9") s)
       = Ret videos.
Proof.
  intros s. split; [reflexivity|].
  apply (generateVideo_returns_when_polling_ends filteredEnv 3 None (js "a storm") 1
           (js "16:9") s).
  discriminate.
Defined.

Lemma bakeOverlay_frame_witness :
  let s := sysOf bannerAndLogo flagsOff in
  let r := bakeOverlayBetweenShapes studioEnv (js "shape:banner") (js "shape:logo") s in
  outcome r = Ret tt
  /\ ((forall id, id <> js "shape:logo" ->
         shapes (canvas (final r)) !! id = shapes (canvas s) !! id)
      /\ (exists baseShape aid,
            getShape (js "shape:banner") (canvas s) = Some baseShape
            /\ shapeAssetId baseShape = Some aid
            /\ forall a, a <> aid ->
                 assets (canvas (final r)) !! a = assets (canvas s) !! a)
      /\ falFallbackConfig (final r) = falFallbackConfig s
      /\ log (final r) = log s).
Proof.
  intros s r. split; [reflexivity|].
  apply (bakeOverlay_frame studioEnv (js "shape:banner") (js "shape:logo") s (final r)).
  reflexivity.
Defined.

Lemma handleAssistantSubmit_messages_witness :
  let w := worldAt emptyCanvas flagsOff in
  let userParts := userPartsOf (js "plan a poster") None in
  let r := handleAssistantSubmit flashPlansEnv firstRender 3 (js "plan a poster") None w in
  outcome r = Ret tt
  /\ log (sys (final r))
     = [ EvChatCreate (primaryChat flashPlansEnv);
         EvSendMessage (primaryChat flashPlansEnv) userParts;
         EvToast fallbackToast;
         EvChatCreate (fallbackChat flashPlansEnv);
         EvSendMessage (fallbackChat flashPlansEnv) userParts;
         EvSendMessage (primaryChat flashPlansEnv)
           [FunctionResponsePart (js "plan")
              (ResultOutput (js "Plan acknowledged: "))] ]
  /\ exists evs,
       log (sys (final r)) = log (sys w) ++ evs
       /\ forall c message,
            In (EvSendMessage c message) evs ->
            submissionMessage flashPlansEnv firstRender userParts c message.
Proof.
  intros w userParts r. split; [reflexivity|]. split; [reflexivity|].
  apply (handleAssistantSubmit_messages flashPlansEnv firstRender 3
           (js "plan a poster") None w).
  split; intros; simpl; tauto.
Defined.

Lemma ContextualToolbar_never_offers_witness :
  ContextualToolbarComponent assistant true bannerSelected
  = Toolbar [useInChatAction; editAction]
  /\ forall a, In a [useInChatAction; editAction] ->
       onClick a <> ComposeWithOverlay /\ onClick a <> BakeSelected.
Proof.
  split; [reflexivity|].
  apply (ContextualToolbar_never_offers_compose_or_bake assistant true bannerSelected).
  reflexivity.
Defined.

Lemma ContextualToolbar_buttons_witness :
  ContextualToolbarComponent create true bannerSelected
  = Toolbar [editAction; describeAction; variantsAction; videoAction]
  /\ exists before,
       [editAction; describeAction; variantsAction; videoAction]
       = before ++ [videoAction].
Proof.
  split; [reflexivity|].
  apply (ContextualToolbar_buttons create true bannerSelected).
  reflexivity.
Defined.

Lemma transcript_renders_witness :
  let w := worldAt emptyCanvas flagsOff in
  ChatHistoryUI (chatHistory (react w)) = Resolves None
  /\ exists views,
       ChatHistoryUI
         (chatHistory
            (react (final (handleAssistantSubmit proDownEnv firstRender 3
                             (js "draw a cat") None w))))
       = Resolves (Some views)
       /\ (length (chatHistory (react w)) < length views)%nat.
Proof.
  intros w. split; [reflexivity|].
  apply (handleAssistantSubmit_transcript_renders proDownEnv firstRender 3
           (js "draw a cat") None w None).
  reflexivity.
Defined.

Lemma handleRun_stays_busy_witness :
  let pg := pageAt (worldAt emptyCanvas flagsOff) in
  let r := assistantBar offlineEnv firstRender 3 noSubmit typing pg in
  requestFails offlineEnv (requestMoment firstRender (PromptBar.world pg))
    (chatOf offlineEnv firstRender)
    (userPartsOf (PromptBar.prompt typing) (PromptBar.assistantImage typing))
  = Some unavailable
  /\ outcome r = Throw unavailable
  /\ PromptBar.storedIsGenerating (PromptBar.bar (final r)) = true
  /\ PromptBar.storedPrompt (PromptBar.bar (final r))
     = PromptBar.storedPrompt (PromptBar.bar pg)
  /\ PromptBar.storedAssistantImage (final r) = PromptBar.storedAssistantImage pg
  /\ forall b' : PromptBar.BarRender,
       PromptBar.isGenerating b'
       = PromptBar.storedIsGenerating (PromptBar.bar (final r)) ->
       assistantBar offlineEnv firstRender 3 noSubmit b' (final r) = (Ret tt, final r).
Proof.
  intros pg r. split; [reflexivity|].
  apply (handleRun_stays_busy_after_failure offlineEnv firstRender 3 noSubmit typing pg
           unavailable); reflexivity.
Defined.

Lemma editImage_returns_first_image_witness :
  let s := sysOf emptyCanvas flagsOff in
  let image := {| blobBytes := js "image" |} in
  let mask := {| blobBytes := js "mask" |} in
  let req := editImageRequest captionedEnv image mask (js "make it blue") None in
  editImage captionedEnv image mask (js "make it blue") None s
  = (Ret (js "data:image/webp;base64,BBBB"), logged [EvGenerateContent req] s)
  /\ gc_parts req
     = [TextPart (js "make it blue"); pngPart captionedEnv image;
        pngPart captionedEnv mask] ++ [].
Proof.
  intros s image mask req.
  apply (editImage_returns_first_image captionedEnv image mask (js "make it blue") None
           s captionedResponse {| content := Some captionedContent |} []
           captionedContent [TextPart (js "Here it is.")]
           [InlineDataPart (js "image/png") (js "AAAA")]
           (js "image/webp") (js "BBBB")); reflexivity.
Defined.

Lemma executeTool_stale_target_witness :
  let w := worldAt emptyCanvas flagsOff in
  let ctx := contextOf laterRender (primaryChat studioEnv) None in
  shapeIdForEditing ctx = Some (js "shape:banner")
  /\ validTarget (canvas (sys w)) (js "shape:banner") = false
  /\ executeTool studioEnv ctx removeBackgroundCall w
     = (Ret (ResultError (js "Target shape is not a valid image.")), w).
Proof.
  intros w ctx. split; [reflexivity|]. split; [reflexivity|].
  apply (executeTool_stale_target studioEnv ctx removeBackgroundCall w
           (js "shape:banner")); [by left|reflexivity..].
Defined.

Lemma fetchFallbackVideos_result_witness :
  let s := sysOf emptyCanvas flagsOn in
  let urls := [js "https://fal/a.mp4"; js "https://fal/b.mp4"; js "https://fal/c.mp4"] in
  downloads flakyEnv 0 urls = [js "https://fal/a.mp4"; js "https://fal/c.mp4"]
  /\ fetchFallbackVideos flakyEnv urls [] s
     = (Ret ([] ++ downloads flakyEnv (length (log s)) urls),
        logged (EvFetch <$> urls) s).
Proof.
  intros s urls. split; [reflexivity|].
  apply (fetchFallbackVideos_result flakyEnv urls [] s).
Defined.
